(** * upload_large_file.py: the multipart uploader, embedded and verified

    A shallow embedding of [LargeMultipartUploader] (src/upload_large_file.py)
    and the proofs of its retry, completion and verification behaviour.

    - Python integers are [Z].  The two true divisions of the driver
      ([file_size / self.part_size] and [file_size / float(1024**3)]) produce
      binary64 floats; they are modelled by the correctly rounded quotient
      (round to nearest, ties to even, 53 bits), see [Module Float].
    - Exceptions are the constructors of [exn]; a call returns an [outcome].
    - The boto3 client is an injected capability: an arbitrary state machine
      [S3 S] over a remote state [S].  Every call and every [time.sleep] is
      appended to a chronological [trace], with the outcome of the call.
    - The methods are written in a state-and-exception monad [M] over the
      mutable attributes of [self] ([upload_id], [parts_completed], the
      client handle) and the environment.  [for attempt in range(...)] is a
      recursion on what is left of the range.
    - The local file is taken to be readable; its size is [getsize].
    - Of the log lines only the failure report of [upload] is modelled (the
      others carry no control flow).  The progress report of [upload_part]
      is modelled for the exceptions it can raise: its integer and float
      divisions are computed, and whether [time.gmtime] accepts the time
      left, which depends on the clock, is the environment's answer.
    - The worker pool is four workers over a queue; which worker moves next,
      one request or one sleep at a time, is the environment's choice, and
      so is the order in which [as_completed] hands out the futures.

    Layout: the embedding, the predicates the theorems speak about and the
    scripted store come first; then the facts on the rounding model, on the
    retry wrapper, on the coordinator and on the driver; the theorems on the
    specification close the file. *)

From Stdlib Require Import ZArith List String Bool Lia.
From Stdlib Require Import Sorting.Permutation Sorting.Sorted.
From Stdlib Require Floats.SpecFloat DecimalString.
Import ListNotations.
Local Open Scope string_scope.
Local Open Scope list_scope.
Local Open Scope Z_scope.

Set Implicit Arguments.

(** ** Exceptions and outcomes *)

(** The exception classes the program raises, catches or tells apart.
    [ClientError] carries the two fields of [exc.response] the program reads:
    [ResponseMetadata.HTTPStatusCode] and [Error.Code]. *)
Inductive exn : Type :=
| ReadTimeoutError (msg : string)
| ConnectTimeoutError (msg : string)
| ClientError (http_status : option Z) (error_code : option string)
| BotoCoreError (msg : string)
| RuntimeError (msg : string)
| ZeroDivisionError
| OverflowError
| OSError
| ValueError
| TypeError
| AttributeError
| OtherException (msg : string).

Inductive outcome (A : Type) : Type :=
| Ok (a : A)
| Raise (e : exn).
Arguments Ok {A} a.
Arguments Raise {A} e.

Definition is_ok {A} (r : outcome A) : bool :=
  match r with Ok _ => true | Raise _ => false end.

(** [isinstance(exc, ClientError)] *)
Definition isinstance_ClientError (exc : exn) : bool :=
  match exc with ClientError _ _ => true | _ => false end.

(** [isinstance(exc, (ReadTimeoutError, ConnectTimeoutError))] *)
Definition isinstance_timeout (exc : exn) : bool :=
  match exc with
  | ReadTimeoutError _ | ConnectTimeoutError _ => true
  | _ => false
  end.

(** [isinstance(exc, (ClientError, BotoCoreError))]: botocore's two timeout
    classes derive from [BotoCoreError]. *)
Definition isinstance_boto (exc : exn) : bool :=
  match exc with
  | ReadTimeoutError _ | ConnectTimeoutError _
  | ClientError _ _ | BotoCoreError _ => true
  | _ => false
  end.

Definition is_insufficient_storage_error (exc : exn) : bool :=
  match exc with
  | ClientError (Some status) _ => status =? 507
  | _ => false
  end.

Definition is_524_error (exc : exn) : bool :=
  match exc with
  | ClientError (Some status) _ => status =? 524
  | _ => false
  end.

Definition is_no_such_upload_error (exc : exn) : bool :=
  match exc with
  | ClientError _ (Some code) => String.eqb code "NoSuchUpload"
  | _ => false
  end.

(** [range(lo, hi)] *)
Definition range (lo hi : Z) : list Z :=
  map (fun i => lo + Z.of_nat i) (seq 0 (Z.to_nat (hi - lo))).

(** ** Binary64 arithmetic of the driver *)

Module Float.

(** A finite binary64 value [(-1)^neg * mant * 2^exp]. *)
Record float : Type := { neg : bool; mant : Z; exp : Z }.

(** [num / den] rounded to the nearest integer, ties to even
    ([0 <= num], [0 < den]). *)
Definition round_half_even (num den : Z) : Z :=
  let q := num / den in
  let r := num mod den in
  if 2 * r <? den then q
  else if den <? 2 * r then q + 1
  else if Z.even q then q else q + 1.

(** [a / b] scaled by [2^-e], as a fraction of integers. *)
Definition scaled_num (a e : Z) : Z := a * 2 ^ Z.max 0 (- e).
Definition scaled_den (b e : Z) : Z := b * 2 ^ Z.max 0 e.

(** The exponent of the unit in the last place of [a / b]: the [e] with
    [2^52 <= (a / b) / 2^e < 2^53], and [-1074] in the subnormal range. *)
Definition ulp_exp (a b : Z) : Z :=
  let e0 := Z.log2 a - Z.log2 b - 52 in
  let e := if scaled_num a e0 / scaled_den b e0 <? 2 ^ 52
           then e0 - 1 else e0 in
  Z.max e (-1074).

(** The binary64 nearest to [a / b] for [0 <= a], [0 < b]; [OverflowError]
    when it is not finite (Python raises where IEEE would give infinity). *)
Definition round_to_double (sign : bool) (a b : Z) : outcome float :=
  if a =? 0 then Ok {| neg := sign; mant := 0; exp := 0 |}
  else
    let e := ulp_exp a b in
    let m := round_half_even (scaled_num a e) (scaled_den b e) in
    if 2 ^ 1024 <=? m * 2 ^ Z.max 0 e then Raise OverflowError
    else Ok {| neg := sign; mant := m; exp := e |}.

(** [a / b] on two Python ints: the correctly rounded quotient. *)
Definition int_truediv (a b : Z) : outcome float :=
  if b =? 0 then Raise ZeroDivisionError
  else round_to_double (xorb (a <? 0) (b <? 0)) (Z.abs a) (Z.abs b).

(** [float(n)] *)
Definition of_int (n : Z) : outcome float :=
  round_to_double (n <? 0) (Z.abs n) 1.

(** [x / float(2**k)]: dividing a float by a power of two only lowers the
    exponent (exact while the result stays normal, which holds for the
    quotients of the driver: [x] is zero or at least one in magnitude). *)
Definition div_pow2 (x : float) (k : Z) : float :=
  {| neg := neg x; mant := mant x; exp := exp x - k |}.

(** [math.ceil(x)] *)
Definition ceil (x : float) : Z :=
  if 0 <=? exp x then (if neg x then - mant x else mant x) * 2 ^ exp x
  else if neg x then - (mant x / 2 ^ (- exp x))
  else - ((- mant x) / 2 ^ (- exp x)).

(** The same value read off the standard library's IEEE 754 specification,
    to compare the model with it on sample operands. *)
Definition of_spec (x : SpecFloat.spec_float) : option float :=
  match x with
  | SpecFloat.S754_zero s => Some {| neg := s; mant := 0; exp := 0 |}
  | SpecFloat.S754_finite s m e => Some {| neg := s; mant := Zpos m; exp := e |}
  | _ => None
  end.

Definition spec_of_int (n : Z) : SpecFloat.spec_float :=
  SpecFloat.binary_normalize 53 1024 n 0 false.

Definition spec_div (a b : Z) : SpecFloat.spec_float :=
  SpecFloat.SFdiv 53 1024 (spec_of_int a) (spec_of_int b).

Definition zero : float := {| neg := false; mant := 0; exp := 0 |}.

(** [x > 0] *)
Definition positive (x : float) : bool := negb (neg x) && (0 <? mant x).

(** Two finite values are equal. *)
Definition same_value (x y : float) : bool :=
  let lo := Z.min (exp x) (exp y) in
  let v z := (if neg z then - mant z else mant z) * 2 ^ (exp z - lo) in
  v x =? v y.

End Float.

(** Exact ceiling of [a / b] on integers, [0 < b]. *)
Definition ceil_div (a b : Z) : Z := - ((- a) / b).

(** ** Chunk planner (the head of [upload]) *)

Record chunk : Type := { part_number : Z; offset : Z; bytes_to_read : Z }.

(** [total_parts = math.ceil(file_size / self.part_size)] *)
Definition total_parts (file_size part_size : Z) : outcome Z :=
  match Float.int_truediv file_size part_size with
  | Ok q => Ok (Float.ceil q)
  | Raise e => Raise e
  end.

(** [file_gb = file_size / float(1024**3)];
    [completion_timeout = max(60, int(math.ceil(file_gb) * 5))] *)
Definition completion_timeout (file_size : Z) : outcome Z :=
  match Float.of_int file_size with
  | Ok x => Ok (Z.max 60 (Float.ceil (Float.div_pow2 x 30) * 5))
  | Raise e => Raise e
  end.

(** The arguments of the [upload_part] tasks submitted by the loop
    [for part_num in range(1, total_parts + 1)]. *)
Definition plan_chunk (file_size part_size part_num : Z) : chunk :=
  let offset := (part_num - 1) * part_size in
  {| part_number := part_num;
     offset := offset;
     bytes_to_read := Z.min part_size (file_size - offset) |}.

Definition chunk_plan (file_size part_size total : Z) : list chunk :=
  map (plan_chunk file_size part_size) (range 1 (total + 1)).

(** ** The object store client and the environment *)

(** A [Part] record, [{"PartNumber": n, "ETag": etag}]. *)
Record part : Type := { PartNumber : Z; ETag : string }.

(** The read and connect timeout of a client handle; [None] is the handle
    built by [__init__], which leaves botocore's defaults in place. *)
Definition client_config : Type := option Z.

(** What the program can observe of the outside world, in order: the calls
    on the client with their outcome, and the sleeps.  The bucket and the key
    are fixed per uploader and left implicit.  [abort_multipart_upload] is
    the one call of the multipart protocol the program never makes. *)
Inductive event : Type :=
| Sleep (secs : Z)
| CreateMultipartUpload (r : outcome string)
| UploadPart (part_number : Z) (upload_id : string) (offset len : Z)
             (r : outcome string)
| ListParts (upload_id : string) (r : outcome (list part))
| CompleteMultipartUpload (timeout : Z) (upload_id : string)
                          (parts : list part) (r : outcome unit)
| HeadObject (cfg : client_config) (r : outcome (option Z))
| AbortMultipartUpload (upload_id : string).

(** The two log lines of the failure report of [upload]. *)
Inductive log_line : Type :=
| Upload_interrupted (exc : exn)
| UploadId_left_open (upload_id : string).

(** What [time.gmtime] raises on a time it cannot represent: [OverflowError]
    outside the range of [time_t], [OSError] outside the calendar. *)
Inductive gmtime_failure : Type := out_of_time_t | out_of_calendar.

Definition gmtime_error (f : gmtime_failure) : exn :=
  match f with
  | out_of_time_t => OverflowError
  | out_of_calendar => OSError
  end.

(** The boto3 S3 client over a remote state [S], and the rest of the
    environment.  [s3_head_object] answers with [head.get("ContentLength")];
    [elapse] is what the remote side does while the program sleeps.
    [choose n] settles a choice among [n] alternatives that is not the
    program's: the worker thread that moves next, the future that
    [as_completed] hands out next.  [time_time] is [time.time()];
    [gmtime_refuses start_time fraction] tells whether [time.gmtime] refuses
    the time left, [max(0, (time.time() - start_time) * (1 / fraction - 1))]. *)
Record S3 (S : Type) : Type := {
  s3_create_multipart_upload : client_config -> S -> outcome string * S;
  s3_upload_part :
    client_config -> Z -> string -> Z -> Z -> S -> outcome string * S;
  s3_list_parts : client_config -> string -> S -> outcome (list part) * S;
  s3_complete_multipart_upload :
    client_config -> string -> list part -> S -> outcome unit * S;
  s3_head_object : client_config -> S -> outcome (option Z) * S;
  elapse : Z -> S -> S;
  choose : nat -> S -> nat;
  time_time : S -> Float.float;
  gmtime_refuses : Float.float -> Float.float -> S -> option gmtime_failure
}.

(** The mutable attributes of [self], the remote state and what was
    observed so far. *)
Record state (S : Type) : Type := {
  upload_id : option string;
  parts_completed : Z;
  s3_config : client_config;
  remote : S;
  trace : list event;
  log : list log_line
}.

Definition set_upload_id {S} (v : option string) (st : state S) : state S :=
  {| upload_id := v; parts_completed := parts_completed st;
     s3_config := s3_config st; remote := remote st;
     trace := trace st; log := log st |}.

Definition set_parts_completed {S} (v : Z) (st : state S) : state S :=
  {| upload_id := upload_id st; parts_completed := v;
     s3_config := s3_config st; remote := remote st;
     trace := trace st; log := log st |}.

Definition set_s3_config {S} (v : client_config) (st : state S) : state S :=
  {| upload_id := upload_id st; parts_completed := parts_completed st;
     s3_config := v; remote := remote st;
     trace := trace st; log := log st |}.

(** The remote state moves to [s] and [ev] is observed. *)
Definition observe {S} (s : S) (ev : event) (st : state S) : state S :=
  {| upload_id := upload_id st; parts_completed := parts_completed st;
     s3_config := s3_config st; remote := s;
     trace := trace st ++ [ev]; log := log st |}.

Definition add_log {S} (l : log_line) (st : state S) : state S :=
  {| upload_id := upload_id st; parts_completed := parts_completed st;
     s3_config := s3_config st; remote := remote st;
     trace := trace st; log := log st ++ [l] |}.

(** ** The monad of the methods: state and exceptions *)

Definition M (S A : Type) : Type := state S -> outcome A * state S.

Definition ret {S A} (a : A) : M S A := fun st => (Ok a, st).

Definition raise {S A} (e : exn) : M S A := fun st => (Raise e, st).

Definition bind {S A B} (m : M S A) (k : A -> M S B) : M S B :=
  fun st =>
    match m st with
    | (Ok a, st1) => k a st1
    | (Raise e, st1) => (Raise e, st1)
    end.

(** [try: m  except ... as exc: handler exc]; a handler re-raises the
    exceptions its [except] clauses do not match. *)
Definition try_except {S A} (m : M S A) (handler : exn -> M S A) : M S A :=
  fun st =>
    match m st with
    | (Ok a, st1) => (Ok a, st1)
    | (Raise e, st1) => handler e st1
    end.

(** The outcome of a computation (a result or an exception), held back. *)
Definition of_outcome {S A} (r : outcome A) : M S A := fun st => (r, st).

Definition get {S A} (f : state S -> A) : M S A := fun st => (Ok (f st), st).

Definition modify {S} (f : state S -> state S) : M S unit :=
  fun st => (Ok tt, f st).

Declare Scope monad_scope.
Delimit Scope monad_scope with monad.
Notation "x <- m ;; k" := (bind m (fun x => k))
  (at level 61, m at next level, right associativity) : monad_scope.
Notation "m ;; k" := (bind m (fun _ => k))
  (at level 61, right associativity) : monad_scope.
Notation "'try' m 'except' h" := (try_except m h)
  (at level 60, m at level 9, h at level 9) : monad_scope.
Local Open Scope monad_scope.

(** ** The methods of [LargeMultipartUploader] *)

Section Uploader.

Variable S : Type.
Variable s3 : S3 S.

(** [self.part_size], [self.max_retries] and the size of the local file as
    [os.path.getsize(self.file_path)] reports it. *)
Variable part_size : Z.
Variable max_retries : Z.
Variable getsize : Z.

(** A call on a client handle: the remote side answers and moves on, and
    the call is observed. *)
Definition call {A} (op : S -> outcome A * S) (ev : outcome A -> event)
  : M S A :=
  fun st => let (r, s) := op (remote st) in (r, observe s (ev r) st).

(** [time.sleep(secs)] *)
Definition sleep (secs : Z) : M S unit :=
  fun st =>
    if secs <? 0 then (Raise ValueError, st)
    else (Ok tt, observe (elapse s3 secs (remote st)) (Sleep secs) st).

(** [client.head_object(Bucket=..., Key=...)] on the handle [cfg] *)
Definition head_object (cfg : client_config) : M S (option Z) :=
  call (s3_head_object s3 cfg) (HeadObject cfg).

(** [self.s3.create_multipart_upload(...)], then [resp["UploadId"]] *)
Definition create_multipart_upload : M S string :=
  cfg <- get (@s3_config S) ;;
  call (s3_create_multipart_upload s3 cfg) CreateMultipartUpload.

(** [fetch_parts]: every page of the [list_parts] paginator *)
Definition fetch_parts : M S (list part) :=
  cfg <- get (@s3_config S) ;;
  uid <- get (@upload_id S) ;;
  match uid with
  | Some id => call (s3_list_parts s3 cfg id) (ListParts id)
  | None => raise (BotoCoreError "ParamValidationError")
  end.

(** [call_with_524_retry], from the iteration [attempt] on;
    [attempts] is what is left of [range(1, self.max_retries + 1)].
    Falling off the loop returns [None]. *)
Fixpoint call_with_524_retry_loop {A} (func : M S A) (attempts : list Z)
  : M S (option A) :=
  match attempts with
  | [] => ret None
  | attempt :: rest =>
      try (a <- func ;; ret (Some a))
      except (fun exc =>
        if isinstance_ClientError exc then
          if is_524_error exc then
            if attempt =? max_retries then raise exc
            else sleep (2 ^ attempt) ;; call_with_524_retry_loop func rest
          else raise exc
        else if isinstance_timeout exc then
          if attempt =? max_retries then raise exc
          else sleep (2 ^ attempt) ;; call_with_524_retry_loop func rest
        else raise exc)
  end.

Definition call_with_524_retry {A} (func : M S A) : M S (option A) :=
  call_with_524_retry_loop func (range 1 (max_retries + 1)).

(** [raise (last_exc if last_exc else RuntimeError(...))]: an exception
    object is truthy. *)
Definition exhausted (last_exc : option exn) : exn :=
  match last_exc with
  | Some exc => exc
  | None =>
      RuntimeError "Exceeded max_retries without completing multipart upload"
  end.

(** [head.get("ContentLength")]: [head] is [None] when the retry wrapper
    fell off its loop. *)
Definition ContentLength (head : option (option Z)) : M S (option Z) :=
  match head with
  | Some h => ret h
  | None => raise AttributeError
  end.

(** [uploaded_size == expected_size] *)
Definition size_eqb (uploaded_size : option Z) (size : Z) : bool :=
  match uploaded_size with
  | Some n => n =? size
  | None => false
  end.

(** The loop of [complete_with_timeout_retry], from the iteration [attempt]
    on, with the current values of [timeout] and [last_exc]. *)
Fixpoint complete_loop (uid : string) (parts_sorted : list part)
    (expected_size : Z) (attempts : list Z) (timeout : Z)
    (last_exc : option exn) : M S unit :=
  match attempts with
  | [] => ret tt
  | attempt :: rest =>
      let client := Some timeout in
      failed <-
        try (call (s3_complete_multipart_upload s3 client uid parts_sorted)
                  (CompleteMultipartUpload timeout uid parts_sorted) ;;
             ret None)
        except (fun exc =>
          if isinstance_timeout exc then ret (Some (exc, false))
          else if isinstance_boto exc
               then ret (Some (exc, is_no_such_upload_error exc))
          else raise exc) ;;
      match failed with
      | None => modify (set_s3_config client)
      | Some (exc, no_such_upload) =>
          let last_exc := Some exc in
          (if no_such_upload then ret tt else sleep timeout) ;;
          confirmed <-
            try (head <- call_with_524_retry (head_object client) ;;
                 uploaded_size <- ContentLength head ;;
                 ret (size_eqb uploaded_size expected_size))
            except (fun head_exc => ret false) ;;
          if confirmed then modify (set_s3_config client)
          else if attempt =? max_retries then raise (exhausted last_exc)
          else complete_loop uid parts_sorted expected_size rest
                 (timeout * 2) last_exc
      end
  end.

Definition complete_with_timeout_retry (parts_sorted : list part)
    (initial_timeout expected_size : Z) : M S unit :=
  uid <- get (@upload_id S) ;;
  match uid with
  | None => raise (RuntimeError "upload_id not set")
  | Some id =>
      complete_loop id parts_sorted expected_size
        (range 1 (max_retries + 1)) initial_timeout None
  end.

(** The progress report of [upload_part], after the counter was
    incremented: [progress = 100.0 * self.parts_completed / total_parts],
    [progress_fraction = part_number / total_parts] and, when the fraction
    is positive, the time left, which [time.gmtime] has to accept. *)
Definition report_progress (part_number total_parts : Z)
    (start_time : Float.float) : M S unit :=
  completed <- get (@parts_completed S) ;;
  _ <- of_outcome (Float.of_int completed) ;;
  _ <- of_outcome (Float.of_int total_parts) ;;
  (if total_parts =? 0 then raise ZeroDivisionError else ret tt) ;;
  progress_fraction <- of_outcome (Float.int_truediv part_number total_parts) ;;
  if Float.positive progress_fraction then
    refused <- get (fun st => gmtime_refuses s3 start_time progress_fraction
                                (remote st)) ;;
    match refused with
    | Some f => raise (gmtime_error f)
    | None => ret tt
    end
  else ret tt.

(** The [try] block of one iteration of [upload_part].  The body of the part
    is the byte range [offset, offset + bytes_to_read) of the local file,
    which is taken to be readable there. *)
Definition upload_part_request (uid : string)
    (part_number offset bytes_to_read total_parts : Z)
    (start_time : Float.float) : M S part :=
  cfg <- get (@s3_config S) ;;
  etag <- call (s3_upload_part s3 cfg part_number uid offset bytes_to_read)
               (UploadPart part_number uid offset bytes_to_read) ;;
  modify (fun st => set_parts_completed (parts_completed st + 1) st) ;;
  report_progress part_number total_parts start_time ;;
  ret {| PartNumber := part_number; ETag := etag |}.

(** The loop of [upload_part]. *)
Fixpoint upload_part_loop (uid : string)
    (part_number offset bytes_to_read total_parts : Z)
    (start_time : Float.float) (attempts : list Z)
  : M S (option part) :=
  match attempts with
  | [] => ret None
  | attempt :: rest =>
      try (p <- upload_part_request uid part_number offset bytes_to_read
                  total_parts start_time ;;
           ret (Some p))
      except (fun exc =>
        if isinstance_boto exc then
          if is_insufficient_storage_error exc
          then raise (RuntimeError "Server reported insufficient storage")
          else if attempt =? max_retries then raise exc
          else sleep (2 ^ attempt) ;;
               upload_part_loop uid part_number offset bytes_to_read
                 total_parts start_time rest
        else raise exc)
  end.

Definition upload_part (part_number offset bytes_to_read total_parts : Z)
    (start_time : Float.float) : M S (option part) :=
  uid <- get (@upload_id S) ;;
  match uid with
  | None => raise (RuntimeError "upload_id not set")
  | Some id =>
      upload_part_loop id part_number offset bytes_to_read total_parts
        start_time (range 1 (max_retries + 1))
  end.

(** ** The worker pool *)

(** A task of the executor, [upload_part] on a chunk of the plan, where it
    stands: not started, before an attempt with the attempts that are left,
    or before the back-off that follows a failed attempt. *)
Inductive worker : Type :=
| Fresh (c : chunk)
| Trying (uid : string) (c : chunk) (attempts : list Z)
| Backoff (uid : string) (c : chunk) (attempt : Z) (rest : list Z).

Definition task (w : worker) : chunk :=
  match w with
  | Fresh c | Trying _ c _ | Backoff _ c _ _ => c
  end.

Inductive step_result : Type :=
| Running (w : worker)
| Finished (r : outcome (option part)).

(** One attempt of a task: the [try] block and what the [except] clause
    decides.  It is taken as one move: between the answer of the store and
    the end of the attempt the task touches only the counter, under its
    lock, and the clock. *)
Definition worker_try (uid : string) (c : chunk) (total_parts : Z)
    (start_time : Float.float) (attempts : list Z)
  : state S -> step_result * state S :=
  fun st =>
    match attempts with
    | [] => (Finished (Ok None), st)
    | attempt :: rest =>
        match upload_part_request uid (part_number c) (offset c)
                (bytes_to_read c) total_parts start_time st with
        | (Ok p, st1) => (Finished (Ok (Some p)), st1)
        | (Raise exc, st1) =>
            if isinstance_boto exc then
              if is_insufficient_storage_error exc
              then (Finished (Raise (RuntimeError
                                       "Server reported insufficient storage")),
                    st1)
              else if attempt =? max_retries then (Finished (Raise exc), st1)
              else (Running (Backoff uid c attempt rest), st1)
            else (Finished (Raise exc), st1)
        end
    end.

(** The next move of a task: its guard and first attempt, an attempt, or a
    back-off. *)
Definition worker_step (total_parts : Z) (start_time : Float.float)
    (w : worker) : state S -> step_result * state S :=
  fun st =>
    match w with
    | Fresh c =>
        match upload_id st with
        | None => (Finished (Raise (RuntimeError "upload_id not set")), st)
        | Some id =>
            worker_try id c total_parts start_time
              (range 1 (max_retries + 1)) st
        end
    | Trying uid c attempts =>
        worker_try uid c total_parts start_time attempts st
    | Backoff uid c attempt rest =>
        match sleep (2 ^ attempt) st with
        | (Ok _, st1) => (Running (Trying uid c rest), st1)
        | (Raise e, st1) => (Finished (Raise e), st1)
        end
    end.

(** [ThreadPoolExecutor(max_workers=4)]: the tasks still in the queue, the
    tasks the workers hold, and the futures that are done, each with the
    chunk it was submitted for. *)
Record pool : Type := {
  queue : list chunk;
  running : list worker;
  finished : list (chunk * outcome (option part))
}.

Definition max_workers : nat := 4.

(** The idle workers take the tasks at the head of the queue. *)
Definition dispatch (p : pool) : pool :=
  let idle := (max_workers - List.length (running p))%nat in
  {| queue := skipn idle (queue p);
     running := running p ++ map Fresh (firstn idle (queue p));
     finished := finished p |}.

Definition set_nth {A} (i : nat) (x : A) (l : list A) : list A :=
  firstn i l ++ x :: skipn (Datatypes.S i) l.

Definition drop_nth {A} (i : nat) (l : list A) : list A :=
  firstn i l ++ skipn (Datatypes.S i) l.

(** The pool at work: the environment picks one of the running tasks, which
    makes its next move; a task that ends leaves its future and frees its
    worker for the next task of the queue.  [fuel] bounds the number of
    moves. *)
Fixpoint run_pool (total_parts : Z) (start_time : Float.float) (fuel : nat)
    (p : pool) (st : state S)
  : list (chunk * outcome (option part)) * state S :=
  match fuel with
  | O => (finished p, st)
  | Datatypes.S fuel' =>
      match running p with
      | [] => (finished p, st)
      | w0 :: _ =>
          let n := List.length (running p) in
          let i := (choose s3 n (remote st) mod n)%nat in
          let w := nth i (running p) w0 in
          let (next, st1) := worker_step total_parts start_time w st in
          let p' :=
            match next with
            | Running w' =>
                {| queue := queue p; running := set_nth i w' (running p);
                   finished := finished p |}
            | Finished r =>
                dispatch {| queue := queue p;
                            running := drop_nth i (running p);
                            finished := finished p ++ [(task w, r)] |}
            end in
          run_pool total_parts start_time fuel' p' st1
      end
  end.

(** A task makes at most [max_retries] attempts and a back-off between two
    of them: that many moves are enough for every task to end. *)
Definition pool_fuel (plan : list chunk) : nat :=
  (List.length plan * (2 * Z.to_nat max_retries + 1))%nat.

(** The [with ThreadPoolExecutor(...)] block: every chunk of the plan is
    submitted, and the block is left when every task has ended. *)
Definition executor (plan : list chunk) (total_parts : Z)
    (start_time : Float.float)
  : M S (list (chunk * outcome (option part))) :=
  fun st =>
    let (futures, st1) :=
      run_pool total_parts start_time (pool_fuel plan)
        (dispatch {| queue := plan; running := []; finished := [] |}) st in
    (Ok futures, st1).

(** [for fut in as_completed(futures): parts.append(fut.result())]: the
    futures come in an order that is the environment's; the first one that
    holds an exception raises it.  [n] is the number of futures. *)
Fixpoint as_completed {A} (n : nat) (futures : list (outcome A))
  : M S (list A) :=
  match n with
  | O => ret []
  | Datatypes.S n' =>
      match futures with
      | [] => ret []
      | f0 :: _ =>
          i <- get (fun st => (choose s3 (List.length futures) (remote st)
                               mod List.length futures)%nat) ;;
          part <- of_outcome (nth i futures f0) ;;
          parts <- as_completed n' (drop_nth i futures) ;;
          ret (part :: parts)
      end
  end.

Fixpoint for_each {A B} (f : A -> M S B) (xs : list A) : M S (list B) :=
  match xs with
  | [] => ret []
  | x :: rest => y <- f x ;; ys <- for_each f rest ;; ret (y :: ys)
  end.

(** [sorted(parts, key=lambda x: x["PartNumber"])]: a stable sort; the key
    of a [None] entry is a [TypeError]. *)
Fixpoint insert_part (p : part) (sorted : list part) : list part :=
  match sorted with
  | [] => [p]
  | q :: rest =>
      if PartNumber p <=? PartNumber q then p :: q :: rest
      else q :: insert_part p rest
  end.

Definition sort_parts (parts : list part) : list part :=
  fold_right insert_part [] parts.

Definition sorted_by_PartNumber (parts : list (option part))
  : M S (list part) :=
  keyed <- for_each (fun p => match p with
                              | Some x => ret x
                              | None => raise TypeError
                              end) parts ;;
  ret (sort_parts keyed).

(** [str(n)] for the message of the recount error *)
Definition str (n : Z) : string := DecimalString.NilZero.string_of_int (Z.to_int n).

(** The body of the [try] block of [upload]. *)
Definition upload_body (file_size total completion : Z)
    (start_time : Float.float) : M S unit :=
  futures <- executor (chunk_plan file_size part_size total) total
               start_time ;;
  parts <- as_completed (List.length futures) (map snd futures) ;;
  seen <- call_with_524_retry fetch_parts ;;
  len_seen <- match seen with
              | Some found => ret (Z.of_nat (List.length found))
              | None => raise TypeError
              end ;;
  if negb (len_seen =? total)
  then raise (RuntimeError ("Expected " ++ str total ++ " parts but saw "
                            ++ str len_seen)%string)
  else
    parts_sorted <- sorted_by_PartNumber parts ;;
    complete_with_timeout_retry parts_sorted completion file_size ;;
    cfg <- get (@s3_config S) ;;
    head <- call_with_524_retry (head_object cfg) ;;
    uploaded_size <- ContentLength head ;;
    if negb (size_eqb uploaded_size file_size)
    then raise (RuntimeError
                  "Multipart upload verification failed: size mismatch")
    else ret tt.

(** The [except Exception] clause of [upload]: report and re-raise.
    [if self.upload_id:] is false for [None] and for the empty string. *)
Definition report_failure (exc : exn) : M S unit :=
  modify (add_log (Upload_interrupted exc)) ;;
  uid <- get (@upload_id S) ;;
  match uid with
  | Some id =>
      if String.eqb id EmptyString then ret tt
      else modify (add_log (UploadId_left_open id))
  | None => ret tt
  end ;;
  raise exc.

(** [upload] *)
Definition upload : M S unit :=
  let file_size := getsize in
  total <- of_outcome (total_parts file_size part_size) ;;
  start_time <- get (fun st => time_time s3 (remote st)) ;;
  completion <- of_outcome (completion_timeout file_size) ;;
  resp <- call_with_524_retry create_multipart_upload ;;
  id <- match resp with
        | Some id => ret id
        | None => raise TypeError
        end ;;
  modify (set_upload_id (Some id)) ;;
  try (upload_body file_size total completion start_time)
  except report_failure.

End Uploader.

(** ** A scripted store, to run the methods on concrete scenarios *)

Module Scripted.

(** The answers still to be given by each call, in order. *)
Record script : Type := {
  creates : list (outcome string);
  uploads : list (outcome string);
  lists : list (outcome (list part));
  completes : list (outcome unit);
  heads : list (outcome (option Z))
}.

Definition off_script {A} : outcome A := Raise (OtherException "off script").

Definition next {A} (answers : list (outcome A))
  : outcome A * list (outcome A) :=
  match answers with
  | [] => (off_script, [])
  | r :: rest => (r, rest)
  end.

(** The scripted store in front of a scheduler [pick]; its clock stands
    still and [time.gmtime] accepts every time left. *)
Definition client_choosing (pick : nat -> script -> nat) : S3 script := {|
  s3_create_multipart_upload := fun _ s =>
    let (r, rest) := next (creates s) in
    (r, {| creates := rest; uploads := uploads s; lists := lists s;
           completes := completes s; heads := heads s |});
  s3_upload_part := fun _ _ _ _ _ s =>
    let (r, rest) := next (uploads s) in
    (r, {| creates := creates s; uploads := rest; lists := lists s;
           completes := completes s; heads := heads s |});
  s3_list_parts := fun _ _ s =>
    let (r, rest) := next (lists s) in
    (r, {| creates := creates s; uploads := uploads s; lists := rest;
           completes := completes s; heads := heads s |});
  s3_complete_multipart_upload := fun _ _ _ s =>
    let (r, rest) := next (completes s) in
    (r, {| creates := creates s; uploads := uploads s; lists := lists s;
           completes := rest; heads := heads s |});
  s3_head_object := fun _ s =>
    let (r, rest) := next (heads s) in
    (r, {| creates := creates s; uploads := uploads s; lists := lists s;
           completes := completes s; heads := rest |});
  elapse := fun _ s => s;
  choose := pick;
  time_time := fun _ => Float.zero;
  gmtime_refuses := fun _ _ _ => None
|}.

(** The scheduler that always picks the first alternative: the tasks run
    one after another, in submission order. *)
Definition client : S3 script := client_choosing (fun _ _ => 0%nat).

(** A fresh uploader, as [__init__] leaves it, in front of [s]. *)
Definition fresh (s : script) : state script :=
  {| upload_id := None; parts_completed := 0; s3_config := None;
     remote := s; trace := []; log := [] |}.

(** An uploader whose session [id] is open. *)
Definition opened (id : string) (s : script) : state script :=
  set_upload_id (Some id) (fresh s).

End Scripted.

(** ** Properties of plans and traces that the theorems speak about *)

(** ** Observations *)

Definition is_sleep (ev : event) : bool :=
  match ev with Sleep _ => true | _ => false end.

Definition is_complete (ev : event) : bool :=
  match ev with CompleteMultipartUpload _ _ _ _ => true | _ => false end.

Definition is_head (ev : event) : bool :=
  match ev with HeadObject _ _ => true | _ => false end.

Definition is_abort (ev : event) : bool :=
  match ev with AbortMultipartUpload _ => true | _ => false end.

(** The timeouts and the outcomes of the complete requests, in order. *)
Definition complete_timeouts (evs : list event) : list Z :=
  flat_map (fun ev => match ev with
                      | CompleteMultipartUpload tm _ _ _ => [tm]
                      | _ => []
                      end) evs.

Definition complete_outcomes (evs : list event) : list (outcome unit) :=
  flat_map (fun ev => match ev with
                      | CompleteMultipartUpload _ _ _ r => [r]
                      | _ => []
                      end) evs.

(** [ev] shows the merged object: a complete request went through, or a
    poll reported the expected size. *)
Definition event_confirms (expected_size : Z) (ev : event) : bool :=
  match ev with
  | CompleteMultipartUpload _ _ _ (Ok _) => true
  | HeadObject _ (Ok uploaded_size) => size_eqb uploaded_size expected_size
  | _ => false
  end.

(** [st'] is [st] after the observations [evs]; the session identifier and
    the log are as they were. *)
Definition extends {S} (st st' : state S) (evs : list event) : Prop :=
  trace st' = trace st ++ evs /\
  log st' = log st /\
  upload_id st' = upload_id st.

Definition is_upload_part (ev : event) : bool :=
  match ev with UploadPart _ _ _ _ _ => true | _ => false end.

Definition is_list_parts (ev : event) : bool :=
  match ev with ListParts _ _ => true | _ => false end.

Definition is_create (ev : event) : bool :=
  match ev with CreateMultipartUpload _ => true | _ => false end.

(** The verdict of a poll: [head.get("ContentLength") == expected_size]. *)
Definition poll_confirms (poll : outcome (option (option Z)))
    (expected_size : Z) : bool :=
  match poll with
  | Ok (Some uploaded_size) => size_eqb uploaded_size expected_size
  | _ => false
  end.

(** The error of the last complete request, when it failed. *)
Definition last_complete_error (evs : list event) : option exn :=
  match last (complete_outcomes evs) (Ok tt) with
  | Raise e => Some e
  | Ok _ => None
  end.

(** A retried function that is one call on the client, observed with its
    outcome by [mk]. *)
Definition one_call {S A} (func : M S A) (mk : outcome A -> event) : Prop :=
  forall st r st', func st = (r, st') -> exists s, st' = observe s (mk r) st.

(** What the [try] block of [upload] guarantees about its observations
    [evs] and its outcome [r], for the session [id]:
    - it neither creates nor aborts a session;
    - the complete requests carry the timeouts [completion * 2^n];
    - a complete request is preceded by a recount of exactly [total] parts;
    - a recount of another length ends in an error, without complete request;
    - it returns only after a final head request that reports [file_size]. *)
Definition body_post (id : string) (total completion file_size : Z)
    (r : outcome unit) (evs : list event) : Prop :=
  Forall (fun ev => is_abort ev = false /\ is_create ev = false) evs /\
  (forall n tm, nth_error (complete_timeouts evs) n = Some tm ->
                tm = completion * 2 ^ Z.of_nat n) /\
  ((exists ev, In ev evs /\ is_complete ev = true) ->
   exists found, In (ListParts id (Ok found)) evs /\
                 Z.of_nat (List.length found) = total) /\
  (forall u found, In (ListParts u (Ok found)) evs ->
     Z.of_nat (List.length found) <> total ->
     is_ok r = false /\ Forall (fun ev => is_complete ev = false) evs) /\
  (r = Ok tt ->
   exists pre cfg, evs = pre ++ [HeadObject cfg (Ok (Some file_size))]).

(** The failure report of the driver for the session [id]. *)
Definition failure_report (id : string) (r : outcome unit) : list log_line :=
  match r with
  | Ok _ => []
  | Raise e =>
      Upload_interrupted e ::
      (if String.eqb id EmptyString then [] else [UploadId_left_open id])
  end.

(** [plan] tiles the byte range [[lo, hi)]: each chunk starts where the
    previous one ends, none is empty, the last one ends at [hi]. *)
Fixpoint covers (plan : list chunk) (lo hi : Z) : Prop :=
  match plan with
  | [] => lo = hi
  | c :: rest =>
      offset c = lo /\ 0 < bytes_to_read c /\
      covers rest (lo + bytes_to_read c) hi
  end.

(** The planner computes [ceil(file_size / part_size)] parts that tile the
    file. *)
Definition plan_is_exact (file_size part_size : Z) : Prop :=
  total_parts file_size part_size = Ok (ceil_div file_size part_size) /\
  covers (chunk_plan file_size part_size (ceil_div file_size part_size))
    0 file_size.

(** The first completion timeout is [max(60, 5 * ceil(file_size / 2^30))]. *)
Definition timeout_floor_is_exact (file_size : Z) : Prop :=
  completion_timeout file_size
  = Ok (Z.max 60 (5 * ceil_div file_size (2 ^ 30))).

(** A call answered with [NoSuchUpload]. *)
Definition reports_missing_session (ev : event) : bool :=
  match ev with
  | CompleteMultipartUpload _ _ _ (Raise e) => is_no_such_upload_error e
  | HeadObject _ (Raise e) => is_no_such_upload_error e
  | _ => false
  end.

(** Whenever a complete request or a poll reports the session missing, the
    very next observation is a poll: nothing is waited in between. *)
Definition polls_right_after_missing_session (evs : list event) : Prop :=
  forall pre ev post,
    evs = pre ++ ev :: post ->
    reports_missing_session ev = true ->
    exists cfg r more, post = HeadObject cfg r :: more.

(** A run of the coordinator on [st] that ends without success (no complete
    request went through, no poll reported the expected size) raises the
    last error of a complete request, or the generic error when there is
    none. *)
Definition raises_on_exhaustion {S} (s3 : S3 S) (max_retries : Z)
    (parts : list part) (initial_timeout expected_size : Z) (st : state S)
  : Prop :=
  forall r st' evs,
    complete_with_timeout_retry s3 max_retries parts initial_timeout
      expected_size st = (r, st') ->
    trace st' = trace st ++ evs ->
    Forall (fun ev => event_confirms expected_size ev = false) evs ->
    r = Raise (exhausted (last_complete_error evs)).

(** A non-positive part size is turned down before the store is touched:
    [upload] raises and leaves everything as it was. *)
Definition rejected_before_any_call (part_size : Z) : Prop :=
  forall (S : Type) (s3 : S3 S) (max_retries getsize : Z) (st : state S),
    exists e, upload s3 part_size max_retries getsize st = (Raise e, st).

(** Scenarios on the scripted store. *)
Module Scenario.
Import Scripted.

Definition timeout_error : exn := ReadTimeoutError "Read timeout on endpoint URL".

Definition missing_session : exn := ClientError (Some 404) (Some "NoSuchUpload").

Definition storage_full : exn := ClientError (Some 507) None.

(** The object of 100 bytes is there. *)
Definition merged : script :=
  {| creates := []; uploads := []; lists := []; completes := [];
     heads := [Ok (Some 100)] |}.

(** The complete request times out once; the poll then reports 100 bytes. *)
Definition merged_behind_timeout : script :=
  {| creates := []; uploads := []; lists := [];
     completes := [Raise timeout_error];
     heads := [Ok (Some 100)] |}.

(** The complete request times out twice; the first poll reports the
    session missing, the second a size of 0. *)
Definition poll_reports_missing_session : script :=
  {| creates := []; uploads := []; lists := [];
     completes := [Raise timeout_error; Raise timeout_error];
     heads := [Raise missing_session; Ok (Some 0)] |}.

(** The complete request reports the session missing; the poll reports
    100 bytes. *)
Definition complete_reports_missing_session : script :=
  {| creates := []; uploads := []; lists := [];
     completes := [Raise missing_session];
     heads := [Ok (Some 100)] |}.

(** Every complete request times out and every poll reports 0 bytes. *)
Definition never_merged : script :=
  {| creates := []; uploads := []; lists := [];
     completes := [Raise timeout_error; Raise timeout_error;
                   Raise timeout_error];
     heads := [Ok (Some 0); Ok (Some 0); Ok (Some 0)] |}.

(** The store is full. *)
Definition full : script :=
  {| creates := []; uploads := [Raise storage_full; Ok "etag"]; lists := [];
     completes := []; heads := [] |}.

Definition three_parts : list part :=
  [ {| PartNumber := 1; ETag := "e1" |}; {| PartNumber := 2; ETag := "e2" |};
    {| PartNumber := 3; ETag := "e3" |} ].

(** A 101 MiB file in parts of 50 MiB: everything goes through, the merge
    on the second complete request. *)
Definition MiB : Z := 1024 * 1024.

Definition happy : script :=
  {| creates := [Ok "upload-1"];
     uploads := [Ok "e1"; Ok "e2"; Ok "e3"];
     lists := [Ok three_parts];
     completes := [Raise timeout_error; Ok tt];
     heads := [Ok (Some 0); Ok (Some (101 * MiB))] |}.

(** The same upload, but the recount sees two parts only. *)
Definition short_recount : script :=
  {| creates := [Ok "upload-1"];
     uploads := [Ok "e1"; Ok "e2"; Ok "e3"];
     lists := [Ok [ {| PartNumber := 1; ETag := "e1" |};
                    {| PartNumber := 2; ETag := "e2" |} ]];
     completes := []; heads := [] |}.

(** A session is created; the recount finds nothing. *)
Definition empty_session : script :=
  {| creates := [Ok "upload-1"]; uploads := []; lists := [Ok []];
     completes := []; heads := [] |}.

End Scenario.

(** ** Predicates for the further properties of the methods *)

(** The errors [call_with_524_retry] retries: a 524 answer or a client
    timeout. *)
Definition retried_by_wrapper (e : exn) : bool :=
  is_524_error e || isinstance_timeout e.

(** The errors [upload_part] retries: any botocore error but a 507. *)
Definition retried_by_upload_part (e : exn) : bool :=
  isinstance_boto e && negb (is_insufficient_storage_error e).

(** [o] is a failure that [retried] lets the loop retry. *)
Definition retried_failure {A} (retried : exn -> bool) (o : outcome A) : Prop :=
  match o with
  | Raise e => retried e = true
  | Ok _ => False
  end.

(** What a retry loop observes when its calls, from the iteration [attempt]
    on, have the outcomes [outcomes]: the calls, with a back-off of
    [2^attempt] seconds after each one but the last. *)
Fixpoint retry_trace {A} (mk : outcome A -> event) (attempt : Z)
    (outcomes : list (outcome A)) : list event :=
  match outcomes with
  | [] => []
  | o :: rest =>
      match rest with
      | [] => [mk o]
      | _ :: _ => mk o :: Sleep (2 ^ attempt) :: retry_trace mk (attempt + 1) rest
      end
  end.

(** The outcome of the last call, if any. *)
Fixpoint last_outcome {A} (outcomes : list (outcome A)) : option (outcome A) :=
  match outcomes with
  | [] => None
  | o :: rest =>
      match rest with
      | [] => Some o
      | _ :: _ => last_outcome rest
      end
  end.

(** The seconds slept, in order, and their sum. *)
Definition sleeps (evs : list event) : list Z :=
  flat_map (fun ev => match ev with Sleep secs => [secs] | _ => [] end) evs.

Definition total_sleep (evs : list event) : Z :=
  fold_right Z.add 0 (sleeps evs).

(** The parts the store acknowledged: the upload requests that went
    through, with the ETag of the answer. *)
Definition acks (evs : list event) : list part :=
  flat_map (fun ev => match ev with
                      | UploadPart n _ _ _ (Ok etag) =>
                          [{| PartNumber := n; ETag := etag |}]
                      | _ => []
                      end) evs.

(** [ev] is an upload request of the session [id] for a chunk of the plan
    of [total] parts. *)
Definition planned_upload (file_size part_size total : Z) (id : string)
    (ev : event) : Prop :=
  match ev with
  | UploadPart n uid off len _ =>
      uid = id /\ 1 <= n <= total /\
      off = offset (plan_chunk file_size part_size n) /\
      len = bytes_to_read (plan_chunk file_size part_size n)
  | Sleep _ => True
  | _ => False
  end.

(** Further scenarios on the scripted store. *)
Module Scenario2.
Import Scripted.

Definition gateway_timeout : exn := ClientError (Some 524) None.

Definition server_error : exn := ClientError (Some 500) (Some "InternalError").

(** Head requests that never get through the gateway. *)
Definition gateway_down : script :=
  {| creates := []; uploads := []; lists := []; completes := [];
     heads := [Raise gateway_timeout; Raise gateway_timeout;
               Raise gateway_timeout; Raise gateway_timeout] |}.

(** Part uploads that fail twice before they go through. *)
Definition flaky_uploads : script :=
  {| creates := []; uploads := [Raise server_error; Raise gateway_timeout;
                                Ok "etag-1"];
     lists := []; completes := []; heads := [] |}.

(** A complete request refused with a server error, then accepted. *)
Definition refused_once : script :=
  {| creates := []; uploads := []; lists := [];
     completes := [Raise server_error; Ok tt];
     heads := [Ok (Some 0)] |}.

(** An empty file: a session, no part, an empty object. *)
Definition empty_file : script :=
  {| creates := [Ok "upload-1"]; uploads := []; lists := [Ok []];
     completes := [Ok tt]; heads := [Ok (Some 0)] |}.

(** The session cannot be created. *)
Definition no_session : script :=
  {| creates := [Raise server_error]; uploads := []; lists := [];
     completes := []; heads := [] |}.

(** A scheduler that does not follow the submission order: the choice
    moves with the number of answers the store has left. *)
Definition out_of_order : S3 script :=
  client_choosing (fun _ s => Datatypes.S (List.length (uploads s))).

End Scenario2.

(** Every head request goes through the handle built for the latest
    complete request ([current] before the first one). *)
Fixpoint polls_use_latest_handle (current : client_config)
    (evs : list event) : Prop :=
  match evs with
  | [] => True
  | CompleteMultipartUpload tm _ _ _ :: rest =>
      polls_use_latest_handle (Some tm) rest
  | HeadObject cfg _ :: rest =>
      cfg = current /\ polls_use_latest_handle current rest
  | _ :: rest => polls_use_latest_handle current rest
  end.

(** The handle after the observations [evs], starting from [current]. *)
Definition latest_handle (current : client_config) (evs : list event)
  : client_config :=
  match rev (complete_timeouts evs) with
  | tm :: _ => Some tm
  | [] => current
  end.

(** What each phase of the driver may observe, back-offs apart. *)
Definition create_phase (ev : event) : Prop :=
  is_sleep ev = true \/ is_create ev = true.

Definition upload_phase (ev : event) : Prop :=
  is_sleep ev = true \/ is_upload_part ev = true.

Definition recount_phase (ev : event) : Prop :=
  is_sleep ev = true \/ is_list_parts ev = true.

Definition completion_phase (ev : event) : Prop :=
  is_sleep ev = true \/ is_complete ev = true \/ is_head ev = true.

(** The exceptions the progress report of [upload_part] can raise. *)
Definition raised_by_report (e : exn) : bool :=
  match e with
  | ZeroDivisionError | OverflowError | OSError => true
  | _ => false
  end.

(** [ev] is a back-off, or an upload request of the session [id] for the
    chunk [c]. *)
Definition task_event (id : string) (c : chunk) (ev : event) : Prop :=
  match ev with
  | Sleep _ => True
  | UploadPart n uid off len _ =>
      uid = id /\ n = part_number c /\ off = offset c /\
      len = bytes_to_read c
  | _ => False
  end.

(** An upload request for the chunk [c] was observed. *)
Definition has_request (id : string) (c : chunk) (evs : list event) : Prop :=
  exists r, In (UploadPart (part_number c) id (offset c) (bytes_to_read c) r)
              evs.

Definition is_backoff (w : worker) : bool :=
  match w with
  | Backoff _ _ _ _ => true
  | _ => false
  end.

(** A task of the session [id] in the middle of its loop. *)
Definition worker_ok (max_retries : Z) (id : string) (w : worker) : Prop :=
  match w with
  | Fresh _ => True
  | Trying uid _ attempts =>
      uid = id /\ attempts <> [] /\
      exists a, attempts = range a (max_retries + 1)
  | Backoff uid _ attempt rest =>
      uid = id /\ attempt < max_retries /\
      rest = range (attempt + 1) (max_retries + 1)
  end.

(** A bound on the moves a task has left. *)
Definition moves (max_retries : Z) (w : worker) : nat :=
  match w with
  | Fresh _ => 2 * Z.to_nat max_retries + 1
  | Trying _ _ attempts => 2 * List.length attempts + 1
  | Backoff _ _ _ rest => 2 * List.length rest + 2
  end.

Definition pool_moves (max_retries : Z) (p : pool) : nat :=
  list_sum (map (moves max_retries) (running p)) +
  List.length (queue p) * (2 * Z.to_nat max_retries + 1).

(** No worker is idle while a task waits in the queue. *)
Definition dispatched (p : pool) : Prop := running p = [] -> queue p = [].

(** The parts the futures hold. *)
Definition held (futures : list (chunk * outcome (option part)))
  : list part :=
  flat_map (fun f => match snd f with
                     | Ok (Some p) => [p]
                     | _ => []
                     end) futures.

Definition all_held (futures : list (chunk * outcome (option part)))
  : Prop :=
  Forall (fun f => exists p, snd f = Ok (Some p)) futures.

(** Ascending, possibly with repetitions. *)
Fixpoint ascending (l : list Z) : Prop :=
  match l with
  | [] => True
  | x :: rest =>
      (forall y, In y rest -> x <= y) /\ ascending rest
  end.

(** The chunks of the tasks that have not ended. *)
Definition tasks_of (p : pool) : list chunk :=
  map task (running p) ++ queue p.
Example total_parts_101MiB :
  total_parts (101 * 1024 * 1024) (50 * 1024 * 1024) = Ok 3.
Proof. vm_compute. reflexivity. Qed.

Example chunk_plan_101MiB :
  map bytes_to_read (chunk_plan (101 * 1024 * 1024) (50 * 1024 * 1024) 3)
  = [50 * 1024 * 1024; 50 * 1024 * 1024; 1 * 1024 * 1024].
Proof. vm_compute. reflexivity. Qed.

(** The rounding model agrees with the library's IEEE 754 division. *)
Example int_truediv_agrees_with_spec :
  forallb (fun ab : Z * Z =>
    match Float.int_truediv (fst ab) (snd ab),
          Float.of_spec (Float.spec_div (fst ab) (snd ab)) with
    | Ok x, Some y => Float.same_value x y
    | _, _ => false
    end)
  [(1, 3); (2, 3); (10, 4); (7, 7); (0, 5); (1, 1); (105906176, 52428800);
   (2 ^ 53 - 1, 3); (2 ^ 53 - 1, 2 ^ 53 - 2); (1, 2 ^ 53 - 1);
   (2 ^ 52 + 1, 2); (2 ^ 52 + 3, 2); (123456789123, 1000000007);
   (5, 2 ^ 40); (2 ^ 53 - 1, 1); (3 * 2 ^ 50 + 1, 3)] = true.
Proof. vm_compute. reflexivity. Qed.

Example of_int_agrees_with_spec :
  forallb (fun n : Z =>
    match Float.of_int n, Float.of_spec (Float.spec_of_int n) with
    | Ok x, Some y => Float.same_value x y
    | _, _ => false
    end)
  [0; 1; 2 ^ 30; 2 ^ 53 - 1; 2 ^ 53; 2 ^ 53 + 1; 2 ^ 53 + 2; 2 ^ 53 + 3;
   2 ^ 54 + 2; 2 ^ 54 + 6; 2 ^ 62 + 2 ^ 9; 2 ^ 63 - 1;
   14073748835532801] = true.
Proof. vm_compute. reflexivity. Qed.


(** Past [2^53] the library division rounds its operands first; on the
    operands below both ways give [2^28]. *)
Example int_truediv_beyond_2_53 :
  match Float.int_truediv 14073748835532801 52428800,
        Float.of_spec (Float.spec_div 14073748835532801 52428800) with
  | Ok x, Some y => Float.same_value x y && (Float.ceil x =? 2 ^ 28)
  | _, _ => false
  end = true.
Proof. vm_compute. reflexivity. Qed.

Example happy_upload_runs :
  let run := upload Scripted.client (50 * Scenario.MiB) 5 (101 * Scenario.MiB)
               (Scripted.fresh Scenario.happy) in
  fst run = Ok tt /\
  complete_timeouts (trace (snd run)) = [60; 120] /\
  log (snd run) = [].
Proof. vm_compute. auto. Qed.
(** ** Facts on the rounding model *)

Lemma ceil_div_unique (a b c : Z) :
  0 < b -> (c - 1) * b < a <= c * b -> ceil_div a b = c.
Proof.
  intros Hb [Hlo Hhi]. unfold ceil_div.
  assert (H : (- a) / b = - c); [| lia].
  symmetry. apply Z.div_unique with (r := c * b - a); lia.
Qed.

Lemma ceil_div_bounds (a b : Z) :
  0 < b -> (ceil_div a b - 1) * b < a <= ceil_div a b * b.
Proof.
  intros Hb. unfold ceil_div.
  pose proof (Z.div_mod (- a) b ltac:(lia)) as Hdm.
  pose proof (Z.mod_pos_bound (- a) b Hb) as Hr.
  nia.
Qed.

Lemma div_lt_iff (x y c : Z) : 0 < y -> (x / y < c <-> x < c * y).
Proof.
  intros Hy. pose proof (Z.div_mod x y ltac:(lia)) as Hdm.
  pose proof (Z.mod_pos_bound x y Hy) as Hr. split; intros H; nia.
Qed.

Module FloatFacts.
Import Float.

(** For a dividend below [2^53] and a divisor below [2^1022] the quotient
    is normal:
    scaled by [2^k], [k = - ulp_exp a b], it lies in [[2^52, 2^53)]. *)
Lemma ulp_exp_normal (a b : Z) :
  0 < a < 2 ^ 53 -> 0 < b < 2 ^ 1022 ->
  exists k, ulp_exp a b = - k /\ 0 <= k /\
            2 ^ 52 * b <= a * 2 ^ k < 2 ^ 53 * b.
Proof.
  intros Ha Hb.
  destruct (Z.log2_spec a ltac:(lia)) as [Hla1 Hla2].
  destruct (Z.log2_spec b ltac:(lia)) as [Hlb1 Hlb2].
  assert (Hla : 0 <= Z.log2 a < 53).
  { split; [apply Z.log2_nonneg | apply Z.log2_lt_pow2; lia]. }
  assert (Hlb : 0 <= Z.log2 b < 1022).
  { split; [apply Z.log2_nonneg | apply Z.log2_lt_pow2; lia]. }
  unfold ulp_exp.
  set (la := Z.log2 a) in *. set (lb := Z.log2 b) in *.
  set (e0 := la - lb - 52).
  assert (He0 : e0 <= 0) by (unfold e0; lia).
  assert (Hnum : scaled_num a e0 = a * 2 ^ (- e0)).
  { unfold scaled_num. rewrite Z.max_r by lia. reflexivity. }
  assert (Hden : scaled_den b e0 = b).
  { unfold scaled_den. rewrite Z.max_l by lia. simpl. lia. }
  rewrite Hnum, Hden.
  assert (HP : 2 ^ la * 2 ^ (- e0) = 2 ^ lb * 2 ^ 52).
  { rewrite <- !Z.pow_add_r by lia. f_equal. unfold e0. lia. }
  assert (Hsucc_a : 2 ^ Z.succ la = 2 * 2 ^ la) by (apply Z.pow_succ_r; lia).
  assert (Hsucc_b : 2 ^ Z.succ lb = 2 * 2 ^ lb) by (apply Z.pow_succ_r; lia).
  assert (HPpos : 0 < 2 ^ (- e0)) by (apply Z.pow_pos_nonneg; lia).
  assert (HApos : 0 < 2 ^ la) by (apply Z.pow_pos_nonneg; lia).
  assert (HBpos : 0 < 2 ^ lb) by (apply Z.pow_pos_nonneg; lia).
  set (P := 2 ^ (- e0)) in *. set (A := 2 ^ la) in *. set (B := 2 ^ lb) in *.
  assert (Hlow : B * 2 ^ 52 <= a * P) by nia.
  assert (Hupp : a * P < 2 * (B * 2 ^ 52)) by nia.
  destruct (Z.ltb_spec (a * P / b) (2 ^ 52)) as [Hq | Hq].
  - exists (1 - e0). split; [rewrite Z.max_l by (unfold e0; lia); lia |].
    split; [lia |].
    apply div_lt_iff in Hq; [| lia].
    replace (2 ^ (1 - e0)) with (2 * P).
    2:{ unfold P. replace (1 - e0) with (Z.succ (- e0)) by lia.
        rewrite Z.pow_succ_r by lia. reflexivity. }
    split; [| lia].
    change (2 ^ 52) with 4503599627370496 in *. nia.
  - exists (- e0). split; [rewrite Z.max_l by (unfold e0; lia); lia |].
    split; [lia |]. fold P.
    assert (~ a * P / b < 2 ^ 52) as Hn by lia.
    rewrite div_lt_iff in Hn by lia.
    change (2 ^ 52) with 4503599627370496 in *.
    change (2 ^ 53) with 9007199254740992 in *. nia.
Qed.

(** Rounding a normal quotient never crosses an integer: the rounded value,
    still scaled by [2^k], stays in the same unit interval [(c-1, c]]. *)
Lemma round_half_even_same_ceiling (a b P c : Z) :
  0 < a < 2 ^ 53 -> 0 < b -> 1 <= P ->
  2 ^ 52 * b <= a * P ->
  (c - 1) * b < a <= c * b ->
  (c - 1) * P < round_half_even (a * P) b <= c * P.
Proof.
  intros Ha Hb HP Hnorm [Hlo Hhi].
  unfold round_half_even.
  pose proof (Z.div_mod (a * P) b ltac:(lia)) as Hdm.
  pose proof (Z.mod_pos_bound (a * P) b Hb) as Hr.
  set (q := a * P / b) in *. set (r := (a * P) mod b) in *.
  change (2 ^ 52) with 4503599627370496 in *.
  change (2 ^ 53) with 9007199254740992 in *.
  assert (Hq_lo : (c - 1) * P <= q) by nia.
  assert (Hq_hi : q <= c * P) by nia.
  assert (Hq_top : q = c * P -> r = 0) by nia.
  assert (Hq_bot : q = (c - 1) * P -> b < 2 * r).
  { intros Hq.
    assert (Hr' : r = (a - (c - 1) * b) * P) by nia.
    assert (Hs : 1 <= a - (c - 1) * b) by lia.
    assert (HbP : b < 2 * P) by nia.
    nia. }
  destruct (Z.ltb_spec (2 * r) b) as [H1 | H1].
  - split; [| lia].
    destruct (Z.eq_dec q ((c - 1) * P)) as [E | E]; [specialize (Hq_bot E) |]; lia.
  - assert (Hq_ne : q <> c * P) by (intros E; specialize (Hq_top E); lia).
    destruct (Z.ltb_spec b (2 * r)); [lia |].
    destruct (Z.even q); [| lia].
    split; [| lia].
    destruct (Z.eq_dec q ((c - 1) * P)) as [E | E]; [specialize (Hq_bot E) |]; lia.
Qed.

Lemma round_half_even_le (num den : Z) :
  0 < den -> round_half_even num den <= num / den + 1.
Proof.
  intros Hden. unfold round_half_even.
  destruct (2 * (num mod den) <? den); [lia |].
  destruct (den <? 2 * (num mod den)); [lia |].
  destruct (Z.even (num / den)); lia.
Qed.

Lemma ceil_nonneg_scaled (m k : Z) :
  0 <= k -> ceil {| neg := false; mant := m; exp := - k |} = ceil_div m (2 ^ k).
Proof.
  intros Hk. unfold ceil, ceil_div. cbn [exp neg mant].
  destruct (Z.leb_spec 0 (- k)) as [H | H].
  - assert (k = 0) by lia. subst k. simpl. rewrite Z.div_1_r. lia.
  - rewrite Z.opp_involutive. reflexivity.
Qed.

(** In that range the float quotient has the exact ceiling. *)
Lemma ceil_int_truediv_exact (a b : Z) :
  0 <= a < 2 ^ 53 -> 0 < b < 2 ^ 1022 ->
  exists q, int_truediv a b = Ok q /\ ceil q = ceil_div a b.
Proof.
  intros Ha Hb. unfold int_truediv.
  destruct (Z.eqb_spec b 0) as [| _]; [lia |].
  rewrite (Z.abs_eq a), (Z.abs_eq b) by lia.
  replace (a <? 0) with false by (symmetry; apply Z.ltb_ge; lia).
  replace (b <? 0) with false by (symmetry; apply Z.ltb_ge; lia).
  cbn [xorb]. unfold round_to_double.
  destruct (Z.eqb_spec a 0) as [-> | Hnz].
  - eexists; split; reflexivity.
  - destruct (@ulp_exp_normal a b ltac:(lia) Hb) as (k & -> & Hk & Hnorm).
    unfold scaled_num, scaled_den.
    rewrite Z.opp_involutive, (Z.max_r 0 k), (Z.max_l 0 (- k)) by lia.
    rewrite Z.pow_0_r, !Z.mul_1_r.
    assert (HP : 1 <= 2 ^ k).
    { pose proof (Z.pow_pos_nonneg 2 k ltac:(lia) Hk). lia. }
    pose proof (@ceil_div_bounds a b ltac:(lia)) as Hc.
    pose proof (@round_half_even_same_ceiling a b (2 ^ k) (ceil_div a b)
                  ltac:(lia) ltac:(lia) HP ltac:(lia) Hc) as Hm.
    pose proof (@round_half_even_le (a * 2 ^ k) b ltac:(lia)) as Hle.
    assert (Hq : a * 2 ^ k / b < 2 ^ 53) by (apply div_lt_iff; lia).
    set (m := round_half_even (a * 2 ^ k) b) in *.
    destruct (Z.leb_spec (2 ^ 1024) m) as [Hover | _].
    + exfalso.
      assert (2 ^ 53 < 2 ^ 1024) by (apply Z.pow_lt_mono_r; lia). lia.
    + eexists; split; [reflexivity |].
      rewrite ceil_nonneg_scaled by lia.
      apply ceil_div_unique; [lia | exact Hm].
Qed.

(** Below [2^53] the conversion [float(n)] is exact. *)
Lemma of_int_exact (n : Z) :
  0 <= n < 2 ^ 53 ->
  exists k, 0 <= k /\
    of_int n = Ok {| neg := false; mant := n * 2 ^ k; exp := - k |}.
Proof.
  intros Hn. unfold of_int.
  rewrite (Z.abs_eq n) by lia.
  replace (n <? 0) with false by (symmetry; apply Z.ltb_ge; lia).
  unfold round_to_double.
  destruct (Z.eqb_spec n 0) as [-> | Hnz].
  - exists 0. split; [lia | reflexivity].
  - destruct (@ulp_exp_normal n 1 ltac:(lia) ltac:(lia)) as (k & -> & Hk & Hnorm).
    unfold scaled_num, scaled_den.
    rewrite Z.opp_involutive, (Z.max_r 0 k), (Z.max_l 0 (- k)) by lia.
    rewrite Z.pow_0_r, !Z.mul_1_r.
    assert (Hr : round_half_even (n * 2 ^ k) 1 = n * 2 ^ k).
    { unfold round_half_even. rewrite Z.mod_1_r, Z.div_1_r. reflexivity. }
    rewrite Hr.
    destruct (Z.leb_spec (2 ^ 1024) (n * 2 ^ k)) as [Hover | _].
    + exfalso. assert (n * 2 ^ k < 2 ^ 53 * 1) by lia.
      assert (2 ^ 53 < 2 ^ 1024) by (apply Z.pow_lt_mono_r; lia). lia.
    + exists k. split; [lia | reflexivity].
Qed.

(** For a dividend below [2^53] and any divisor the quotient, scaled by
    the exponent of its last place, stays below [2^53]. *)
Lemma ulp_exp_upper (a b : Z) :
  0 < a < 2 ^ 53 -> 0 < b ->
  exists k, ulp_exp a b = - k /\ 0 <= k /\ a * 2 ^ k < 2 ^ 53 * b.
Proof.
  intros Ha Hb.
  destruct (Z.log2_spec a ltac:(lia)) as [Hla1 Hla2].
  destruct (Z.log2_spec b ltac:(lia)) as [Hlb1 Hlb2].
  assert (Hla : 0 <= Z.log2 a < 53).
  { split; [apply Z.log2_nonneg | apply Z.log2_lt_pow2; lia]. }
  assert (Hlb : 0 <= Z.log2 b) by apply Z.log2_nonneg.
  unfold ulp_exp.
  set (la := Z.log2 a) in *. set (lb := Z.log2 b) in *.
  set (e0 := la - lb - 52).
  assert (He0 : e0 <= 0) by (unfold e0; lia).
  assert (Hnum : scaled_num a e0 = a * 2 ^ (- e0)).
  { unfold scaled_num. rewrite Z.max_r by lia. reflexivity. }
  assert (Hden : scaled_den b e0 = b).
  { unfold scaled_den. rewrite Z.max_l by lia. simpl. lia. }
  rewrite Hnum, Hden.
  assert (HP : 2 ^ la * 2 ^ (- e0) = 2 ^ lb * 2 ^ 52).
  { rewrite <- !Z.pow_add_r by lia. f_equal. unfold e0. lia. }
  assert (Hsucc_a : 2 ^ Z.succ la = 2 * 2 ^ la) by (apply Z.pow_succ_r; lia).
  assert (Hsucc_b : 2 ^ Z.succ lb = 2 * 2 ^ lb) by (apply Z.pow_succ_r; lia).
  assert (HPpos : 0 < 2 ^ (- e0)) by (apply Z.pow_pos_nonneg; lia).
  assert (HApos : 0 < 2 ^ la) by (apply Z.pow_pos_nonneg; lia).
  assert (HBpos : 0 < 2 ^ lb) by (apply Z.pow_pos_nonneg; lia).
  assert (Hclamp : forall ku, 0 <= ku -> a * 2 ^ ku < 2 ^ 53 * b ->
            exists k, Z.max (- ku) (-1074) = - k /\ 0 <= k /\
                      a * 2 ^ k < 2 ^ 53 * b).
  { intros ku Hku Hlt. exists (Z.min ku 1074). split; [lia |]. split; [lia |].
    assert (Hle : 2 ^ Z.min ku 1074 <= 2 ^ ku)
      by (apply Z.pow_le_mono_r; lia).
    assert (0 < 2 ^ Z.min ku 1074) by (apply Z.pow_pos_nonneg; lia).
    nia. }
  set (P := 2 ^ (- e0)) in *. set (A := 2 ^ la) in *. set (B := 2 ^ lb) in *.
  assert (Hupp : a * P < 2 * (B * 2 ^ 52)) by nia.
  destruct (Z.ltb_spec (a * P / b) (2 ^ 52)) as [Hq | Hq].
  - replace (Z.max (e0 - 1) (-1074)) with (Z.max (- (1 - e0)) (-1074))
      by (f_equal; lia).
    apply Hclamp; [lia |].
    apply div_lt_iff in Hq; [| lia].
    replace (2 ^ (1 - e0)) with (2 * P).
    2:{ unfold P. replace (1 - e0) with (Z.succ (- e0)) by lia.
        rewrite Z.pow_succ_r by lia. reflexivity. }
    change (2 ^ 52) with 4503599627370496 in *.
    change (2 ^ 53) with 9007199254740992 in *. nia.
  - replace (Z.max e0 (-1074)) with (Z.max (- (- e0)) (-1074))
      by (f_equal; lia).
    apply Hclamp; [lia |]. fold P.
    change (2 ^ 52) with 4503599627370496 in *.
    change (2 ^ 53) with 9007199254740992 in *. nia.
Qed.

Lemma round_half_even_nonneg (num den : Z) :
  0 <= num -> 0 < den -> 0 <= round_half_even num den.
Proof.
  intros Hnum Hden. unfold round_half_even.
  assert (0 <= num / den) by (apply Z.div_pos; lia).
  destruct (2 * (num mod den) <? den); [lia |].
  destruct (den <? 2 * (num mod den)); [lia |].
  destruct (Z.even (num / den)); lia.
Qed.

(** A quotient of a dividend below [2^53] never overflows. *)
Lemma round_to_double_small (sign : bool) (a b : Z) :
  0 <= a < 2 ^ 53 -> 0 < b ->
  exists m e,
    round_to_double sign a b = Ok {| neg := sign; mant := m; exp := e |} /\
    0 <= m.
Proof.
  intros Ha Hb. unfold round_to_double.
  destruct (Z.eqb_spec a 0) as [-> | Hnz].
  { exists 0, 0. split; [reflexivity | lia]. }
  destruct (@ulp_exp_upper a b ltac:(lia) Hb) as (k & -> & Hk & Hlt).
  unfold scaled_num, scaled_den.
  rewrite Z.opp_involutive, (Z.max_r 0 k), (Z.max_l 0 (- k)) by lia.
  rewrite Z.pow_0_r, !Z.mul_1_r.
  assert (HP : 0 < 2 ^ k) by (apply Z.pow_pos_nonneg; lia).
  pose proof (@round_half_even_le (a * 2 ^ k) b ltac:(lia)) as Hle.
  pose proof (@round_half_even_nonneg (a * 2 ^ k) b ltac:(nia) Hb) as Hge.
  assert (Hq : a * 2 ^ k / b < 2 ^ 53) by (apply div_lt_iff; lia).
  set (m := round_half_even (a * 2 ^ k) b) in *.
  destruct (Z.leb_spec (2 ^ 1024) m) as [Hover | _].
  - exfalso.
    assert (2 ^ 53 < 2 ^ 1024) by (apply Z.pow_lt_mono_r; lia). lia.
  - exists m, (- k). split; [reflexivity | exact Hge].
Qed.

Lemma ceil_of_negative (m e : Z) :
  0 <= m -> ceil {| neg := true; mant := m; exp := e |} <= 0.
Proof.
  intros Hm. unfold ceil. cbn [neg mant exp].
  destruct (Z.leb_spec 0 e) as [He | He].
  - assert (0 <= 2 ^ e) by (apply Z.pow_nonneg; lia). nia.
  - assert (0 < 2 ^ (- e)) by (apply Z.pow_pos_nonneg; lia).
    assert (0 <= m / 2 ^ (- e)) by (apply Z.div_pos; lia). lia.
Qed.

End FloatFacts.

(** With a negative part size the planner does not fail: it plans no part,
    or a negative number of parts. *)
Lemma total_parts_of_negative_part_size (file_size part_size : Z) :
  0 <= file_size < 2 ^ 53 -> part_size < 0 ->
  exists total, total_parts file_size part_size = Ok total /\ total <= 0.
Proof.
  intros Hfs Hps. unfold total_parts, Float.int_truediv.
  destruct (Z.eqb_spec part_size 0) as [E | _]; [lia |].
  replace (file_size <? 0) with false by (symmetry; apply Z.ltb_ge; lia).
  replace (part_size <? 0) with true by (symmetry; apply Z.ltb_lt; lia).
  cbn [xorb]. rewrite (Z.abs_eq file_size) by lia.
  destruct (@FloatFacts.round_to_double_small true file_size
              (Z.abs part_size) Hfs ltac:(lia)) as (m & e & -> & Hm).
  eexists. split; [reflexivity |].
  apply FloatFacts.ceil_of_negative. exact Hm.
Qed.

(** Below [2^53] bytes the first completion timeout is exact. *)
Lemma timeout_floor_exact_below_2_53 (file_size : Z) :
  0 <= file_size < 2 ^ 53 -> timeout_floor_is_exact file_size.
Proof.
  intros Hfs. unfold timeout_floor_is_exact, completion_timeout.
  destruct (@FloatFacts.of_int_exact file_size Hfs) as (k & Hk & ->).
  f_equal. f_equal. unfold Float.div_pow2. cbn [Float.neg Float.mant Float.exp].
  replace (- k - 30) with (- (k + 30)) by lia.
  rewrite FloatFacts.ceil_nonneg_scaled by lia.
  rewrite Z.mul_comm. f_equal.
  pose proof (@ceil_div_bounds file_size (2 ^ 30) ltac:(lia)) as Hc.
  assert (HP : 0 < 2 ^ k) by (apply Z.pow_pos_nonneg; lia).
  apply ceil_div_unique.
  - apply Z.pow_pos_nonneg; lia.
  - rewrite Z.pow_add_r by lia. nia.
Qed.

(** ** Ranges *)

Lemma range_nil (lo hi : Z) : hi <= lo -> range lo hi = [].
Proof.
  intros H. unfold range. replace (Z.to_nat (hi - lo)) with 0%nat by lia.
  reflexivity.
Qed.

Lemma range_cons (lo hi : Z) : lo < hi -> range lo hi = lo :: range (lo + 1) hi.
Proof.
  intros H. unfold range.
  replace (Z.to_nat (hi - lo)) with (Datatypes.S (Z.to_nat (hi - (lo + 1)))) by lia.
  cbn [seq map]. f_equal; [lia |].
  rewrite <- seq_shift, map_map. apply map_ext. intros i. lia.
Qed.

Lemma range_length (lo hi : Z) :
  Z.of_nat (List.length (range lo hi)) = Z.max 0 (hi - lo).
Proof. unfold range. rewrite length_map, length_seq. lia. Qed.

Lemma range_last_iff (lo hi : Z) :
  lo < hi -> (lo = hi - 1 <-> range (lo + 1) hi = []).
Proof.
  intros H. split; intros E.
  - apply range_nil. lia.
  - pose proof (range_length (lo + 1) hi) as L. rewrite E in L.
    cbn in L. lia.
Qed.


Lemma extends_refl {S} (st : state S) : extends st st [].
Proof. unfold extends. rewrite app_nil_r. auto. Qed.

Lemma extends_trans {S} (st st1 st2 : state S) (evs1 evs2 : list event) :
  extends st st1 evs1 -> extends st1 st2 evs2 -> extends st st2 (evs1 ++ evs2).
Proof.
  unfold extends. intros (T1 & L1 & U1) (T2 & L2 & U2).
  rewrite T2, T1, L2, L1, U2, U1, app_assoc. auto.
Qed.

Lemma extends_observe {S} (st : state S) (s : S) (ev : event) :
  extends st (observe s ev st) [ev].
Proof. unfold extends. cbn. auto. Qed.

Lemma extends_set_s3_config {S} (st st' : state S) evs cfg :
  extends st st' evs -> extends st (set_s3_config cfg st') evs.
Proof. unfold extends. cbn. auto. Qed.

Lemma extends_set_parts_completed {S} (st st' : state S) evs n :
  extends st st' evs -> extends st (set_parts_completed n st') evs.
Proof. unfold extends. cbn. auto. Qed.

Create HintDb uploader.
#[local] Hint Resolve extends_refl extends_observe extends_set_s3_config
  extends_set_parts_completed : uploader.

Ltac splits := repeat match goal with |- _ /\ _ => split end.

(** Unfolding of the monad, one layer. *)
Ltac unfold_monad :=
  unfold bind, try_except, ret, raise, get, modify, of_outcome, call in *.

Section RetryFacts.

Variable S : Type.
Variable s3 : S3 S.
Variable max_retries : Z.

Lemma sleep_ok (secs : Z) (st : state S) :
  0 <= secs ->
  sleep s3 secs st = (Ok tt, observe (elapse s3 secs (remote st)) (Sleep secs) st).
Proof.
  intros H. unfold sleep.
  destruct (Z.ltb_spec secs 0); [lia | reflexivity].
Qed.

Lemma backoff_nonneg (attempt : Z) : 0 <= 2 ^ attempt.
Proof. apply Z.pow_nonneg. lia. Qed.


Lemma one_call_head_object (cfg : client_config) :
  one_call (head_object s3 cfg) (HeadObject cfg).
Proof.
  intros st r st' H. unfold head_object, call in H.
  destruct (s3_head_object s3 cfg (remote st)) as [r0 s].
  inversion H; subst. eauto.
Qed.

Lemma one_call_create :
  one_call (create_multipart_upload s3) CreateMultipartUpload.
Proof.
  intros st r st' H. unfold create_multipart_upload in H. unfold_monad.
  destruct (s3_create_multipart_upload s3 (s3_config st) (remote st)) as [r0 s].
  inversion H; subst. eauto.
Qed.

Lemma one_call_fetch_parts (id : string) :
  forall st r st', upload_id st = Some id -> fetch_parts s3 st = (r, st') ->
    exists s, st' = observe s (ListParts id r) st.
Proof.
  intros st r st' U H. unfold fetch_parts in H. unfold_monad.
  rewrite U in H.
  destruct (s3_list_parts s3 (s3_config st) id (remote st)) as [r0 s].
  inversion H; subst. eauto.
Qed.

Section Loop.

Context {A : Type}.
Variable func : M S A.
Variable mk : outcome A -> event.
(** The states in which [func] is known to be one call. *)
Variable inv : state S -> Prop.
Hypothesis inv_observe : forall st s ev, inv st -> inv (observe s ev st).
Hypothesis func_one_call :
  forall st r st', inv st -> func st = (r, st') ->
    exists s, st' = observe s (mk r) st.
Hypothesis mk_inj : forall r1 r2, mk r1 = mk r2 -> r1 = r2.
Hypothesis mk_not_sleep : forall r, is_sleep (mk r) = false.

(** What a run of the wrapper observes: calls of [func] and back-offs; a
    successful call is the last observation and its answer is returned. *)
Lemma call_with_524_retry_loop_spec (attempts : list Z) :
  forall st r st',
    inv st ->
    call_with_524_retry_loop s3 max_retries func attempts st = (r, st') ->
    exists evs,
      extends st st' evs /\ inv st' /\
      s3_config st' = s3_config st /\
      parts_completed st' = parts_completed st /\
      Forall (fun ev => is_sleep ev = true \/ exists r0, ev = mk r0) evs /\
      (attempts <> [] -> exists r0 more, evs = mk r0 :: more) /\
      (forall a, In (mk (Ok a)) evs -> r = Ok (Some a)) /\
      (forall a, r = Ok (Some a) -> exists pre, evs = pre ++ [mk (Ok a)]) /\
      (r = Ok None -> attempts = [] \/ exists e, In (mk (Raise e)) evs).
Proof.
  induction attempts as [| attempt rest IH]; intros st r st' Hinv H.
  - cbn in H. unfold_monad. inversion H; subst.
    exists []. splits; auto with uploader; try congruence.
    intros a [].
  - cbn [call_with_524_retry_loop] in H. unfold_monad.
    destruct (func st) as [[a | e] st1] eqn:Hf;
      destruct (func_one_call Hinv Hf) as [s ->].
    { inversion H; subst. exists [mk (Ok a)].
      splits; auto with uploader.
      - constructor; [right; eauto | constructor].
      - intros _. eauto.
      - intros a0 [E | []]. apply mk_inj in E. congruence.
      - intros a0 E. inversion E; subst. exists []. reflexivity.
      - intros E. discriminate E. }
    assert (Hstop :
      (Raise e, observe s (mk (Raise e)) st) = (r, st') ->
      exists evs,
        extends st st' evs /\ inv st' /\
        s3_config st' = s3_config st /\
        parts_completed st' = parts_completed st /\
        Forall (fun ev => is_sleep ev = true \/ exists r0, ev = mk r0) evs /\
        (attempt :: rest <> [] -> exists r0 more, evs = mk r0 :: more) /\
        (forall a, In (mk (Ok a)) evs -> r = Ok (Some a)) /\
        (forall a, r = Ok (Some a) -> exists pre, evs = pre ++ [mk (Ok a)]) /\
        (r = Ok None ->
         attempt :: rest = [] \/ exists e, In (mk (Raise e)) evs)).
    { intros E. inversion E; subst. exists [mk (Raise e)].
      splits; auto with uploader.
      - constructor; [right; eauto | constructor].
      - intros _. eauto.
      - intros a [E' | []]. apply mk_inj in E'. discriminate E'.
      - intros a E'. discriminate E'.
      - intros E'. discriminate E'. }
    assert (Hretry :
      sleep s3 (2 ^ attempt) (observe s (mk (Raise e)) st) =
        (Ok tt, observe (elapse s3 (2 ^ attempt) s) (Sleep (2 ^ attempt))
                  (observe s (mk (Raise e)) st))).
    { apply sleep_ok, backoff_nonneg. }
    assert (Hgo :
      call_with_524_retry_loop s3 max_retries func rest
        (observe (elapse s3 (2 ^ attempt) s) (Sleep (2 ^ attempt))
           (observe s (mk (Raise e)) st)) = (r, st') ->
      exists evs,
        extends st st' evs /\ inv st' /\
        s3_config st' = s3_config st /\
        parts_completed st' = parts_completed st /\
        Forall (fun ev => is_sleep ev = true \/ exists r0, ev = mk r0) evs /\
        (attempt :: rest <> [] -> exists r0 more, evs = mk r0 :: more) /\
        (forall a, In (mk (Ok a)) evs -> r = Ok (Some a)) /\
        (forall a, r = Ok (Some a) -> exists pre, evs = pre ++ [mk (Ok a)]) /\
        (r = Ok None ->
         attempt :: rest = [] \/ exists e, In (mk (Raise e)) evs)).
    { intros Hrest.
      apply IH in Hrest; [| auto].
      destruct Hrest
        as (evs & Hext & Hinv' & Hcfg & Hpc & Hall & _ & Hin & Hok & Hnone).
      exists ([mk (Raise e); Sleep (2 ^ attempt)] ++ evs).
      splits; auto.
      - eapply extends_trans; [| exact Hext].
        change [mk (Raise e); Sleep (2 ^ attempt)]
          with ([mk (Raise e)] ++ [Sleep (2 ^ attempt)]).
        eapply extends_trans; auto with uploader.
      - cbn. constructor; [right; eauto |].
        constructor; [left; reflexivity | exact Hall].
      - intros _. cbn. eauto.
      - intros a [E | [E | Hi]].
        + apply mk_inj in E. discriminate E.
        + pose proof (mk_not_sleep (Ok a)) as N. rewrite <- E in N.
          discriminate N.
        + auto.
      - intros a E. destruct (Hok a E) as [pre ->].
        exists ([mk (Raise e); Sleep (2 ^ attempt)] ++ pre).
        rewrite <- app_assoc. reflexivity.
      - intros _. right. exists e. left. reflexivity. }
    destruct (isinstance_ClientError e).
    + destruct (is_524_error e); [| auto].
      destruct (attempt =? max_retries); [auto |].
      rewrite Hretry in H. auto.
    + destruct (isinstance_timeout e); [| auto].
      destruct (attempt =? max_retries); [auto |].
      rewrite Hretry in H. auto.
Qed.

End Loop.

End RetryFacts.

(** ** The completion coordinator, one iteration at a time *)


Lemma complete_timeouts_app (l1 l2 : list event) :
  complete_timeouts (l1 ++ l2) = complete_timeouts l1 ++ complete_timeouts l2.
Proof. apply flat_map_app. Qed.

Lemma complete_outcomes_app (l1 l2 : list event) :
  complete_outcomes (l1 ++ l2) = complete_outcomes l1 ++ complete_outcomes l2.
Proof. apply flat_map_app. Qed.

Lemma no_complete_timeouts (evs : list event) :
  Forall (fun ev => is_complete ev = false) evs -> complete_timeouts evs = [].
Proof.
  induction 1 as [| ev evs H _ IH]; [reflexivity |].
  destruct ev; try discriminate H; exact IH.
Qed.

Lemma no_complete_outcomes (evs : list event) :
  Forall (fun ev => is_complete ev = false) evs -> complete_outcomes evs = [].
Proof.
  induction 1 as [| ev evs H _ IH]; [reflexivity |].
  destruct ev; try discriminate H; exact IH.
Qed.

Lemma nth_error_one_timeout (x : Z) (n : nat) (tm : Z) :
  nth_error [x] n = Some tm -> tm = x * 2 ^ Z.of_nat n.
Proof.
  destruct n as [| [| n]]; cbn; intros E; inversion E. lia.
Qed.

Section CoordinatorFacts.

Variable S : Type.
Variable s3 : S3 S.
Variable max_retries : Z.

Lemma complete_loop_step (uid : string) (parts : list part)
    (expected_size attempt : Z) (rest : list Z) (timeout : Z)
    (last_exc : option exn) (st : state S) :
  complete_loop s3 max_retries uid parts expected_size (attempt :: rest)
    timeout last_exc st =
  let (rc, s1) :=
    s3_complete_multipart_upload s3 (Some timeout) uid parts (remote st) in
  let st1 := observe s1 (CompleteMultipartUpload timeout uid parts rc) st in
  match rc with
  | Ok _ => (Ok tt, set_s3_config (Some timeout) st1)
  | Raise exc =>
      if isinstance_boto exc then
        let no_such_upload :=
          if isinstance_timeout exc then false
          else is_no_such_upload_error exc in
        match (if no_such_upload then (Ok tt, st1)
               else sleep s3 timeout st1) with
        | (Raise e, st2) => (Raise e, st2)
        | (Ok _, st2) =>
            let (poll, st3) :=
              call_with_524_retry s3 max_retries
                (head_object s3 (Some timeout)) st2 in
            if poll_confirms poll expected_size
            then (Ok tt, set_s3_config (Some timeout) st3)
            else if attempt =? max_retries then (Raise exc, st3)
            else complete_loop s3 max_retries uid parts expected_size rest
                   (timeout * 2) (Some exc) st3
        end
      else (Raise exc, st1)
  end.
Proof.
  cbn [complete_loop]. unfold_monad.
  destruct (s3_complete_multipart_upload s3 (Some timeout) uid parts (remote st))
    as [[[] | exc] s1]; [reflexivity |].
  destruct exc; cbn [isinstance_timeout isinstance_boto]; try reflexivity.
  3: destruct (is_no_such_upload_error (ClientError http_status error_code)).
  all: cbn - [sleep call_with_524_retry complete_loop].
  all: repeat match goal with
       | |- context [sleep s3 ?t ?x] =>
           destruct (sleep s3 t x) as [[[] | ?] ?]
       | |- context [call_with_524_retry s3 max_retries ?f ?x] =>
           destruct (call_with_524_retry s3 max_retries f x)
             as [[[[? |] |] | ?] ?]
       end; cbn - [complete_loop]; try reflexivity.
  all: repeat match goal with
       | |- context [if ?b then _ else _] => destruct b
       end; reflexivity.
Qed.


(** A poll observes head requests and back-offs only; the answer it returns
    is the one of its last request. *)
Lemma poll_spec (cfg : client_config) (st st' : state S)
    (poll : outcome (option (option Z))) :
  call_with_524_retry s3 max_retries (head_object s3 cfg) st = (poll, st') ->
  exists evs,
    extends st st' evs /\
    s3_config st' = s3_config st /\
    Forall (fun ev => is_sleep ev = true \/ is_head ev = true) evs /\
    (1 <= max_retries -> exists r0 more, evs = HeadObject cfg r0 :: more) /\
    (forall a, poll = Ok (Some a) -> exists pre, evs = pre ++ [HeadObject cfg (Ok a)]) /\
    (forall expected_size, poll_confirms poll expected_size = false ->
       Forall (fun ev => event_confirms expected_size ev = false) evs).
Proof.
  intros H. unfold call_with_524_retry in H.
  eapply call_with_524_retry_loop_spec
    with (mk := HeadObject cfg) (inv := fun _ => True) in H; auto.
  - destruct H as (evs & Hext & _ & Hcfg & _ & Hall & Hfirst & Hin & Hok & _).
    exists evs. splits; auto.
    + eapply Forall_impl; [| exact Hall].
      intros ev [E | [r0 ->]]; auto.
    + intros Hmr. apply Hfirst. rewrite range_cons by lia. discriminate.
    + intros expected_size Hno. apply Forall_forall. intros ev Hev.
      rewrite Forall_forall in Hall.
      destruct (Hall ev Hev) as [E | [r0 ->]].
      * destruct ev; try discriminate E. reflexivity.
      * destruct r0 as [a | e]; [| reflexivity].
        apply Hin in Hev. subst poll. exact Hno.
  - intros st0 r st1 _ Hc. eapply one_call_head_object; eauto.
  - intros r1 r2 E. inversion E. reflexivity.
Qed.

(** What a run of the loop observes, from any iteration [a] on:
    - complete requests, polls and waits only;
    - the complete requests carry the timeouts [timeout, 2 timeout, ...];
    - it returns only if it falls off the loop or an observation shows the
      merged object; it raises only if none does, and then raises the error
      of its last complete request, having used up the attempts when that
      error is one the loop catches. *)
Lemma complete_loop_spec (uid : string) (parts : list part)
    (expected_size : Z) (attempts : list Z) :
  forall a timeout last_exc st r st',
    attempts = range a (max_retries + 1) ->
    0 <= timeout ->
    complete_loop s3 max_retries uid parts expected_size attempts
      timeout last_exc st = (r, st') ->
    exists evs,
      extends st st' evs /\
      Forall (fun ev => is_sleep ev = true \/ is_complete ev = true \/
                        is_head ev = true) evs /\
      (forall n tm, nth_error (complete_timeouts evs) n = Some tm ->
                    tm = timeout * 2 ^ Z.of_nat n) /\
      match r with
      | Ok _ =>
          attempts = [] \/
          exists ev, In ev evs /\ event_confirms expected_size ev = true
      | Raise e =>
          Forall (fun ev => event_confirms expected_size ev = false) evs /\
          last_complete_error evs = Some e /\
          (isinstance_boto e = true ->
           List.length (complete_outcomes evs) = List.length attempts)
      end.
Proof.
  induction attempts as [| attempt rest IH];
    intros a timeout last_exc st r st' Hrange Htm H.
  - cbn in H. unfold_monad. inversion H; subst.
    exists []. splits; auto with uploader.
    intros [| n] tm E; discriminate E.
  - assert (Ha : a < max_retries + 1).
    { destruct (Z_lt_le_dec a (max_retries + 1)) as [L | L]; [exact L |].
      rewrite range_nil in Hrange by lia. discriminate Hrange. }
    rewrite range_cons in Hrange by lia.
    inversion Hrange as [[Hattempt Hrest]]. clear Hrange.
    rewrite complete_loop_step in H.
    destruct (s3_complete_multipart_upload s3 (Some timeout) uid parts
                (remote st)) as [[[] | exc] s1]; cbv zeta in H.
    { (* the request went through *)
      inversion H; subst r st'.
      exists [CompleteMultipartUpload timeout uid parts (Ok tt)].
      splits.
      - auto with uploader.
      - constructor; [auto | constructor].
      - intros n tm E. apply nth_error_one_timeout. exact E.
      - right. eexists. split; [left; reflexivity | reflexivity]. }
    set (ev0 := CompleteMultipartUpload timeout uid parts (Raise exc)) in *.
    set (st1 := observe s1 ev0 st) in *.
    assert (Hext1 : extends st st1 [ev0]) by (subst st1; auto with uploader).
    destruct (isinstance_boto exc) eqn:Hboto.
    2:{ (* not caught: propagates *)
      inversion H; subst r st'. exists [ev0].
      splits.
      - exact Hext1.
      - constructor; [auto | constructor].
      - intros n tm E. apply nth_error_one_timeout. exact E.
      - constructor; [reflexivity | constructor].
      - reflexivity.
      - intros E. congruence. }
    set (nsu := if isinstance_timeout exc then false
                else is_no_such_upload_error exc) in *.
    (* the wait *)
    assert (Hwait : exists st2 wait,
      (if nsu then (Ok tt, st1) else sleep s3 timeout st1) = (Ok tt, st2) /\
      extends st1 st2 wait /\
      Forall (fun ev => is_sleep ev = true) wait).
    { destruct nsu.
      - exists st1, []. splits; auto with uploader.
      - rewrite sleep_ok by lia.
        eexists _, [Sleep timeout]. splits; auto with uploader. }
    destruct Hwait as (st2 & wait & Hw & Hext2 & Hwait_all).
    rewrite Hw in H.
    destruct (call_with_524_retry s3 max_retries
                (head_object s3 (Some timeout)) st2) as [poll st3] eqn:Hp.
    apply poll_spec in Hp.
    destruct Hp as (polls & Hext3 & _ & Hpoll_all & _ & Hpoll_ok & Hpoll_no).
    assert (Hquiet : Forall (fun ev => is_complete ev = false) (wait ++ polls)).
    { apply Forall_app. split.
      - eapply Forall_impl; [| exact Hwait_all].
        intros ev E. destruct ev; try discriminate E. reflexivity.
      - eapply Forall_impl; [| exact Hpoll_all].
        intros ev [E | E]; destruct ev; try discriminate E; reflexivity. }
    assert (Hkind : Forall (fun ev => is_sleep ev = true \/
                      is_complete ev = true \/ is_head ev = true)
                      ([ev0] ++ wait ++ polls)).
    { apply Forall_app. split; [constructor; [auto | constructor] |].
      apply Forall_app. split.
      - eapply Forall_impl; [| exact Hwait_all]. intros ev E. auto.
      - eapply Forall_impl; [| exact Hpoll_all]. intros ev [E | E]; auto. }
    assert (Hext123 : extends st st3 ([ev0] ++ wait ++ polls)).
    { eapply extends_trans; [exact Hext1 |].
      eapply extends_trans; eauto. }
    assert (Htimeouts : complete_timeouts ([ev0] ++ wait ++ polls) = [timeout]).
    { rewrite complete_timeouts_app, (no_complete_timeouts Hquiet).
      reflexivity. }
    assert (Houtcomes : complete_outcomes ([ev0] ++ wait ++ polls) = [Raise exc]).
    { rewrite complete_outcomes_app, (no_complete_outcomes Hquiet).
      reflexivity. }
    destruct (poll_confirms poll expected_size) eqn:Hconf.
    { (* the poll shows the merged object *)
      inversion H; subst r st'.
      exists ([ev0] ++ wait ++ polls). splits.
      - auto with uploader.
      - exact Hkind.
      - rewrite Htimeouts. intros n tm E. apply nth_error_one_timeout. exact E.
      - right. unfold poll_confirms in Hconf.
        destruct poll as [[sz |] |]; try discriminate Hconf.
        destruct (Hpoll_ok sz eq_refl) as [pre ->].
        exists (HeadObject (Some timeout) (Ok sz)). split; [| exact Hconf].
        apply in_or_app. right. apply in_or_app. right.
        apply in_or_app. right. left. reflexivity. }
    assert (Hnone : Forall (fun ev => event_confirms expected_size ev = false)
                      ([ev0] ++ wait ++ polls)).
    { apply Forall_app. split; [constructor; [reflexivity | constructor] |].
      apply Forall_app. split; [| auto].
      eapply Forall_impl; [| exact Hwait_all].
      intros ev E. destruct ev; try discriminate E. reflexivity. }
    destruct (Z.eqb_spec attempt max_retries) as [Hlast | Hmore].
    { (* the attempts are used up *)
      inversion H; subst r st'.
      exists ([ev0] ++ wait ++ polls). splits.
      - exact Hext123.
      - exact Hkind.
      - rewrite Htimeouts. intros n tm E. apply nth_error_one_timeout. exact E.
      - exact Hnone.
      - unfold last_complete_error. rewrite Houtcomes. reflexivity.
      - intros _. rewrite Houtcomes.
        rewrite range_nil by lia. reflexivity. }
    apply IH with (a := a + 1) in H; [| auto | lia].
    destruct H as (evs & Hext4 & Hkind4 & Htm4 & Hres).
    exists (([ev0] ++ wait ++ polls) ++ evs). splits.
    + eapply extends_trans; eauto.
    + apply Forall_app. auto.
    + rewrite complete_timeouts_app, Htimeouts. intros [| n] tm E.
      * inversion E. cbn. lia.
      * cbn in E. apply Htm4 in E. subst tm.
        rewrite Nat2Z.inj_succ, Z.pow_succ_r by lia. lia.
    + destruct r as [[] | e].
      * right. destruct Hres as [Hnil | (ev & Hin & Hev)].
        -- exfalso. rewrite Hnil in Hrest.
           symmetry in Hrest. apply range_last_iff in Hrest; lia.
        -- exists ev. split; [apply in_or_app; auto | exact Hev].
      * destruct Hres as (Hno & Hlast_err & Hlen). splits.
        -- apply Forall_app. auto.
        -- unfold last_complete_error in *.
           rewrite complete_outcomes_app, Houtcomes.
           destruct (complete_outcomes evs) as [| o os] eqn:Hos;
             [discriminate Hlast_err |].
           cbn [app]. cbn [app last] in *. exact Hlast_err.
        -- intros Hb. rewrite complete_outcomes_app, Houtcomes.
           cbn. rewrite (Hlen Hb). congruence.
Qed.

End CoordinatorFacts.
(** ** The part uploads and the driver *)

(** *** Lists: taking one element out *)

Lemma pick_split {A} (i : nat) (l : list A) (d x : A) :
  (i < List.length l)%nat ->
  exists l1 l2,
    l = l1 ++ nth i l d :: l2 /\
    set_nth i x l = l1 ++ x :: l2 /\
    drop_nth i l = l1 ++ l2.
Proof.
  intros Hi. exists (firstn i l), (skipn (Datatypes.S i) l).
  unfold set_nth, drop_nth. splits; auto.
  revert l Hi. induction i as [| i IH]; intros [| a l] Hi; cbn in Hi; try lia.
  - reflexivity.
  - cbn [firstn skipn nth app]. f_equal. apply IH. lia.
Qed.

Lemma list_sum_middle (l1 l2 : list nat) (x : nat) :
  list_sum (l1 ++ x :: l2) = (x + list_sum (l1 ++ l2))%nat.
Proof.
  rewrite !list_sum_app.
  change (list_sum (x :: l2)) with (x + list_sum l2)%nat. lia.
Qed.

(** *** Sorting by part number *)

Lemma insert_part_perm (p : part) (l : list part) :
  Permutation (insert_part p l) (p :: l).
Proof.
  induction l as [| q l IH]; cbn; [reflexivity |].
  destruct (PartNumber p <=? PartNumber q); [reflexivity |].
  rewrite IH. apply perm_swap.
Qed.

Lemma sort_parts_perm (l : list part) : Permutation (sort_parts l) l.
Proof.
  induction l as [| p l IH]; cbn; [reflexivity |].
  fold (sort_parts l). rewrite insert_part_perm. constructor. exact IH.
Qed.

Lemma insert_part_ascending (p : part) (l : list part) :
  ascending (map PartNumber l) ->
  ascending (map PartNumber (insert_part p l)).
Proof.
  induction l as [| q l IH]; intros Hl; cbn.
  - split; [intros y [] | exact I].
  - destruct Hl as [Hq Hl].
    destruct (Z.leb_spec (PartNumber p) (PartNumber q)) as [Hle | Hgt].
    + cbn. split; [| split; assumption].
      intros y [<- | Hy]; [exact Hle |].
      specialize (Hq y Hy). lia.
    + cbn. split; [| apply IH; exact Hl].
      intros y Hy.
      apply (Permutation_in _ (Permutation_map PartNumber
                                 (insert_part_perm p l))) in Hy.
      destruct Hy as [<- | Hy]; [lia | apply Hq; exact Hy].
Qed.

Lemma sort_parts_ascending (l : list part) :
  ascending (map PartNumber (sort_parts l)).
Proof.
  induction l as [| p l IH]; cbn; [exact I |].
  fold (sort_parts l). apply insert_part_ascending. exact IH.
Qed.

(** An ascending arrangement of a range is the range. *)
Lemma ascending_range (n : nat) :
  forall (l : list Z) (a b : Z),
    n = List.length l ->
    ascending l -> Permutation l (range a b) -> l = range a b.
Proof.
  induction n as [| n IH]; intros l a b Hn Hasc Hperm.
  - destruct l; [| discriminate Hn].
    apply Permutation_nil in Hperm. congruence.
  - destruct l as [| x l]; [discriminate Hn |].
    assert (Hab : a < b).
    { destruct (Z_lt_le_dec a b) as [L | L]; [exact L |].
      rewrite range_nil in Hperm by lia.
      apply Permutation_sym, Permutation_nil in Hperm. discriminate Hperm. }
    rewrite range_cons in Hperm |- * by lia.
    destruct Hasc as [Hx Hasc].
    assert (Hxa : x = a).
    { assert (Hin_a : In a (x :: l)).
      { eapply Permutation_in; [apply Permutation_sym; exact Hperm |].
        left. reflexivity. }
      assert (Hin_x : In x (a :: range (a + 1) b)).
      { eapply Permutation_in; [exact Hperm |]. left. reflexivity. }
      assert (a <= x).
      { destruct Hin_x as [-> | Hin_x]; [lia |].
        unfold range in Hin_x. apply in_map_iff in Hin_x.
        destruct Hin_x as (k & <- & _). lia. }
      destruct Hin_a as [-> | Hin_a]; [reflexivity |].
      specialize (Hx a Hin_a). lia. }
    subst x. f_equal.
    apply IH; [cbn in Hn; lia | exact Hasc |].
    eapply Permutation_cons_inv; exact Hperm.
Qed.

(** Sorting parts whose numbers are those of a range gives them in the
    order of the range. *)
Lemma sort_parts_range (l : list part) (a b : Z) :
  Permutation (map PartNumber l) (range a b) ->
  map PartNumber (sort_parts l) = range a b.
Proof.
  intros H. eapply ascending_range; [reflexivity | apply sort_parts_ascending |].
  rewrite <- H. apply Permutation_map. apply sort_parts_perm.
Qed.

(** *** The progress report *)

Lemma round_to_double_error (sign : bool) (a b : Z) (e : exn) :
  Float.round_to_double sign a b = Raise e -> e = OverflowError.
Proof.
  unfold Float.round_to_double. destruct (a =? 0); [discriminate |].
  destruct (2 ^ 1024 <=? _); [| discriminate].
  intros E. inversion E. reflexivity.
Qed.

Lemma of_int_error (n : Z) (e : exn) :
  Float.of_int n = Raise e -> e = OverflowError.
Proof. apply round_to_double_error. Qed.

Lemma int_truediv_error (a b : Z) (e : exn) :
  Float.int_truediv a b = Raise e ->
  e = ZeroDivisionError \/ e = OverflowError.
Proof.
  unfold Float.int_truediv. destruct (b =? 0).
  - intros E. inversion E. auto.
  - intros E. apply round_to_double_error in E. auto.
Qed.

Lemma raised_by_report_not_boto (e : exn) :
  raised_by_report e = true -> isinstance_boto e = false.
Proof. destruct e; cbn; congruence. Qed.

Section DriverFacts.

Variable S : Type.
Variable s3 : S3 S.
Variable part_size : Z.
Variable max_retries : Z.
Variable getsize : Z.

(** The progress report changes nothing; it can only raise one of its own
    errors. *)
Lemma report_progress_spec (part_number total : Z)
    (start_time : Float.float) (st st' : state S) (r : outcome unit) :
  report_progress s3 part_number total start_time st = (r, st') ->
  st' = st /\
  ((r = Ok tt /\ total <> 0) \/
   exists e, r = Raise e /\ raised_by_report e = true).
Proof.
  unfold report_progress. unfold_monad. intros H.
  destruct (Float.of_int (parts_completed st)) as [x | e] eqn:E1.
  2:{ apply of_int_error in E1. subst e. inversion H; subst. eauto. }
  destruct (Float.of_int total) as [y | e] eqn:E2.
  2:{ apply of_int_error in E2. subst e. inversion H; subst. eauto. }
  destruct (Z.eqb_spec total 0) as [Hz | Hnz].
  { inversion H; subst. eauto. }
  destruct (Float.int_truediv part_number total) as [pf | e] eqn:E3.
  2:{ apply int_truediv_error in E3. inversion H; subst.
      destruct E3 as [-> | ->]; eauto. }
  destruct (Float.positive pf).
  - destruct (gmtime_refuses s3 start_time pf (remote st)) as [[|] |];
      inversion H; subst; eauto.
  - inversion H; subst. eauto.
Qed.

(** One request of [upload_part]: the store answers; an acknowledged part
    is counted at once, and is returned unless the progress report raises. *)
Lemma upload_part_request_spec (uid : string)
    (part_number offset bytes_to_read total : Z) (start_time : Float.float)
    (st st' : state S) (r : outcome part) :
  upload_part_request s3 uid part_number offset bytes_to_read total
    start_time st = (r, st') ->
  exists answer s,
    s3_upload_part s3 (s3_config st) part_number uid offset bytes_to_read
      (remote st) = (answer, s) /\
    match answer with
    | Raise exc =>
        r = Raise exc /\
        st' = observe s (UploadPart part_number uid offset bytes_to_read
                           (Raise exc)) st
    | Ok etag =>
        st' = set_parts_completed (parts_completed st + 1)
                (observe s (UploadPart part_number uid offset bytes_to_read
                              (Ok etag)) st) /\
        ((r = Ok {| PartNumber := part_number; ETag := etag |} /\
          total <> 0) \/
         exists e, r = Raise e /\ raised_by_report e = true)
    end.
Proof.
  unfold upload_part_request. intros H. unfold bind at 1 in H.
  unfold get at 1 in H. unfold bind at 1 in H. unfold call in H.
  destruct (s3_upload_part s3 (s3_config st) part_number uid offset
              bytes_to_read (remote st)) as [[etag | exc] s] eqn:Hcall.
  - exists (Ok etag), s. split; [reflexivity |].
    unfold bind at 1 in H. unfold modify in H. unfold bind in H.
    destruct (report_progress s3 part_number total start_time _)
      as [rp st1] eqn:Hrep.
    apply report_progress_spec in Hrep. destruct Hrep as [-> Hrp].
    destruct Hrp as [[-> Hnz] | (e & -> & He)].
    + unfold ret in H. inversion H; subst. auto.
    + inversion H; subst. eauto.
  - exists (Raise exc), s. split; [reflexivity |].
    inversion H; subst. auto.
Qed.

(** One attempt of [upload_part] whose call fails with [exc]. *)
Lemma upload_part_loop_failed (uid : string)
    (part_number offset bytes_to_read total : Z) (start_time : Float.float)
    (attempt : Z) (rest : list Z) (st : state S) (exc : exn) (s : S) :
  s3_upload_part s3 (s3_config st) part_number uid offset bytes_to_read
    (remote st) = (Raise exc, s) ->
  upload_part_loop s3 max_retries uid part_number offset bytes_to_read total
    start_time (attempt :: rest) st =
  let st1 := observe s (UploadPart part_number uid offset bytes_to_read
                          (Raise exc)) st in
  if isinstance_boto exc then
    if is_insufficient_storage_error exc
    then (Raise (RuntimeError "Server reported insufficient storage"), st1)
    else if attempt =? max_retries then (Raise exc, st1)
    else match sleep s3 (2 ^ attempt) st1 with
         | (Ok _, st2) =>
             upload_part_loop s3 max_retries uid part_number offset
               bytes_to_read total start_time rest st2
         | (Raise e, st2) => (Raise e, st2)
         end
  else (Raise exc, st1).
Proof.
  intros Hcall. cbn [upload_part_loop]. unfold upload_part_request.
  unfold_monad. rewrite Hcall.
  cbv zeta.
  destruct (isinstance_boto exc); [| reflexivity].
  destruct (is_insufficient_storage_error exc); [reflexivity |].
  destruct (attempt =? max_retries); reflexivity.
Qed.

(** One attempt of [upload_part] whose call is acknowledged: the loop ends
    there, with the part or with the error of the progress report. *)
Lemma upload_part_loop_acked (uid : string)
    (part_number offset bytes_to_read total : Z) (start_time : Float.float)
    (attempt : Z) (rest : list Z) (st : state S) (etag : string) (s : S)
    (r : outcome (option part)) (st' : state S) :
  s3_upload_part s3 (s3_config st) part_number uid offset bytes_to_read
    (remote st) = (Ok etag, s) ->
  upload_part_loop s3 max_retries uid part_number offset bytes_to_read total
    start_time (attempt :: rest) st = (r, st') ->
  st' = set_parts_completed (parts_completed st + 1)
          (observe s (UploadPart part_number uid offset bytes_to_read
                        (Ok etag)) st) /\
  ((r = Ok (Some {| PartNumber := part_number; ETag := etag |}) /\
    total <> 0) \/
   exists e, r = Raise e /\ raised_by_report e = true).
Proof.
  intros Hcall H. cbn [upload_part_loop] in H.
  unfold try_except in H. unfold bind at 1 in H.
  destruct (upload_part_request s3 uid part_number offset bytes_to_read
              total start_time st) as [rq st1] eqn:Hreq.
  apply upload_part_request_spec in Hreq.
  destruct Hreq as (answer & s0 & Hcall0 & Hreq).
  rewrite Hcall in Hcall0. inversion Hcall0; subst answer s0.
  destruct Hreq as [-> [[-> Hnz] | (e & -> & He)]].
  - unfold ret in H. inversion H; subst. auto.
  - rewrite (raised_by_report_not_boto _ He) in H.
    unfold raise in H. inversion H; subst. eauto.
Qed.

(** *** The worker pool *)

(** One attempt of a task. *)
Lemma worker_try_spec (id : string) (c : chunk) (total : Z)
    (start_time : Float.float) (attempts : list Z) (a : Z)
    (st st' : state S) (next : step_result) :
  attempts = range a (max_retries + 1) ->
  worker_try s3 max_retries id c total start_time attempts st = (next, st') ->
  exists evs,
    extends st st' evs /\
    s3_config st' = s3_config st /\
    parts_completed st' =
      parts_completed st + Z.of_nat (List.length (acks evs)) /\
    Forall (task_event id c) evs /\
    (attempts <> [] -> has_request id c evs) /\
    match next with
    | Running w' =>
        task w' = c /\ worker_ok max_retries id w' /\
        (moves max_retries w' < 2 * List.length attempts + 1)%nat /\
        acks evs = []
    | Finished r =>
        forall q, r = Ok (Some q) ->
          PartNumber q = part_number c /\ acks evs = [q]
    end.
Proof.
  intros Hrange H. unfold worker_try in H.
  destruct attempts as [| attempt rest].
  { inversion H; subst. exists []. splits; auto with uploader.
    - cbn. lia.
    - intros N. contradiction N. reflexivity.
    - intros q E. discriminate E. }
  assert (Ha : a < max_retries + 1).
  { destruct (Z_lt_le_dec a (max_retries + 1)) as [L | L]; [exact L |].
    rewrite range_nil in Hrange by lia. discriminate Hrange. }
  rewrite range_cons in Hrange by lia.
  injection Hrange as Hattempt Hrest. subst attempt.
  destruct (upload_part_request s3 id (part_number c) (offset c)
              (bytes_to_read c) total start_time st) as [rq st1] eqn:Hreq.
  apply upload_part_request_spec in Hreq.
  destruct Hreq as (answer & s & Hcall & Hreq).
  set (ev := UploadPart (part_number c) id (offset c) (bytes_to_read c) answer).
  assert (Hev : task_event id c ev) by (cbn; auto).
  assert (Hhas : has_request id c [ev]).
  { exists answer. left. reflexivity. }
  destruct answer as [etag | exc].
  - destruct Hreq as [-> Hr]. exists [ev].
    assert (Hpc : parts_completed
                    (set_parts_completed (parts_completed st + 1)
                       (observe s ev st)) =
                  parts_completed st + Z.of_nat (List.length (acks [ev]))).
    { cbn. lia. }
    destruct Hr as [[-> _] | (e & -> & He)].
    + inversion H; subst. splits; auto with uploader.
      intros q E. inversion E; subst. cbn. auto.
    + rewrite (raised_by_report_not_boto _ He) in H. inversion H; subst.
      splits; auto with uploader.
      intros q E. discriminate E.
  - destruct Hreq as [-> ->]. exists [ev].
    assert (Hquiet : acks [ev] = []) by reflexivity.
    assert (Hpc : parts_completed (observe s ev st) =
                  parts_completed st + Z.of_nat (List.length (acks [ev]))).
    { cbn. lia. }
    destruct (isinstance_boto exc).
    2:{ inversion H; subst. splits; auto with uploader.
        intros q E. discriminate E. }
    destruct (is_insufficient_storage_error exc).
    1:{ inversion H; subst. splits; auto with uploader.
        intros q E. discriminate E. }
    destruct (Z.eqb_spec a max_retries) as [Hlast | Hmore].
    1:{ inversion H; subst. splits; auto with uploader.
        intros q E. discriminate E. }
    inversion H; subst. splits; auto with uploader.
    + cbn. splits; auto. lia.
    + cbn [moves List.length]. lia.
Qed.

(** An attempt of a task is an iteration of the loop of [upload_part]: the
    task ends where the loop returns or raises, and stands before its
    back-off where the loop goes on to sleep. *)
Lemma worker_try_is_loop_iteration (uid : string) (c : chunk) (total : Z)
    (start_time : Float.float) (attempt : Z) (rest : list Z)
    (st : state S) :
  upload_part_loop s3 max_retries uid (part_number c) (offset c)
    (bytes_to_read c) total start_time (attempt :: rest) st =
  match worker_try s3 max_retries uid c total start_time (attempt :: rest)
          st with
  | (Finished r, st1) => (r, st1)
  | (Running w, st1) =>
      match worker_step s3 max_retries total start_time w st1 with
      | (Running _, st2) =>
          upload_part_loop s3 max_retries uid (part_number c) (offset c)
            (bytes_to_read c) total start_time rest st2
      | (Finished r, st2) => (r, st2)
      end
  end.
Proof.
  cbn [upload_part_loop]. unfold worker_try, try_except. unfold bind at 1.
  destruct (upload_part_request s3 uid (part_number c) (offset c)
              (bytes_to_read c) total start_time st) as [[p | exc] st1];
    [reflexivity |].
  destruct (isinstance_boto exc); [| reflexivity].
  destruct (is_insufficient_storage_error exc); [reflexivity |].
  destruct (attempt =? max_retries); [reflexivity |].
  cbn [worker_step]. unfold bind.
  destruct (sleep s3 (2 ^ attempt) st1) as [[[] | e] st2]; reflexivity.
Qed.

(** One move of a task of the pool. *)
Lemma worker_step_spec (id : string) (total : Z) (start_time : Float.float)
    (w : worker) (st st' : state S) (next : step_result) :
  upload_id st = Some id ->
  worker_ok max_retries id w ->
  worker_step s3 max_retries total start_time w st = (next, st') ->
  exists evs,
    extends st st' evs /\
    s3_config st' = s3_config st /\
    parts_completed st' =
      parts_completed st + Z.of_nat (List.length (acks evs)) /\
    Forall (task_event id (task w)) evs /\
    (is_backoff w = false -> 1 <= max_retries ->
     has_request id (task w) evs) /\
    match next with
    | Running w' =>
        task w' = task w /\ worker_ok max_retries id w' /\
        (moves max_retries w' < moves max_retries w)%nat /\
        acks evs = []
    | Finished r =>
        forall q, r = Ok (Some q) ->
          PartNumber q = part_number (task w) /\ acks evs = [q]
    end.
Proof.
  intros Hid Hok H. destruct w as [c | uid c attempts | uid c attempt rest];
    cbn [worker_step] in H.
  - rewrite Hid in H.
    eapply worker_try_spec in H; [| reflexivity].
    destruct H as (evs & Hext & Hcfg & Hpc & Hall & Hreq & Hnext).
    exists evs. splits; auto.
    + intros _ Hmr. apply Hreq. rewrite range_cons by lia. discriminate.
    + destruct next as [w' | r]; [| exact Hnext].
      destruct Hnext as (Htask & Hok' & Hmoves & Hacks). splits; auto.
      cbn [moves task].
      pose proof (range_length 1 (max_retries + 1)) as Hlen. lia.
  - destruct Hok as (-> & Hne & a & Hrange).
    eapply worker_try_spec in H; [| exact Hrange].
    destruct H as (evs & Hext & Hcfg & Hpc & Hall & Hreq & Hnext).
    exists evs. splits; auto.
  - destruct Hok as (-> & Hlt & Hrest).
    rewrite sleep_ok in H by apply backoff_nonneg.
    inversion H; subst. exists [Sleep (2 ^ attempt)].
    splits; auto with uploader.
    + cbn. lia.
    + constructor; [exact I | constructor].
    + intros E. discriminate E.
    + cbn. splits; auto.
      * rewrite range_cons by lia. discriminate.
      * eauto.
    + cbn [moves]. lia.
Qed.

Lemma sleeps_app (l1 l2 : list event) :
  sleeps (l1 ++ l2) = sleeps l1 ++ sleeps l2.
Proof. apply flat_map_app. Qed.

Lemma acks_app (l1 l2 : list event) : acks (l1 ++ l2) = acks l1 ++ acks l2.
Proof. apply flat_map_app. Qed.

Lemma moves_pos (w : worker) : (1 <= moves max_retries w)%nat.
Proof. destruct w; cbn [moves]; lia. Qed.

Lemma list_sum_moves_nil (ws : list worker) :
  list_sum (map (moves max_retries) ws) = 0%nat -> ws = [].
Proof.
  destruct ws as [| w ws]; [reflexivity |].
  cbn. pose proof (moves_pos w). lia.
Qed.

Lemma dispatch_tasks (p : pool) : tasks_of (dispatch p) = tasks_of p.
Proof.
  unfold tasks_of, dispatch. cbn [running queue].
  rewrite map_app, map_map. cbn [task]. rewrite map_id, <- app_assoc.
  rewrite firstn_skipn. reflexivity.
Qed.

Lemma dispatch_moves (p : pool) :
  pool_moves max_retries (dispatch p) = pool_moves max_retries p.
Proof.
  unfold pool_moves, dispatch. cbn [running queue].
  set (idle := (max_workers - List.length (running p))%nat).
  rewrite map_app, list_sum_app, map_map. cbn [moves].
  rewrite <- (firstn_skipn idle (queue p)) at 3.
  rewrite length_app.
  assert (E : forall xs : list chunk,
            list_sum (map (fun _ : chunk =>
                             (2 * Z.to_nat max_retries + 1)%nat) xs) =
            (List.length xs * (2 * Z.to_nat max_retries + 1))%nat).
  { induction xs as [| x xs IH]; cbn [map list_sum fold_right List.length];
      [reflexivity |].
    change (fold_right Init.Nat.add 0%nat
              (map (fun _ : chunk => (2 * Z.to_nat max_retries + 1)%nat) xs))
      with (list_sum (map (fun _ : chunk =>
                             (2 * Z.to_nat max_retries + 1)%nat) xs)).
    rewrite IH. lia. }
  rewrite E. lia.
Qed.

Lemma dispatch_dispatched (p : pool) : dispatched (dispatch p).
Proof.
  unfold dispatched, dispatch. cbn [running queue]. intros E.
  apply app_eq_nil in E. destruct E as [E1 E2]. rewrite E1 in *.
  cbn in E2 |- *. unfold max_workers in *.
  destruct (queue p) as [| c q]; [reflexivity | discriminate E2].
Qed.

Lemma dispatch_ok (id : string) (p : pool) :
  Forall (worker_ok max_retries id) (running p) ->
  Forall (worker_ok max_retries id) (running (dispatch p)).
Proof.
  intros H. unfold dispatch. cbn [running]. apply Forall_app. split; [exact H |].
  apply Forall_forall. intros w Hw. apply in_map_iff in Hw.
  destruct Hw as (c & <- & _). exact I.
Qed.

Lemma has_request_app_l (id : string) (c : chunk) (evs1 evs2 : list event) :
  has_request id c evs1 -> has_request id c (evs1 ++ evs2).
Proof. intros [r H]. exists r. apply in_or_app. auto. Qed.

Lemma has_request_app_r (id : string) (c : chunk) (evs1 evs2 : list event) :
  has_request id c evs2 -> has_request id c (evs1 ++ evs2).
Proof. intros [r H]. exists r. apply in_or_app. auto. Qed.

(** The pool, from any point of its run on: every task that has not ended
    ends; what is observed are the requests and back-offs of these tasks;
    the counter counts the acknowledged parts; a future holds a part only
    for its own chunk. *)
Lemma run_pool_spec (id : string) (total : Z) (start_time : Float.float)
    (fuel : nat) :
  forall (p : pool) (st : state S) futures st',
    upload_id st = Some id ->
    Forall (worker_ok max_retries id) (running p) ->
    dispatched p ->
    (pool_moves max_retries p <= fuel)%nat ->
    run_pool s3 max_retries total start_time fuel p st = (futures, st') ->
    exists evs new,
      extends st st' evs /\
      s3_config st' = s3_config st /\
      parts_completed st' =
        parts_completed st + Z.of_nat (List.length (acks evs)) /\
      Forall (fun ev => exists c, In c (tasks_of p) /\ task_event id c ev)
        evs /\
      futures = finished p ++ new /\
      Permutation (map fst new) (tasks_of p) /\
      Forall (fun f => forall q, snd f = Ok (Some q) ->
                         PartNumber q = part_number (fst f)) new /\
      (all_held new -> Permutation (acks evs) (held new)) /\
      (1 <= max_retries ->
       Forall (fun w => is_backoff w = false ->
                        has_request id (task w) evs) (running p) /\
       Forall (fun c => has_request id c evs) (queue p)).
Proof.
  assert (Hidle : forall (p : pool) (st : state S),
    running p = [] -> dispatched p ->
    exists evs new,
      extends st st evs /\
      s3_config st = s3_config st /\
      parts_completed st =
        parts_completed st + Z.of_nat (List.length (acks evs)) /\
      Forall (fun ev => exists c, In c (tasks_of p) /\ task_event id c ev)
        evs /\
      finished p = finished p ++ new /\
      Permutation (map fst new) (tasks_of p) /\
      Forall (fun f => forall q, snd f = Ok (Some q) ->
                         PartNumber q = part_number (fst f)) new /\
      (all_held new -> Permutation (acks evs) (held new)) /\
      (1 <= max_retries ->
       Forall (fun w => is_backoff w = false ->
                        has_request id (task w) evs) (running p) /\
       Forall (fun c => has_request id c evs) (queue p))).
  { intros p st Hrun Hd. specialize (Hd Hrun).
    exists [], []. unfold tasks_of. rewrite Hrun, Hd, app_nil_r. cbn.
    splits; auto with uploader; try lia.
    symmetry. apply app_nil_r. }
  induction fuel as [| fuel IH]; intros p st futures st' Hid Hok Hd Hfuel H.
  { cbn in H. inversion H; subst. apply Hidle; [| exact Hd].
    apply list_sum_moves_nil. unfold pool_moves in Hfuel. lia. }
  cbn [run_pool] in H.
  destruct (running p) as [| w0 ws] eqn:Hrun.
  { inversion H; subst. rewrite <- Hrun. apply Hidle; assumption. }
  rewrite <- Hrun in *.
  set (n := List.length (running p)) in *.
  set (i := (choose s3 n (remote st) mod n)%nat) in *.
  assert (Hn : n <> 0%nat) by (unfold n; rewrite Hrun; discriminate).
  assert (Hi : (i < n)%nat) by (apply Nat.mod_upper_bound; exact Hn).
  set (w := nth i (running p) w0) in *.
  destruct (worker_step s3 max_retries total start_time w st)
    as [next st1] eqn:Hstep.
  assert (Hin_w : In w (running p)) by (apply nth_In; exact Hi).
  assert (Hok_w : worker_ok max_retries id w).
  { rewrite Forall_forall in Hok. apply Hok. exact Hin_w. }
  eapply worker_step_spec in Hstep; [| exact Hid | exact Hok_w].
  destruct Hstep as (evs1 & Hext1 & Hcfg1 & Hpc1 & Hall1 & Hreq1 & Hnext).
  assert (Hid1 : upload_id st1 = Some id).
  { destruct Hext1 as (_ & _ & U). congruence. }
  assert (Hall1' : Forall (fun ev => exists c, In c (tasks_of p) /\
                                               task_event id c ev) evs1).
  { eapply Forall_impl; [| exact Hall1]. intros ev Hev.
    exists (task w). split; [| exact Hev].
    unfold tasks_of. apply in_or_app. left. apply in_map. exact Hin_w. }
  destruct next as [w' | r].
  - (* the task goes on *)
    destruct Hnext as (Htask & Hok' & Hmoves & Hacks1).
    destruct (pick_split (running p) w0 w' Hi) as (l1 & l2 & Hl & Hset & _).
    fold w in Hl.
    set (p' := {| queue := queue p; running := set_nth i w' (running p);
                  finished := finished p |}) in *.
    assert (Htasks : tasks_of p' = tasks_of p).
    { unfold tasks_of, p'. cbn [running queue]. rewrite Hset.
      rewrite Hl. rewrite !map_app. cbn [map]. rewrite Htask.
      reflexivity. }
    eapply IH in H; [| exact Hid1 | | |].
    2:{ cbn [running p']. rewrite Hset. rewrite Hl in Hok.
        apply Forall_app in Hok. destruct Hok as [Hok1 Hok2].
        apply Forall_app. split; [exact Hok1 |].
        inversion Hok2; subst. constructor; assumption. }
    2:{ unfold dispatched. cbn [running p']. rewrite Hset. intros E.
        destruct l1; discriminate E. }
    2:{ unfold pool_moves in *. cbn [running queue p']. rewrite Hset.
        rewrite Hl in Hfuel. rewrite !map_app in *. cbn [map] in *.
        rewrite list_sum_middle in *. lia. }
    destruct H as (evs2 & new & Hext2 & Hcfg2 & Hpc2 & Hall2 & Hfut & Hperm &
                   Hnum & Hheld & Hreq2).
    rewrite Htasks in Hall2, Hperm.
    exists (evs1 ++ evs2), new. splits; auto.
    + eapply extends_trans; eauto.
    + congruence.
    + rewrite acks_app, length_app, Hpc2, Hpc1. lia.
    + apply Forall_app. auto.
    + intros Hh. rewrite acks_app, Hacks1. cbn. auto.
    + intros Hmr. destruct (Hreq2 Hmr) as [Hrun2 Hq2].
      cbn [running queue p'] in Hrun2, Hq2. rewrite Hset in Hrun2.
      apply Forall_app in Hrun2. destruct Hrun2 as [Hr1 Hr2].
      inversion Hr2 as [| x xs _ Hr3]; subst.
      split.
      * rewrite Hl. apply Forall_app. split.
        -- eapply Forall_impl; [| exact Hr1].
           intros x Hx E. apply has_request_app_r. auto.
        -- constructor.
           ++ intros E. apply has_request_app_l. auto.
           ++ eapply Forall_impl; [| exact Hr3].
              intros x Hx E. apply has_request_app_r. auto.
      * eapply Forall_impl; [| exact Hq2].
        intros c Hc. apply has_request_app_r. exact Hc.
  - (* the task ends *)
    destruct (pick_split (running p) w0 w Hi) as (l1 & l2 & Hl & _ & Hdrop).
    fold w in Hl.
    set (q := {| queue := queue p; running := drop_nth i (running p);
                 finished := finished p ++ [(task w, r)] |}) in *.
    assert (Htasks : Permutation (task w :: tasks_of (dispatch q))
                       (tasks_of p)).
    { rewrite dispatch_tasks. unfold tasks_of, q. cbn [running queue].
      rewrite Hdrop. rewrite Hl. rewrite !map_app. cbn [map].
      rewrite <- !app_assoc. cbn [app].
      apply Permutation_middle. }
    assert (Hsub : forall c, In c (tasks_of (dispatch q)) ->
                             In c (tasks_of p)).
    { intros c Hc. eapply Permutation_in; [exact Htasks |]. right. exact Hc. }
    eapply IH in H; [| exact Hid1 | | apply dispatch_dispatched |].
    2:{ apply dispatch_ok. cbn [running q]. rewrite Hdrop.
        rewrite Hl in Hok. apply Forall_app in Hok.
        destruct Hok as [Hok1 Hok2]. apply Forall_app. split; [exact Hok1 |].
        inversion Hok2; subst. assumption. }
    2:{ rewrite dispatch_moves. unfold pool_moves in *.
        cbn [running queue q]. rewrite Hdrop. rewrite Hl in Hfuel.
        rewrite !map_app in *. cbn [map] in *.
        rewrite list_sum_middle in Hfuel. rewrite <- map_app.
        pose proof (moves_pos w). rewrite map_app. lia. }
    destruct H as (evs2 & new & Hext2 & Hcfg2 & Hpc2 & Hall2 & Hfut & Hperm &
                   Hnum & Hheld & Hreq2).
    exists (evs1 ++ evs2), ((task w, r) :: new). splits.
    + eapply extends_trans; eauto.
    + congruence.
    + rewrite acks_app, length_app, Hpc2, Hpc1. lia.
    + apply Forall_app. split; [exact Hall1' |].
      eapply Forall_impl; [| exact Hall2].
      intros ev (c & Hc & Hev). exists c. auto.
    + rewrite Hfut. unfold dispatch. cbn [finished q].
      rewrite <- app_assoc. reflexivity.
    + cbn [map fst]. rewrite Hperm. exact Htasks.
    + constructor; [| exact Hnum].
      cbn [fst snd]. intros q0 E. apply (Hnext q0 E).
    + intros Hh. inversion Hh as [| f fs [q0 Hq0] Hh']; subst.
      cbn [snd] in Hq0. subst r.
      destruct (Hnext q0 eq_refl) as [_ Hacks1].
      rewrite acks_app, Hacks1. unfold held. cbn [flat_map snd app].
      constructor. apply Hheld. exact Hh'.
    + intros Hmr. destruct (Hreq2 Hmr) as [Hrun2 Hq2].
      unfold dispatch in Hrun2, Hq2. cbn [running queue q] in Hrun2, Hq2.
      rewrite Hdrop in Hrun2, Hq2.
      apply Forall_app in Hrun2. destruct Hrun2 as [Hr12 Hfresh].
      apply Forall_app in Hr12. destruct Hr12 as [Hr1 Hr2].
      split.
      * rewrite Hl. apply Forall_app. split.
        -- eapply Forall_impl; [| exact Hr1].
           intros x Hx E. apply has_request_app_r. auto.
        -- constructor.
           ++ intros E. apply has_request_app_l. auto.
           ++ eapply Forall_impl; [| exact Hr2].
              intros x Hx E. apply has_request_app_r. auto.
      * rewrite <- (firstn_skipn
                      (max_workers - List.length (l1 ++ l2)) (queue p)).
        apply Forall_app. split.
        -- apply Forall_forall. intros c Hc.
           rewrite Forall_forall in Hfresh.
           apply has_request_app_r.
           apply (Hfresh (Fresh c)); [| reflexivity].
           apply in_map. exact Hc.
        -- eapply Forall_impl; [| exact Hq2].
           intros c Hc. apply has_request_app_r. exact Hc.
Qed.

(** The [with] block of the driver: every chunk of the plan gets its
    future. *)
Lemma executor_spec (id : string) (total : Z) (start_time : Float.float)
    (plan : list chunk) (st st' : state S)
    (r : outcome (list (chunk * outcome (option part)))) :
  upload_id st = Some id ->
  executor s3 max_retries plan total start_time st = (r, st') ->
  exists futures evs,
    r = Ok futures /\
    extends st st' evs /\
    s3_config st' = s3_config st /\
    parts_completed st' =
      parts_completed st + Z.of_nat (List.length (acks evs)) /\
    Forall (fun ev => exists c, In c plan /\ task_event id c ev) evs /\
    Permutation (map fst futures) plan /\
    Forall (fun f => forall q, snd f = Ok (Some q) ->
                       PartNumber q = part_number (fst f)) futures /\
    (all_held futures -> Permutation (acks evs) (held futures)) /\
    (1 <= max_retries -> Forall (fun c => has_request id c evs) plan).
Proof.
  intros Hid H. unfold executor in H.
  set (q0 := {| queue := plan; running := []; finished := [] |}) in *.
  destruct (run_pool s3 max_retries total start_time (pool_fuel max_retries plan)
              (dispatch q0) st) as [futures st1] eqn:Hrun.
  inversion H; subst r st1. clear H.
  assert (Htasks : tasks_of (dispatch q0) = plan).
  { rewrite dispatch_tasks. reflexivity. }
  eapply run_pool_spec in Hrun; [| exact Hid | | apply dispatch_dispatched |].
  2:{ apply dispatch_ok. constructor. }
  2:{ rewrite dispatch_moves. unfold pool_moves, pool_fuel, q0.
      cbn [running queue map list_sum fold_right]. lia. }
  destruct Hrun as (evs & new & Hext & Hcfg & Hpc & Hall & Hfut & Hperm &
                    Hnum & Hheld & Hreq).
  rewrite Htasks in Hall, Hperm. cbn [finished dispatch q0 app] in Hfut.
  subst new. exists futures, evs. splits; auto.
  intros Hmr. destruct (Hreq Hmr) as [Hrun Hq].
  unfold dispatch in Hrun, Hq. cbn [running queue q0 app] in Hrun, Hq.
  rewrite <- (firstn_skipn (max_workers - @List.length worker []) plan).
  apply Forall_app. split; [| exact Hq].
  apply Forall_forall. intros c Hc. rewrite Forall_forall in Hrun.
  apply (Hrun (Fresh c)); [| reflexivity]. apply in_map. exact Hc.
Qed.

(** Picking up the results touches nothing; the parts come in some order,
    and an exception raised is the exception of one of the futures. *)
Lemma as_completed_spec {A} (n : nat) :
  forall (futures : list (outcome A)) (st st' : state S)
         (r : outcome (list A)),
    n = List.length futures ->
    as_completed s3 n futures st = (r, st') ->
    st' = st /\
    match r with
    | Ok parts => Permutation (map Ok parts) futures
    | Raise e => In (Raise e) futures
    end.
Proof.
  induction n as [| n IH]; intros futures st st' r Hn H.
  { destruct futures; [| discriminate Hn].
    cbn in H. unfold ret in H. inversion H; subst. auto. }
  destruct futures as [| f0 fs]; [discriminate Hn |].
  cbn [as_completed] in H. unfold bind at 1 in H. unfold get at 1 in H.
  set (l := f0 :: fs) in *.
  set (i := (choose s3 (List.length l) (remote st) mod List.length l)%nat)
    in *.
  assert (Hi : (i < List.length l)%nat).
  { apply Nat.mod_upper_bound. unfold l. discriminate. }
  destruct (pick_split l f0 f0 Hi) as (l1 & l2 & Hl & _ & Hdrop).
  unfold bind at 1 in H. unfold of_outcome in H.
  destruct (nth i l f0) as [a | e] eqn:Hnth.
  2:{ inversion H; subst. split; [reflexivity |].
      rewrite Hl. apply in_or_app. right. left. reflexivity. }
  unfold bind in H.
  destruct (as_completed s3 n (drop_nth i l) st) as [rs st1] eqn:Hrest.
  apply IH in Hrest.
  2:{ rewrite Hdrop. rewrite Hl in Hn. rewrite length_app in *.
      cbn [List.length] in Hn. lia. }
  destruct Hrest as [-> Hrs]. rewrite Hdrop in Hrs.
  destruct rs as [parts | e]; unfold ret in H; inversion H; subst.
  - split; [reflexivity |]. cbn [map]. rewrite Hl.
    apply Permutation_cons_app. exact Hrs.
  - split; [reflexivity |]. rewrite Hl.
    apply in_app_or in Hrs. apply in_or_app.
    destruct Hrs; [left | right; right]; assumption.
Qed.

Lemma held_of_gathered (futures : list (chunk * outcome (option part)))
    (keyed : list part) :
  Permutation (map Ok (map Some keyed)) (map snd futures) ->
  all_held futures /\ Permutation keyed (held futures).
Proof.
  intros H. split.
  - apply Forall_forall. intros f Hf.
    assert (Hin : In (snd f) (map Ok (map Some keyed))).
    { eapply Permutation_in; [apply Permutation_sym; exact H |].
      apply in_map. exact Hf. }
    apply in_map_iff in Hin. destruct Hin as (x & Hx & Hin).
    apply in_map_iff in Hin. destruct Hin as (q & <- & _). eauto.
  - set (g := fun r : outcome (option part) =>
                match r with
                | Ok (Some p) => [p]
                | _ => []
                end).
    assert (E1 : flat_map g (map Ok (map Some keyed)) = keyed).
    { clear H. induction keyed as [| q keyed IH]; [reflexivity |].
      cbn. f_equal. exact IH. }
    assert (E2 : flat_map g (map snd futures) = held futures).
    { clear H. unfold held.
      induction futures as [| f futures IH]; [reflexivity |].
      cbn [map flat_map]. rewrite IH. reflexivity. }
    rewrite <- E1, <- E2. apply Permutation_flat_map. exact H.
Qed.

Lemma held_numbers (futures : list (chunk * outcome (option part))) :
  all_held futures ->
  Forall (fun f => forall q, snd f = Ok (Some q) ->
                     PartNumber q = part_number (fst f)) futures ->
  map PartNumber (held futures) = map part_number (map fst futures).
Proof.
  unfold held. induction futures as [| f futures IH]; intros Hh Hn;
    [reflexivity |].
  inversion Hh as [| f' fs' [q Hq] Hh']; subst.
  inversion Hn as [| f' fs' Hq' Hn']; subst.
  cbn [flat_map map]. rewrite Hq. cbn [app map].
  rewrite (Hq' q Hq). f_equal. apply IH; assumption.
Qed.

Lemma task_event_phase (id : string) (plan : list chunk) (evs : list event) :
  Forall (fun ev => exists c, In c plan /\ task_event id c ev) evs ->
  Forall (fun ev => is_sleep ev = true \/ is_upload_part ev = true) evs.
Proof.
  intros H. eapply Forall_impl; [| exact H].
  intros ev (c & _ & Hev). destruct ev; cbn in *; auto; contradiction.
Qed.

Lemma sorted_by_PartNumber_spec (parts : list (option part)) :
  forall (st : state S) r st',
    sorted_by_PartNumber parts st = (r, st') -> st' = st.
Proof.
  unfold sorted_by_PartNumber. intros st r st' H. unfold bind in H.
  assert (Hk : forall (ps : list (option part)) (st0 : state S) r0 st1,
    for_each (fun p : option part =>
                match p with
                | Some x => ret x
                | None => raise TypeError
                end) ps st0 = (r0, st1) -> st1 = st0).
  { induction ps as [| p ps IH]; intros st0 r0 st1 H0.
    - cbn in H0. unfold_monad. inversion H0; reflexivity.
    - cbn [for_each] in H0. unfold bind in H0.
      destruct p as [x |]; [| unfold raise in H0; inversion H0; reflexivity].
      unfold ret at 1 in H0.
      destruct (for_each _ ps st0) as [[ys | e] st2] eqn:H2;
        apply IH in H2; unfold ret in H0; inversion H0; subst; reflexivity. }
  destruct (for_each _ parts st) as [[keyed | e] st1] eqn:H1;
    apply Hk in H1; unfold ret in H; inversion H; subst; reflexivity.
Qed.

(** The recount: list requests and back-offs; a listing that came back is
    the one returned. *)
Lemma recount_spec (id : string) (st st' : state S)
    (seen : outcome (option (list part))) :
  upload_id st = Some id ->
  call_with_524_retry s3 max_retries (fetch_parts s3) st = (seen, st') ->
  exists evs,
    extends st st' evs /\
    s3_config st' = s3_config st /\
    Forall (fun ev => is_sleep ev = true \/ is_list_parts ev = true) evs /\
    (forall u found, In (ListParts u (Ok found)) evs ->
                     seen = Ok (Some found)) /\
    (forall found, seen = Ok (Some found) ->
                   In (ListParts id (Ok found)) evs).
Proof.
  intros Hid H. unfold call_with_524_retry in H.
  eapply call_with_524_retry_loop_spec
    with (mk := ListParts id) (inv := fun st0 => upload_id st0 = Some id)
    in H; auto.
  - destruct H as (evs & Hext & _ & Hcfg & _ & Hall & _ & Hin & Hok & _).
    exists evs. splits; auto.
    + eapply Forall_impl; [| exact Hall].
      intros ev [E | [r0 ->]]; auto.
    + intros u found Hev. rewrite Forall_forall in Hall.
      destruct (Hall _ Hev) as [E | [r0 E]]; [discriminate E |].
      inversion E; subst. auto.
    + intros found E. destruct (Hok found E) as [pre ->].
      apply in_or_app. right. left. reflexivity.
  - intros st0 r st1 Hinv Hc. eapply one_call_fetch_parts; eauto.
  - intros r1 r2 E. inversion E. reflexivity.
Qed.

(** Creating the session: create requests and back-offs; the identifier
    returned is the one of the request that went through. *)
Lemma create_spec (st st' : state S) (resp : outcome (option string)) :
  call_with_524_retry s3 max_retries (create_multipart_upload s3) st
    = (resp, st') ->
  exists evs,
    extends st st' evs /\
    Forall (fun ev => is_sleep ev = true \/ is_create ev = true) evs /\
    (forall id, In (CreateMultipartUpload (Ok id)) evs -> resp = Ok (Some id)).
Proof.
  intros H. unfold call_with_524_retry in H.
  eapply call_with_524_retry_loop_spec
    with (mk := CreateMultipartUpload) (inv := fun _ => True) in H; auto.
  - destruct H as (evs & Hext & _ & _ & _ & Hall & _ & Hin & _ & _).
    exists evs. splits; auto.
    eapply Forall_impl; [| exact Hall].
    intros ev [E | [r0 ->]]; auto.
  - intros st0 r st1 _ Hc. eapply one_call_create; eauto.
  - intros r1 r2 E. inversion E. reflexivity.
Qed.



(** The four phases of the [try] block put together: part uploads [ups],
    recount [lists] with the listing [listed] it returned, completion
    [coord] and verification [verify]. *)
Lemma body_post_assemble (id : string) (total completion file_size : Z)
    (r : outcome unit) (ups lists coord verify : list event)
    (listed : option (list part)) :
  Forall (fun ev => is_sleep ev = true \/ is_upload_part ev = true) ups ->
  Forall (fun ev => is_sleep ev = true \/ is_list_parts ev = true) lists ->
  (forall u found, In (ListParts u (Ok found)) lists -> listed = Some found) ->
  (forall found, listed = Some found -> In (ListParts id (Ok found)) lists) ->
  Forall (fun ev => is_sleep ev = true \/ is_complete ev = true \/
                    is_head ev = true) coord ->
  (forall n tm, nth_error (complete_timeouts coord) n = Some tm ->
                tm = completion * 2 ^ Z.of_nat n) ->
  Forall (fun ev => is_sleep ev = true \/ is_head ev = true) verify ->
  (coord <> [] ->
   exists found, listed = Some found /\ Z.of_nat (List.length found) = total) ->
  (forall found, listed = Some found ->
     Z.of_nat (List.length found) <> total -> is_ok r = false) ->
  (r = Ok tt ->
   exists pre cfg, verify = pre ++ [HeadObject cfg (Ok (Some file_size))]) ->
  body_post id total completion file_size r (ups ++ lists ++ coord ++ verify).
Proof.
  intros Hups Hlists Hlisted Hfound Hcoord Htm Hverify Hgate Hbad Hok.
  assert (Qups : Forall (fun ev => is_complete ev = false) ups).
  { eapply Forall_impl; [| exact Hups].
    intros ev [E | E]; destruct ev; try discriminate E; reflexivity. }
  assert (Qlists : Forall (fun ev => is_complete ev = false) lists).
  { eapply Forall_impl; [| exact Hlists].
    intros ev [E | E]; destruct ev; try discriminate E; reflexivity. }
  assert (Qverify : Forall (fun ev => is_complete ev = false) verify).
  { eapply Forall_impl; [| exact Hverify].
    intros ev [E | E]; destruct ev; try discriminate E; reflexivity. }
  assert (Hwhere : forall u found,
            In (ListParts u (Ok found)) (ups ++ lists ++ coord ++ verify) ->
            In (ListParts u (Ok found)) lists).
  { intros u found Hin.
    rewrite Forall_forall in Hups, Hcoord, Hverify.
    apply in_app_or in Hin. destruct Hin as [Hin | Hin].
    { destruct (Hups _ Hin) as [E | E]; discriminate E. }
    apply in_app_or in Hin. destruct Hin as [Hin | Hin]; [exact Hin |].
    apply in_app_or in Hin. destruct Hin as [Hin | Hin].
    { destruct (Hcoord _ Hin) as [E | [E | E]]; discriminate E. }
    destruct (Hverify _ Hin) as [E | E]; discriminate E. }
  unfold body_post. splits.
  - repeat (apply Forall_app; split);
      [eapply Forall_impl; [| exact Hups]
      | eapply Forall_impl; [| exact Hlists]
      | eapply Forall_impl; [| exact Hcoord]
      | eapply Forall_impl; [| exact Hverify]];
      intros ev E; destruct ev; cbn in *; intuition discriminate.
  - rewrite !complete_timeouts_app, (no_complete_timeouts Qups),
      (no_complete_timeouts Qlists), (no_complete_timeouts Qverify),
      app_nil_r.
    exact Htm.
  - intros (ev & Hin & Hev).
    assert (Hne : coord <> []).
    { intros E. subst coord.
      rewrite Forall_forall in Qups, Qlists, Qverify.
      apply in_app_or in Hin. destruct Hin as [Hin | Hin].
      { rewrite (Qups _ Hin) in Hev. discriminate Hev. }
      apply in_app_or in Hin. destruct Hin as [Hin | Hin].
      { rewrite (Qlists _ Hin) in Hev. discriminate Hev. }
      cbn in Hin. rewrite (Qverify _ Hin) in Hev. discriminate Hev. }
    destruct (Hgate Hne) as (found & Hl & Hlen).
    exists found. split; [| exact Hlen].
    apply in_or_app. right. apply in_or_app. left. auto.
  - intros u found Hin Hlen. apply Hwhere in Hin. apply Hlisted in Hin.
    split; [eapply Hbad; eauto |].
    assert (Hnil : coord = []).
    { destruct coord as [| ev coord']; [reflexivity |].
      destruct Hgate as (found' & Hl & Hlen'); [discriminate |]. congruence. }
    subst coord. repeat (apply Forall_app; split); auto.
  - intros E. destruct (Hok E) as (pre & cfg & ->).
    exists (ups ++ lists ++ coord ++ pre), cfg.
    rewrite <- !app_assoc. reflexivity.
Qed.

Lemma size_eqb_true (uploaded_size : option Z) (size : Z) :
  size_eqb uploaded_size size = true -> uploaded_size = Some size.
Proof.
  destruct uploaded_size as [n |]; cbn; [| discriminate].
  intros E. apply Z.eqb_eq in E. congruence.
Qed.

Lemma complete_with_timeout_retry_unfold (id : string) (parts : list part)
    (initial_timeout expected_size : Z) (st : state S) :
  upload_id st = Some id ->
  complete_with_timeout_retry s3 max_retries parts initial_timeout
    expected_size st =
  complete_loop s3 max_retries id parts expected_size
    (range 1 (max_retries + 1)) initial_timeout None st.
Proof.
  intros Hid. unfold complete_with_timeout_retry. unfold_monad.
  rewrite Hid. reflexivity.
Qed.


(** Side conditions of [body_post_assemble] for a phase that did not run. *)
Ltac phase_skipped :=
  eauto;
  try discriminate;
  try (let E := fresh in intros [| ?] ? E; cbn in E; discriminate E);
  try (let E := fresh in intros ? ? E; cbn in E; contradiction);
  try (intros; congruence).

Lemma upload_body_spec (id : string) (total completion : Z)
    (start_time : Float.float) (st st' : state S) (r : outcome unit) :
  upload_id st = Some id ->
  0 <= completion ->
  upload_body s3 part_size max_retries getsize total completion start_time st
    = (r, st') ->
  exists evs,
    extends st st' evs /\ body_post id total completion getsize r evs.
Proof.
  intros Hid Hcompletion H. unfold upload_body in H. unfold bind in H.
  (* part uploads *)
  destruct (executor s3 max_retries (chunk_plan getsize part_size total)
              total start_time st) as [futures st1] eqn:Hpool.
  eapply executor_spec in Hpool; [| exact Hid].
  destruct Hpool as (futures0 & ups & -> & Hext1 & _ & _ & Hplanned & _).
  pose proof (@task_event_phase _ _ _ Hplanned) as Hups.
  assert (Hid1 : upload_id st1 = Some id).
  { destruct Hext1 as (_ & _ & U). congruence. }
  assert (Hexit1 : forall e, (Raise e, st1) = (r, st') ->
    exists evs, extends st st' evs /\
                body_post id total completion getsize r evs).
  { intros e E. inversion E; subst r st'.
    exists (ups ++ [] ++ [] ++ []). split.
    - rewrite !app_nil_r. exact Hext1.
    - apply body_post_assemble with (listed := None); phase_skipped. }
  destruct (as_completed s3 (List.length futures0) (map snd futures0) st1)
    as [parts st1'] eqn:Hgather.
  apply as_completed_spec in Hgather; [| rewrite length_map; reflexivity].
  destruct Hgather as [-> _].
  destruct parts as [parts | e]; [| eauto].
  (* recount *)
  destruct (call_with_524_retry s3 max_retries (fetch_parts s3) st1)
    as [seen st2] eqn:Hrecount.
  eapply recount_spec in Hrecount; [| exact Hid1].
  destruct Hrecount as (lists & Hext2 & _ & Hlists & Hlisted & Hfound).
  assert (Hext12 : extends st st2 (ups ++ lists)).
  { eapply extends_trans; eauto. }
  assert (Hid2 : upload_id st2 = Some id).
  { destruct Hext2 as (_ & _ & U). congruence. }
  assert (Hexit2 : forall e listed,
    (Raise e, st2) = (r, st') ->
    (forall u found, In (ListParts u (Ok found)) lists -> listed = Some found) ->
    (forall found, listed = Some found -> In (ListParts id (Ok found)) lists) ->
    exists evs, extends st st' evs /\
                body_post id total completion getsize r evs).
  { intros e listed E Hl1 Hl2. inversion E; subst r st'.
    exists (ups ++ lists ++ [] ++ []). split.
    - rewrite !app_nil_r. exact Hext12.
    - apply body_post_assemble with (listed := listed); phase_skipped. }
  destruct seen as [[found |] | e].
  3:{ apply Hexit2 with (e := e) (listed := None); auto.
      - intros u found Hin. apply Hlisted in Hin. discriminate Hin.
      - discriminate. }
  2:{ unfold raise in H. apply Hexit2 with (e := TypeError) (listed := None); auto.
      - intros u found Hin. apply Hlisted in Hin. discriminate Hin.
      - discriminate. }
  unfold ret at 1 in H.
  assert (Hl1 : forall u found',
            In (ListParts u (Ok found')) lists -> Some found = Some found').
  { intros u found' Hin. apply Hlisted in Hin. congruence. }
  assert (Hl2 : forall found', Some found = Some found' ->
                               In (ListParts id (Ok found')) lists).
  { intros found' E. apply Hfound. congruence. }
  destruct (Z.eqb_spec (Z.of_nat (List.length found)) total) as [Hlen | Hlen];
    cbn [negb] in H.
  2:{ unfold raise in H. eapply Hexit2; eauto. }
  destruct (sorted_by_PartNumber parts st2) as [parts_sorted st2'] eqn:Hsort.
  apply sorted_by_PartNumber_spec in Hsort. subst st2'.
  destruct parts_sorted as [parts_sorted | e]; [| eapply Hexit2; eauto].
  (* completion *)
  erewrite complete_with_timeout_retry_unfold in H; [| exact Hid2].
  destruct (complete_loop s3 max_retries id parts_sorted getsize
              (range 1 (max_retries + 1)) completion None st2)
    as [done st3] eqn:Hcoord.
  eapply complete_loop_spec in Hcoord; [| reflexivity | exact Hcompletion].
  destruct Hcoord as (coord & Hext3 & Hkind & Htm & _).
  assert (Hext123 : extends st st3 (ups ++ lists ++ coord)).
  { eapply extends_trans; [exact Hext1 |]. eapply extends_trans; eauto. }
  assert (Hgate : forall l : list event, l <> [] ->
            exists found', Some found = Some found' /\
                           Z.of_nat (List.length found') = total).
  { intros _ _. exists found. auto. }
  assert (Hbad : forall found', Some found = Some found' ->
            Z.of_nat (List.length found') <> total -> is_ok r = false).
  { intros found' E N. congruence. }
  destruct done as [[] | e].
  2:{ inversion H; subst r st'.
      exists (ups ++ lists ++ coord ++ []). split.
      - rewrite !app_nil_r. exact Hext123.
      - apply body_post_assemble with (listed := Some found); phase_skipped. }
  (* verification *)
  unfold get at 1 in H.
  destruct (call_with_524_retry s3 max_retries
              (head_object s3 (s3_config st3)) st3) as [head st4] eqn:Hverify.
  apply poll_spec in Hverify.
  destruct Hverify as (verify & Hext4 & _ & Hvkind & _ & Hvok & _).
  assert (Hext1234 : extends st st4 (ups ++ lists ++ coord ++ verify)).
  { eapply extends_trans; [exact Hext1 |].
    eapply extends_trans; [exact Hext2 |]. eapply extends_trans; eauto. }
  assert (Hexit4 : forall e, (Raise e, st4) = (r, st') ->
    exists evs, extends st st' evs /\
                body_post id total completion getsize r evs).
  { intros e E. inversion E; subst r st'.
    exists (ups ++ lists ++ coord ++ verify). split; [exact Hext1234 |].
    apply body_post_assemble with (listed := Some found); phase_skipped. }
  destruct head as [[uploaded_size |] | e]; [| unfold ContentLength, raise in H; eauto | eauto].
  unfold ContentLength, ret at 1 in H.
  destruct (size_eqb uploaded_size getsize) eqn:Hsize; cbn [negb] in H;
    [| unfold raise in H; eauto].
  unfold ret in H. inversion H; subst r st'.
  exists (ups ++ lists ++ coord ++ verify). split; [exact Hext1234 |].
  apply body_post_assemble with (listed := Some found); eauto.
  intros _. apply size_eqb_true in Hsize. subst uploaded_size.
  destruct (Hvok _ eq_refl) as [pre ->]. eauto.
Qed.

Lemma completion_timeout_floor (file_size completion : Z) :
  completion_timeout file_size = Ok completion -> 60 <= completion.
Proof.
  unfold completion_timeout.
  destruct (Float.of_int file_size); intros E; inversion E. lia.
Qed.


(** A run of [upload]: planning fails before anything is observed, or the
    session is not created and nothing else is tried, or the session [id]
    is created, kept, and the [try] block runs on it. *)
Lemma upload_spec (st st' : state S) (r : outcome unit) :
  upload s3 part_size max_retries getsize st = (r, st') ->
  (st' = st /\
   exists e, r = Raise e /\
     (total_parts getsize part_size = Raise e \/
      completion_timeout getsize = Raise e)) \/
  exists total completion creates body,
    total_parts getsize part_size = Ok total /\
    completion_timeout getsize = Ok completion /\
    trace st' = trace st ++ creates ++ body /\
    Forall (fun ev => is_sleep ev = true \/ is_create ev = true) creates /\
    ((body = [] /\ is_ok r = false /\ log st' = log st /\
      upload_id st' = upload_id st /\
      forall id, ~ In (CreateMultipartUpload (Ok id)) creates) \/
     exists id,
       (forall id', In (CreateMultipartUpload (Ok id')) creates -> id' = id) /\
       upload_id st' = Some id /\
       log st' = log st ++ failure_report id r /\
       body_post id total completion getsize r body).
Proof.
  intros H. unfold upload in H. cbv zeta in H. unfold bind in H.
  unfold of_outcome at 1 in H.
  destruct (total_parts getsize part_size) as [total | e] eqn:Htotal.
  2:{ inversion H; subst. left. split; [reflexivity |]. eauto. }
  unfold get at 1 in H. cbv beta iota in H.
  unfold of_outcome at 1 in H.
  destruct (completion_timeout getsize) as [completion | e] eqn:Hcompletion.
  2:{ inversion H; subst. left. split; [reflexivity |]. eauto. }
  right. exists total, completion.
  destruct (call_with_524_retry s3 max_retries (create_multipart_upload s3) st)
    as [resp st1] eqn:Hcreate.
  apply create_spec in Hcreate.
  destruct Hcreate as (creates & (Htr1 & Hlog1 & Hid1) & Hkind & Hin).
  assert (Hfail : forall e, (Raise e, st1) = (r, st') ->
            (forall id, resp <> Ok (Some id)) ->
            exists creates0 body,
              Ok total = Ok total /\ Ok completion = Ok completion /\
              trace st' = trace st ++ creates0 ++ body /\
              Forall (fun ev => is_sleep ev = true \/ is_create ev = true)
                creates0 /\
              ((body = [] /\ is_ok r = false /\ log st' = log st /\
                upload_id st' = upload_id st /\
                forall id, ~ In (CreateMultipartUpload (Ok id)) creates0) \/
               exists id,
                 (forall id', In (CreateMultipartUpload (Ok id')) creates0 ->
                              id' = id) /\
                 upload_id st' = Some id /\
                 log st' = log st ++ failure_report id r /\
                 body_post id total completion getsize r body)).
  { intros e E Hresp. inversion E; subst r st'.
    exists creates, []. splits; auto.
    - rewrite app_nil_r. exact Htr1.
    - left. splits; auto. intros id Hi. apply Hin in Hi. eapply Hresp; eauto. }
  destruct resp as [[id |] | e].
  3:{ eapply Hfail; eauto. discriminate. }
  2:{ unfold raise in H. eapply Hfail; eauto. discriminate. }
  unfold ret at 1, modify at 1 in H. unfold try_except in H.
  destruct (upload_body s3 part_size max_retries getsize total completion
              (time_time s3 (remote st)) (set_upload_id (Some id) st1))
    as [rb st2] eqn:Hbody.
  eapply upload_body_spec with (id := id) in Hbody;
    [| reflexivity | apply completion_timeout_floor in Hcompletion; lia].
  destruct Hbody as (body & (Htr2 & Hlog2 & Hid2) & Hpost).
  cbn [trace log upload_id set_upload_id] in Htr2, Hlog2, Hid2.
  exists creates, body.
  assert (Hone : forall id', In (CreateMultipartUpload (Ok id')) creates ->
                             id' = id).
  { intros id' Hi. apply Hin in Hi. congruence. }
  destruct rb as [[] | e].
  - inversion H; subst r st'. splits; auto.
    + rewrite Htr2, Htr1, app_assoc. reflexivity.
    + right. exists id. splits; auto.
      cbn. rewrite app_nil_r. congruence.
  - unfold report_failure in H. unfold_monad. cbn in H.
    rewrite Hid2 in H.
    destruct (String.eqb id EmptyString) eqn:Hempty; inversion H; subst r st';
      (splits; auto;
       [ cbn; rewrite Htr2, Htr1, app_assoc; reflexivity
       | right; exists id; splits; auto;
         cbn; rewrite Hempty, Hlog2, Hlog1; cbn;
         rewrite <- ?app_assoc; reflexivity ]).
Qed.

(** With a plan and at least one try, the first thing [upload] observes is
    a create request. *)
Lemma upload_begins_with_create (total completion : Z) (st st' : state S)
    (r : outcome unit) :
  total_parts getsize part_size = Ok total ->
  completion_timeout getsize = Ok completion ->
  1 <= max_retries ->
  upload s3 part_size max_retries getsize st = (r, st') ->
  exists answer more,
    trace st' = trace st ++ CreateMultipartUpload answer :: more.
Proof.
  intros Htotal Hcompletion Hmr H. unfold upload in H. cbv zeta in H.
  unfold bind in H. rewrite Htotal, Hcompletion in H.
  unfold of_outcome at 1 in H. unfold get at 1 in H. cbv beta iota in H.
  unfold of_outcome at 1 in H.
  destruct (call_with_524_retry s3 max_retries (create_multipart_upload s3) st)
    as [resp st1] eqn:Hcreate.
  unfold call_with_524_retry in Hcreate.
  eapply call_with_524_retry_loop_spec
    with (mk := CreateMultipartUpload) (inv := fun _ => True) in Hcreate; auto.
  2:{ intros st0 r0 st2 _ Hc. eapply one_call_create; eauto. }
  2:{ intros r1 r2 E. inversion E. reflexivity. }
  destruct Hcreate as (evs & (Htr1 & _) & _ & _ & _ & _ & Hfirst & _).
  destruct Hfirst as (answer & more & ->).
  { rewrite range_cons by lia. discriminate. }
  assert (Hstop : forall e, (Raise e, st1) = (r, st') ->
            exists answer0 more0,
              trace st' = trace st ++ CreateMultipartUpload answer0 :: more0).
  { intros e E. inversion E; subst. eauto. }
  destruct resp as [[id |] | e]; [| unfold raise in H; eauto | eauto].
  unfold ret at 1, modify at 1 in H. unfold try_except in H.
  destruct (upload_body s3 part_size max_retries getsize total completion
              (time_time s3 (remote st)) (set_upload_id (Some id) st1))
    as [rb st2] eqn:Hbody.
  eapply upload_body_spec with (id := id) in Hbody;
    [| reflexivity | apply completion_timeout_floor in Hcompletion; lia].
  destruct Hbody as (body & (Htr2 & _) & _).
  cbn [trace set_upload_id] in Htr2.
  assert (Htr : trace st2 =
                trace st ++ CreateMultipartUpload answer :: (more ++ body)).
  { rewrite Htr2, Htr1, <- app_assoc. reflexivity. }
  destruct rb as [[] | e].
  - inversion H; subst. eauto.
  - unfold report_failure in H. unfold_monad. cbn in H.
    destruct (upload_id st2) as [uid |];
      [destruct (String.eqb uid EmptyString) |];
      inversion H; subst; cbn; eauto.
Qed.

End DriverFacts.

(** ** The retry loops *)

(** C10. For every [max_retries <= 0] the retry loops of
    [call_with_524_retry] and of [upload_part] run zero iterations: the
    wrapped call is not made (the state, trace included, is untouched), no
    error comes out of the loop and the result is [None]; the only error
    [upload_part] can raise then is its guard on an unset [upload_id], which
    stands before the loop. *)
Theorem zero_retries_return_None :
  forall (S : Type) (s3 : S3 S) (max_retries : Z) (A : Type) (func : M S A)
         (part_number offset bytes_to_read total : Z)
         (start_time : Float.float) (st : state S),
    max_retries <= 0 ->
    call_with_524_retry s3 max_retries func st = (Ok None, st) /\
    upload_part s3 max_retries part_number offset bytes_to_read total
      start_time st =
      (match upload_id st with
       | Some _ => Ok None
       | None => Raise (RuntimeError "upload_id not set")
       end, st).
Proof.
  intros S s3 max_retries A func part_number offset bytes_to_read total
    start_time st H.
  unfold call_with_524_retry, upload_part. unfold_monad.
  rewrite range_nil by lia. split; [reflexivity |].
  destruct (upload_id st); reflexivity.
Qed.

Lemma zero_retries_return_None_witness :
  0 <= 0 /\
  call_with_524_retry Scripted.client 0
    (head_object Scripted.client None)
    (Scripted.opened "upload-1" Scenario.merged_behind_timeout)
  = (Ok None, Scripted.opened "upload-1" Scenario.merged_behind_timeout) /\
  upload_part Scripted.client 0 1 0 100 1 Float.zero
    (Scripted.opened "upload-1" Scenario.full)
  = (Ok None, Scripted.opened "upload-1" Scenario.full).
Proof.
  split; [lia |]. split.
  - apply (@zero_retries_return_None _ Scripted.client 0 _
             (head_object Scripted.client None) 1 0 100 1 Float.zero
             (Scripted.opened "upload-1" Scenario.merged_behind_timeout));
      lia.
  - apply (@zero_retries_return_None _ Scripted.client 0 _
             (head_object Scripted.client None) 1 0 100 1 Float.zero
             (Scripted.opened "upload-1" Scenario.full));
      lia.
Defined.

(** C5. A storage-full answer (HTTP 507) to a part upload is fatal at
    once: in whatever iteration of the retry loop it arrives, and however
    many attempts are left, [upload_part] raises in that iteration; the
    failed request is the last thing observed, so there is no back-off sleep
    and no further request. *)
Theorem insufficient_storage_is_fatal :
  forall (S : Type) (s3 : S3 S) (max_retries : Z) (uid : string)
         (part_number offset bytes_to_read total : Z)
         (start_time : Float.float) (attempt : Z)
         (rest : list Z) (st : state S) (exc : exn) (s : S),
    s3_upload_part s3 (s3_config st) part_number uid offset bytes_to_read
      (remote st) = (Raise exc, s) ->
    is_insufficient_storage_error exc = true ->
    upload_part_loop s3 max_retries uid part_number offset bytes_to_read
      total start_time (attempt :: rest) st =
    (Raise (RuntimeError "Server reported insufficient storage"),
     observe s (UploadPart part_number uid offset bytes_to_read (Raise exc))
       st).
Proof.
  intros S s3 max_retries uid part_number offset bytes_to_read total
    start_time attempt rest st exc s Hcall Hfull.
  erewrite upload_part_loop_failed; [| exact Hcall]. cbv zeta.
  rewrite Hfull.
  destruct exc as [| | [status |] code | | | | | | | | |]; try discriminate Hfull.
  reflexivity.
Qed.

Lemma insufficient_storage_is_fatal_witness :
  let st := Scripted.opened "upload-1" Scenario.full in
  let run := upload_part Scripted.client 5 1 0 100 1 Float.zero st in
  fst run = Raise (RuntimeError "Server reported insufficient storage") /\
  trace (snd run) = [UploadPart 1 "upload-1" 0 100 (Raise Scenario.storage_full)].
Proof.
  cbv zeta.
  assert (H := @insufficient_storage_is_fatal _ Scripted.client 5 "upload-1"
                 1 0 100 1 Float.zero 1 [2; 3; 4; 5]
                 (Scripted.opened "upload-1" Scenario.full)
                 Scenario.storage_full _ eq_refl eq_refl).
  change (upload_part Scripted.client 5 1 0 100 1 Float.zero
            (Scripted.opened "upload-1" Scenario.full))
    with (upload_part_loop Scripted.client 5 "upload-1" 1 0 100 1 Float.zero
            [1; 2; 3; 4; 5] (Scripted.opened "upload-1" Scenario.full)).
  rewrite H. split; reflexivity.
Defined.

(** ** The completion coordinator *)

Section CoordinatorGrowth.

Variable S : Type.
Variable s3 : S3 S.
Variable max_retries : Z.

Lemma sleep_extends (secs : Z) (st st' : state S) (r : outcome unit) :
  sleep s3 secs st = (r, st') -> exists evs, extends st st' evs.
Proof.
  unfold sleep. destruct (secs <? 0); intros H; inversion H; subst.
  - exists []. auto with uploader.
  - eexists. auto with uploader.
Qed.

(** Whatever the iteration and the timeout, the loop only adds
    observations. *)
Lemma complete_loop_grows (uid : string) (parts : list part)
    (expected_size : Z) (attempts : list Z) :
  forall timeout last_exc (st : state S) r st',
    complete_loop s3 max_retries uid parts expected_size attempts
      timeout last_exc st = (r, st') ->
    exists evs, extends st st' evs.
Proof.
  induction attempts as [| attempt rest IH]; intros timeout last_exc st r st' H.
  - cbn in H. unfold_monad. inversion H; subst. exists []. auto with uploader.
  - rewrite complete_loop_step in H.
    destruct (s3_complete_multipart_upload s3 (Some timeout) uid parts
                (remote st)) as [[[] | exc] s1]; cbv zeta in H.
    { inversion H; subst. eexists. auto with uploader. }
    set (st1 := observe s1 (CompleteMultipartUpload timeout uid parts
                              (Raise exc)) st) in *.
    assert (Hext1 : exists evs, extends st st1 evs).
    { eexists. subst st1. auto with uploader. }
    destruct Hext1 as [evs1 Hext1].
    destruct (isinstance_boto exc); [| inversion H; subst; eauto].
    assert (Hwait : forall rw st2,
      (if (if isinstance_timeout exc then false
           else is_no_such_upload_error exc)
       then (Ok tt, st1) else sleep s3 timeout st1) = (rw, st2) ->
      exists evs, extends st st2 evs).
    { intros rw st2 Hw.
      destruct (if isinstance_timeout exc then false
                else is_no_such_upload_error exc).
      - inversion Hw; subst. eauto.
      - apply sleep_extends in Hw. destruct Hw as [evs2 Hext2].
        eexists. eapply extends_trans; eauto. }
    destruct (if (if isinstance_timeout exc then false
                  else is_no_such_upload_error exc)
              then (Ok tt, st1) else sleep s3 timeout st1)
      as [rw st2]; specialize (Hwait _ _ eq_refl);
      destruct rw as [[] | e]; [| inversion H; subst; exact Hwait].
    destruct Hwait as [evs2 Hext2].
    destruct (call_with_524_retry s3 max_retries
                (head_object s3 (Some timeout)) st2) as [poll st3] eqn:Hp.
    apply poll_spec in Hp. destruct Hp as (polls & Hext3 & _).
    assert (Hext : extends st st3 (evs2 ++ polls))
      by (eapply extends_trans; eauto).
    destruct (poll_confirms poll expected_size).
    { inversion H; subst. eexists. eauto with uploader. }
    destruct (attempt =? max_retries); [inversion H; subst; eauto |].
    apply IH in H. destruct H as [evs4 Hext4].
    eexists. eapply extends_trans; eauto.
Qed.

End CoordinatorGrowth.

(** C1. When a complete request fails with a client-side read or connect
    timeout, the coordinator does not send it again at once: it waits the
    current timeout, then polls with a head request on the same handle,
    and when the poll reports the expected size it returns (DONE); the run
    ends with the poll, so the complete request is not issued again, in
    this iteration or later.  This holds in every iteration of the loop. *)
Theorem timeout_then_confirming_poll_is_done :
  forall (S : Type) (s3 : S3 S) (max_retries : Z) (uid : string)
         (parts : list part) (expected_size attempt : Z) (rest : list Z)
         (timeout : Z) (last_exc : option exn) (st : state S)
         (exc : exn) (s1 : S) (st3 : state S),
    0 <= timeout ->
    s3_complete_multipart_upload s3 (Some timeout) uid parts (remote st)
      = (Raise exc, s1) ->
    isinstance_timeout exc = true ->
    let failed := CompleteMultipartUpload timeout uid parts (Raise exc) in
    let waited :=
      observe (elapse s3 timeout s1) (Sleep timeout) (observe s1 failed st) in
    call_with_524_retry s3 max_retries (head_object s3 (Some timeout)) waited
      = (Ok (Some (Some expected_size)), st3) ->
    complete_loop s3 max_retries uid parts expected_size (attempt :: rest)
      timeout last_exc st = (Ok tt, set_s3_config (Some timeout) st3) /\
    exists r0 polls,
      trace (set_s3_config (Some timeout) st3) =
        trace st ++ failed :: Sleep timeout ::
                    HeadObject (Some timeout) r0 :: polls /\
      Forall (fun ev => is_complete ev = false) polls.
Proof.
  intros S s3 max_retries uid parts expected_size attempt rest timeout
    last_exc st exc s1 st3 Htm Hcall Htimeout failed waited Hpoll.
  assert (Hmr : 1 <= max_retries).
  { destruct (Z_lt_le_dec max_retries 1) as [L | L]; [| exact L].
    unfold call_with_524_retry in Hpoll. rewrite range_nil in Hpoll by lia.
    cbn in Hpoll. unfold ret in Hpoll. discriminate Hpoll. }
  split.
  - rewrite complete_loop_step, Hcall. cbv zeta.
    assert (Hboto : isinstance_boto exc = true)
      by (destruct exc; try discriminate Htimeout; reflexivity).
    rewrite Hboto, Htimeout, sleep_ok by lia.
    cbn [remote observe]. fold failed. fold waited. rewrite Hpoll.
    cbn [poll_confirms size_eqb]. rewrite Z.eqb_refl. reflexivity.
  - apply poll_spec in Hpoll.
    destruct Hpoll as (evs & (Htr & _) & _ & Hkind & Hfirst & _).
    destruct (Hfirst Hmr) as (r0 & polls & ->).
    exists r0, polls. split.
    + cbn [trace set_s3_config]. rewrite Htr. subst waited. cbn [trace observe].
      rewrite <- !app_assoc. reflexivity.
    + inversion Hkind as [| ev l _ Hl]; subst.
      eapply Forall_impl; [| exact Hl].
      intros ev [E | E]; destruct ev; try discriminate E; reflexivity.
Qed.

Lemma timeout_then_confirming_poll_is_done_witness :
  let st := Scripted.opened "upload-1" Scenario.merged_behind_timeout in
  exists st3,
    complete_with_timeout_retry Scripted.client 3 Scenario.three_parts 60 100
      st = (Ok tt, set_s3_config (Some 60) st3) /\
    exists r0 polls,
      trace (set_s3_config (Some 60) st3) =
        trace st ++
        CompleteMultipartUpload 60 "upload-1" Scenario.three_parts
          (Raise Scenario.timeout_error) ::
        Sleep 60 :: HeadObject (Some 60) r0 :: polls /\
      Forall (fun ev => is_complete ev = false) polls.
Proof.
  cbv zeta. eexists.
  change (complete_with_timeout_retry Scripted.client 3 Scenario.three_parts
            60 100
            (Scripted.opened "upload-1" Scenario.merged_behind_timeout))
    with (complete_loop Scripted.client 3 "upload-1" Scenario.three_parts 100
            [1; 2; 3] 60 None
            (Scripted.opened "upload-1" Scenario.merged_behind_timeout)).
  eapply (@timeout_then_confirming_poll_is_done _ Scripted.client 3 "upload-1"
            Scenario.three_parts 100 1 [2; 3] 60 None
            (Scripted.opened "upload-1" Scenario.merged_behind_timeout)
            Scenario.timeout_error);
    [lia | reflexivity | reflexivity | reflexivity].
Defined.

(** C3, as stated, fails: a poll that reports the session missing is not
    followed by another poll.  The coordinator treats it as any failed poll
    and goes on to the next complete request, after whose timeout it waits
    the doubled timeout before it polls again. *)
Lemma poll_reporting_missing_session_is_not_followed_by_poll :
  let run := complete_with_timeout_retry Scripted.client 2
               Scenario.three_parts 60 100
               (Scripted.opened "upload-1"
                  Scenario.poll_reports_missing_session) in
  trace (snd run) =
    [ CompleteMultipartUpload 60 "upload-1" Scenario.three_parts
        (Raise Scenario.timeout_error);
      Sleep 60;
      HeadObject (Some 60) (Raise Scenario.missing_session);
      CompleteMultipartUpload 120 "upload-1" Scenario.three_parts
        (Raise Scenario.timeout_error);
      Sleep 120;
      HeadObject (Some 120) (Ok (Some 0)) ] /\
  ~ polls_right_after_missing_session (trace (snd run)).
Proof.
  cbv zeta. split; [vm_compute; reflexivity |].
  intros Hclaim.
  destruct (Hclaim
    [ CompleteMultipartUpload 60 "upload-1" Scenario.three_parts
        (Raise Scenario.timeout_error); Sleep 60 ]
    (HeadObject (Some 60) (Raise Scenario.missing_session))
    [ CompleteMultipartUpload 120 "upload-1" Scenario.three_parts
        (Raise Scenario.timeout_error);
      Sleep 120;
      HeadObject (Some 120) (Ok (Some 0)) ])
    as (cfg & r & more & E).
  - vm_compute. reflexivity.
  - reflexivity.
  - discriminate E.
Qed.

(** C3, amended.  Whenever the complete request reports that the session
    no longer exists ([NoSuchUpload]), the coordinator skips the wait: the
    poll starts in the state the failed request left, and the head request
    is the very next observation, with no sleep in between.  (A poll that
    reports the session missing gets no such treatment.) *)
Theorem missing_session_on_complete_skips_wait :
  forall (S : Type) (s3 : S3 S) (max_retries : Z) (uid : string)
         (parts : list part) (expected_size attempt : Z) (rest : list Z)
         (timeout : Z) (last_exc : option exn) (st : state S)
         (exc : exn) (s1 : S) (r : outcome unit) (st' : state S),
    1 <= max_retries ->
    s3_complete_multipart_upload s3 (Some timeout) uid parts (remote st)
      = (Raise exc, s1) ->
    is_no_such_upload_error exc = true ->
    complete_loop s3 max_retries uid parts expected_size (attempt :: rest)
      timeout last_exc st = (r, st') ->
    let failed := CompleteMultipartUpload timeout uid parts (Raise exc) in
    exists poll st3 r0 more,
      call_with_524_retry s3 max_retries (head_object s3 (Some timeout))
        (observe s1 failed st) = (poll, st3) /\
      trace st' =
        trace st ++ failed :: HeadObject (Some timeout) r0 :: more.
Proof.
  intros S s3 max_retries uid parts expected_size attempt rest timeout
    last_exc st exc s1 r st' Hmr Hcall Hmissing H failed.
  rewrite complete_loop_step, Hcall in H. cbv zeta in H.
  destruct exc as [| | status [code |] | | | | | | | | |];
    try discriminate Hmissing.
  cbn [isinstance_boto isinstance_timeout] in H. rewrite Hmissing in H.
  fold failed in H.
  destruct (call_with_524_retry s3 max_retries
              (head_object s3 (Some timeout)) (observe s1 failed st))
    as [poll st3] eqn:Hpoll.
  exists poll, st3.
  apply poll_spec in Hpoll.
  destruct Hpoll as (evs & (Htr & _) & _ & _ & Hfirst & _).
  destruct (Hfirst Hmr) as (r0 & polls & ->).
  cbn [trace observe] in Htr.
  assert (Hgrow : exists evs, trace st' = trace st3 ++ evs).
  { destruct (poll_confirms poll expected_size).
    - inversion H; subst. exists []. cbn. rewrite app_nil_r. reflexivity.
    - destruct (attempt =? max_retries).
      + inversion H; subst. exists []. rewrite app_nil_r. reflexivity.
      + apply complete_loop_grows in H. destruct H as (evs & E & _). eauto. }
  destruct Hgrow as (evs & E).
  exists r0, (polls ++ evs). split; [reflexivity |].
  rewrite E, Htr, <- !app_assoc. reflexivity.
Qed.

Lemma missing_session_on_complete_skips_wait_witness :
  let st := Scripted.opened "upload-1"
              Scenario.complete_reports_missing_session in
  exists poll st3 r0 more,
    call_with_524_retry Scripted.client 3
      (head_object Scripted.client (Some 60))
      (observe Scenario.merged
         (CompleteMultipartUpload 60 "upload-1" Scenario.three_parts
            (Raise Scenario.missing_session)) st) = (poll, st3) /\
    trace (snd (complete_with_timeout_retry Scripted.client 3
                  Scenario.three_parts 60 100 st)) =
      trace st ++
      CompleteMultipartUpload 60 "upload-1" Scenario.three_parts
        (Raise Scenario.missing_session) ::
      HeadObject (Some 60) r0 :: more.
Proof.
  cbv zeta.
  change (complete_with_timeout_retry Scripted.client 3 Scenario.three_parts
            60 100
            (Scripted.opened "upload-1"
               Scenario.complete_reports_missing_session))
    with (complete_loop Scripted.client 3 "upload-1" Scenario.three_parts 100
            [1; 2; 3] 60 None
            (Scripted.opened "upload-1"
               Scenario.complete_reports_missing_session)).
  apply (@missing_session_on_complete_skips_wait _ Scripted.client 3
           "upload-1" Scenario.three_parts 100 1 [2; 3] 60 None
           (Scripted.opened "upload-1"
              Scenario.complete_reports_missing_session)
           Scenario.missing_session Scenario.merged
           (fst (complete_loop Scripted.client 3 "upload-1"
                   Scenario.three_parts 100 [1; 2; 3] 60 None
                   (Scripted.opened "upload-1"
                      Scenario.complete_reports_missing_session))));
    [lia | reflexivity | reflexivity | vm_compute; reflexivity].
Defined.

(** C4, as stated, fails.  With [max_retries = 0] the coordinator has no
    attempt to make: it neither succeeds nor raises, whatever the store
    would have answered; it returns normally and observes nothing. *)
Lemma no_attempt_raises_nothing :
  let st := Scripted.opened "upload-1" Scenario.never_merged in
  complete_with_timeout_retry Scripted.client 0 Scenario.three_parts 60 100 st
    = (Ok tt, st) /\
  ~ raises_on_exhaustion Scripted.client 0 Scenario.three_parts 60 100 st.
Proof.
  cbv zeta. split; [reflexivity |].
  intros Hclaim.
  specialize (Hclaim (Ok tt)
                (Scripted.opened "upload-1" Scenario.never_merged) []
                eq_refl eq_refl (Forall_nil _)).
  discriminate Hclaim.
Qed.

(** C4, amended.  When the coordinator, with at least one attempt allowed,
    runs out of attempts without success (no complete request went through
    and no poll reported the expected size) it raises the last error
    captured from a failed complete request: an error has always been
    captured by then, so the generic error never stands in for it.  An error
    of the classes the loop catches comes out only after [max_retries]
    complete requests.  In particular, when the complete requests failed
    with a client timeout and the polls kept reporting another size, the
    error raised is that timeout error.  With [max_retries <= 0] the
    coordinator makes no attempt and returns normally. *)
Theorem exhaustion_raises_the_captured_error :
  forall (S : Type) (s3 : S3 S) (max_retries : Z) (parts : list part)
         (initial_timeout expected_size : Z) (st : state S) (id : string)
         (r : outcome unit) (st' : state S) (evs : list event),
    upload_id st = Some id ->
    0 <= initial_timeout ->
    complete_with_timeout_retry s3 max_retries parts initial_timeout
      expected_size st = (r, st') ->
    trace st' = trace st ++ evs ->
    Forall (fun ev => event_confirms expected_size ev = false) evs ->
    (1 <= max_retries ->
     (exists e, last_complete_error evs = Some e /\ r = Raise e /\
        (isinstance_boto e = true ->
         Z.of_nat (List.length (complete_outcomes evs)) = max_retries)) /\
     (forall exc, (forall o, In o (complete_outcomes evs) -> o = Raise exc) ->
                  r = Raise exc)) /\
    (max_retries <= 0 -> r = Ok tt /\ st' = st).
Proof.
  intros S s3 max_retries parts initial_timeout expected_size st id r st' evs
    Hid Htm H Htrace Hnone.
  erewrite complete_with_timeout_retry_unfold in H; [| exact Hid].
  split.
  2:{ intros Hmr. rewrite range_nil in H by lia. cbn in H. unfold ret in H.
      inversion H; subst. auto. }
  intros Hmr.
  eapply complete_loop_spec in H; [| reflexivity | exact Htm].
  destruct H as (evs0 & (Htr & _) & _ & _ & Hres).
  assert (evs0 = evs) as ->.
  { rewrite Htr in Htrace. apply app_inv_head in Htrace. exact Htrace. }
  destruct r as [[] | e].
  - exfalso. destruct Hres as [Hnil | (ev & Hin & Hev)].
    + rewrite range_cons in Hnil by lia. discriminate Hnil.
    + rewrite Forall_forall in Hnone. rewrite (Hnone _ Hin) in Hev.
      discriminate Hev.
  - destruct Hres as (_ & Hlast & Hlen).
    assert (Hcount : isinstance_boto e = true ->
              Z.of_nat (List.length (complete_outcomes evs)) = max_retries).
    { intros Hb. rewrite (Hlen Hb), range_length. lia. }
    split.
    + exists e. splits; auto.
    + intros exc Hall. unfold last_complete_error in Hlast.
      destruct (complete_outcomes evs) as [| o os] eqn:Hos;
        [discriminate Hlast |].
      assert (Hin : In (last (o :: os) (Ok tt)) (o :: os)).
      { destruct (exists_last (l := o :: os) ltac:(discriminate))
          as (l' & x & E).
        rewrite E, last_last. apply in_or_app. right. left. reflexivity. }
      apply Hall in Hin. rewrite Hin in Hlast. congruence.
Qed.

Lemma exhaustion_raises_the_captured_error_witness :
  let st := Scripted.opened "upload-1" Scenario.never_merged in
  let run := complete_with_timeout_retry Scripted.client 3
               Scenario.three_parts 60 100 st in
  fst run = Raise Scenario.timeout_error /\
  List.length (complete_outcomes (trace (snd run))) = 3%nat.
Proof.
  cbv zeta.
  destruct (@exhaustion_raises_the_captured_error _ Scripted.client 3
              Scenario.three_parts 60 100
              (Scripted.opened "upload-1" Scenario.never_merged) "upload-1"
              (fst (complete_with_timeout_retry Scripted.client 3
                      Scenario.three_parts 60 100
                      (Scripted.opened "upload-1" Scenario.never_merged)))
              (snd (complete_with_timeout_retry Scripted.client 3
                      Scenario.three_parts 60 100
                      (Scripted.opened "upload-1" Scenario.never_merged)))
              (trace (snd (complete_with_timeout_retry Scripted.client 3
                             Scenario.three_parts 60 100
                             (Scripted.opened "upload-1"
                                Scenario.never_merged)))))
    as (Hr & _).
  - reflexivity.
  - lia.
  - vm_compute. reflexivity.
  - vm_compute. reflexivity.
  - vm_compute. repeat constructor.
  - destruct (Hr ltac:(lia)) as [_ Hsame].
    split; [| vm_compute; reflexivity].
    apply Hsame. vm_compute.
    intros o [<- | [<- | [<- | []]]]; reflexivity.
Defined.

(** ** The chunk planner *)

Lemma In_range (i lo hi : Z) : In i (range lo hi) <-> lo <= i < hi.
Proof.
  unfold range. rewrite in_map_iff. split.
  - intros (k & <- & Hk). apply in_seq in Hk. lia.
  - intros H. exists (Z.to_nat (i - lo)). split; [lia |].
    apply in_seq. lia.
Qed.

Lemma plan_chunk_length (file_size part_size total i : Z) :
  0 < part_size ->
  (total - 1) * part_size < file_size <= total * part_size ->
  1 <= i <= total ->
  bytes_to_read (plan_chunk file_size part_size i) =
    (if i <? total then part_size
     else file_size - (total - 1) * part_size) /\
  0 < bytes_to_read (plan_chunk file_size part_size i).
Proof.
  intros Hps Htotal Hi. unfold plan_chunk. cbn [bytes_to_read].
  destruct (Z.ltb_spec i total) as [Hlt | Hge].
  - assert (part_size <= file_size - (i - 1) * part_size) by nia.
    rewrite Z.min_l by lia. lia.
  - assert (i = total) by lia. subst i.
    rewrite Z.min_r by lia. lia.
Qed.

(** From part [i] on, the plan tiles the rest of the file. *)
Lemma covers_from (file_size part_size total : Z) (n : nat) :
  forall i,
    0 < part_size ->
    (total - 1) * part_size < file_size <= total * part_size ->
    1 <= i <= total ->
    n = Z.to_nat (total - i) ->
    covers (map (plan_chunk file_size part_size) (range i (total + 1)))
      ((i - 1) * part_size) file_size.
Proof.
  induction n as [| n IH]; intros i Hps Htotal Hi Hn;
    rewrite range_cons by lia; cbn [map covers];
    destruct (@plan_chunk_length file_size part_size total i Hps Htotal Hi)
      as [Hlen Hpos];
    (split; [reflexivity |]); (split; [exact Hpos |]); rewrite Hlen.
  - assert (i = total) by lia. subst i.
    rewrite Z.ltb_irrefl, range_nil by lia. cbn. lia.
  - destruct (Z.ltb_spec i total) as [Hlt | Hge]; [| lia].
    replace ((i - 1) * part_size + part_size) with ((i + 1 - 1) * part_size)
      by lia.
    apply IH; auto; lia.
Qed.

(** C2.  The claim is what the planner is written to do, and the planner
    misses it by the rounding of a float: the number of parts is the ceiling
    of the float quotient [file_size / part_size].  With the default part
    size of 50 MiB and a file of [2^28] parts and one byte the quotient
    rounds to [2^28]: the driver plans [2^28] parts where the ceiling is
    [2^28 + 1], the last part ends one byte before the end of the file, and
    that byte is in no part.  (A part size so large that the quotient
    underflows gives zero parts for a file of one byte.) *)
Lemma plan_is_not_exact_beyond_float_precision :
  total_parts 14073748835532801 52428800 = Ok 268435456 /\
  ceil_div 14073748835532801 52428800 = 268435457 /\
  (let last := plan_chunk 14073748835532801 52428800 268435456 in
   offset last + bytes_to_read last = 14073748835532801 - 1) /\
  ~ plan_is_exact 14073748835532801 52428800 /\
  ~ plan_is_exact 1 (2 ^ 1080).
Proof.
  split; [vm_compute; reflexivity |].
  split; [vm_compute; reflexivity |].
  split; [vm_compute; reflexivity |].
  split; intros [H _]; vm_compute in H; discriminate H.
Qed.

(** X17.  For every [0 <= file_size < 2^53] and
    [0 < part_size < 2^1022] the plan of the driver has
    [total_parts = ceil(file_size / part_size)] parts, numbered
    [1..total_parts]; part [i] starts at [(i-1) * part_size]; the parts are
    contiguous, do not overlap and cover exactly [[0, file_size)]; every part
    but the last has length [part_size], and the last has length
    [file_size - (total_parts - 1) * part_size]. *)
Theorem plan_is_exact_within_float_precision :
  forall file_size part_size : Z,
    0 <= file_size < 2 ^ 53 ->
    0 < part_size < 2 ^ 1022 ->
    plan_is_exact file_size part_size /\
    let total := ceil_div file_size part_size in
    let plan := chunk_plan file_size part_size total in
    map part_number plan = range 1 (total + 1) /\
    Forall (fun c =>
              offset c = (part_number c - 1) * part_size /\
              bytes_to_read c =
                (if part_number c <? total then part_size
                 else file_size - (total - 1) * part_size)) plan.
Proof.
  intros file_size part_size Hfs Hps.
  pose proof (@ceil_div_bounds file_size part_size ltac:(lia)) as Htotal.
  set (total := ceil_div file_size part_size) in *.
  assert (H0 : 0 <= total) by nia.
  cbv zeta. splits.
  - unfold plan_is_exact. fold total. split.
    + unfold total_parts.
      destruct (@FloatFacts.ceil_int_truediv_exact file_size part_size Hfs Hps)
        as (q & -> & ->).
      reflexivity.
    + unfold chunk_plan.
      destruct (Z.eq_dec total 0) as [E | E].
      * rewrite E, range_nil by lia. cbn. lia.
      * replace 0 with ((1 - 1) * part_size) at 1 by lia.
        eapply covers_from; try reflexivity; lia.
  - unfold chunk_plan. rewrite map_map. cbn [plan_chunk part_number].
    apply map_id.
  - unfold chunk_plan. apply Forall_forall. intros c Hc.
    apply in_map_iff in Hc. destruct Hc as (i & <- & Hi).
    apply In_range in Hi. split; [reflexivity |].
    destruct (@plan_chunk_length file_size part_size total i
                ltac:(lia) Htotal ltac:(lia)) as [E _].
    exact E.
Qed.

Lemma plan_is_exact_within_float_precision_witness :
  plan_is_exact (101 * Scenario.MiB) (50 * Scenario.MiB) /\
  map bytes_to_read
    (chunk_plan (101 * Scenario.MiB) (50 * Scenario.MiB)
       (ceil_div (101 * Scenario.MiB) (50 * Scenario.MiB)))
  = [50 * Scenario.MiB; 50 * Scenario.MiB; 1 * Scenario.MiB].
Proof.
  split; [| vm_compute; reflexivity].
  apply (@plan_is_exact_within_float_precision
           (101 * Scenario.MiB) (50 * Scenario.MiB)).
  - vm_compute. split; [discriminate | reflexivity].
  - vm_compute. split; reflexivity.
Defined.

(** ** The driver *)

(** C9, as stated, fails: a negative part size is not turned down.  With
    [part_size = -1] and a file of 10 bytes the driver plans -10 parts,
    creates the session, recounts, and only then fails on the count. *)
Lemma negative_part_size_reaches_the_store :
  let run := upload Scripted.client (-1) 5 10
               (Scripted.fresh Scenario.empty_session) in
  fst run = Raise (RuntimeError "Expected -10 parts but saw 0") /\
  trace (snd run) =
    [CreateMultipartUpload (Ok "upload-1"); ListParts "upload-1" (Ok [])] /\
  ~ rejected_before_any_call (-1).
Proof.
  cbv zeta. split; [vm_compute; reflexivity |].
  split; [vm_compute; reflexivity |].
  intros Hclaim.
  destruct (Hclaim _ Scripted.client 5 10
              (Scripted.fresh Scenario.empty_session)) as [e E].
  vm_compute in E. discriminate E.
Qed.

(** C9, amended.  For [part_size = 0] planning fails with the division
    error of the part count ([ZeroDivisionError]) before any store call or
    retry: nothing is observed and nothing changes.  A negative part size is
    not turned down: for a file of fewer than [2^53] bytes planning
    succeeds, with a number of parts that is zero or negative, and when at
    least one try is allowed the driver goes on to the store, where the
    first thing it does is a create request. *)
Theorem only_a_zero_part_size_fails_planning :
  forall (S : Type) (s3 : S3 S) (part_size max_retries getsize : Z)
         (st : state S) (r : outcome unit) (st' : state S),
    part_size <= 0 ->
    upload s3 part_size max_retries getsize st = (r, st') ->
    (part_size = 0 -> r = Raise ZeroDivisionError /\ st' = st) /\
    (part_size < 0 -> 0 <= getsize < 2 ^ 53 ->
     (exists total, total_parts getsize part_size = Ok total /\ total <= 0) /\
     (1 <= max_retries ->
      exists answer more,
        trace st' = trace st ++ CreateMultipartUpload answer :: more)).
Proof.
  intros S s3 part_size max_retries getsize st r st' Hps H. split.
  - intros ->. cbv in H. inversion H; subst. auto.
  - intros Hneg Hfs.
    destruct (@total_parts_of_negative_part_size getsize part_size Hfs Hneg)
      as (total & Htotal & Hle).
    split; [eauto |].
    intros Hmr.
    pose proof (@timeout_floor_exact_below_2_53 getsize Hfs) as Hcompletion.
    eapply upload_begins_with_create; eauto.
Qed.

Lemma only_a_zero_part_size_fails_planning_witness :
  let run := upload Scripted.client (-1) 5 10
               (Scripted.fresh Scenario.empty_session) in
  (exists total, total_parts 10 (-1) = Ok total /\ total <= 0) /\
  exists answer more,
    trace (snd run) = [] ++ CreateMultipartUpload answer :: more.
Proof.
  cbv zeta.
  destruct (@only_a_zero_part_size_fails_planning _ Scripted.client (-1) 5 10
              (Scripted.fresh Scenario.empty_session)
              (fst (upload Scripted.client (-1) 5 10
                      (Scripted.fresh Scenario.empty_session)))
              (snd (upload Scripted.client (-1) 5 10
                      (Scripted.fresh Scenario.empty_session))))
    as (_ & Hneg).
  - lia.
  - vm_compute. reflexivity.
  - destruct (Hneg ltac:(lia) ltac:(lia)) as [Hplan Hcreate].
    split; [exact Hplan | apply Hcreate; lia].
Defined.

Lemma quiet_creates (creates : list event) :
  Forall (fun ev => is_sleep ev = true \/ is_create ev = true) creates ->
  Forall (fun ev => is_complete ev = false /\ is_list_parts ev = false /\
                    is_abort ev = false) creates.
Proof.
  intros H. eapply Forall_impl; [| exact H].
  intros ev [E | E]; destruct ev; try discriminate E; auto.
Qed.

(** C7, as stated, fails: the size in GiB is a float, and from [2^53]
    bytes on the conversion of the size rounds.  One byte over 8 PiB is
    rounded down to 8 PiB, and the first timeout is 41943040 s where the
    formula gives 41943045 s. *)
Lemma timeout_floor_is_not_exact_beyond_float_precision :
  completion_timeout (2 ^ 53 + 1) = Ok 41943040 /\
  Z.max 60 (5 * ceil_div (2 ^ 53 + 1) (2 ^ 30)) = 41943045 /\
  ~ timeout_floor_is_exact (2 ^ 53 + 1).
Proof.
  split; [vm_compute; reflexivity |].
  split; [vm_compute; reflexivity |].
  intros H. vm_compute in H. discriminate H.
Qed.

(** C7, amended.  For a file below [2^53] bytes the timeout of the
    coordinator starts at [max(60, 5 * ceil(file_size / 2^30))] seconds and
    doubles after every failed attempt: in a run of the driver the [n]-th
    complete request (counting from 0) carries that floor times [2^n]. *)
Theorem completion_timeouts_double_from_floor :
  forall (S : Type) (s3 : S3 S) (part_size max_retries getsize : Z)
         (st : state S) (r : outcome unit) (st' : state S)
         (evs : list event),
    0 <= getsize < 2 ^ 53 ->
    upload s3 part_size max_retries getsize st = (r, st') ->
    trace st' = trace st ++ evs ->
    timeout_floor_is_exact getsize /\
    forall (n : nat) (tm : Z),
      nth_error (complete_timeouts evs) n = Some tm ->
      tm = Z.max 60 (5 * ceil_div getsize (2 ^ 30)) * 2 ^ Z.of_nat n.
Proof.
  intros S s3 part_size max_retries getsize st r st' evs Hsize H Htrace.
  pose proof (timeout_floor_exact_below_2_53 Hsize) as Hfloor.
  split; [exact Hfloor |].
  apply upload_spec in H.
  destruct H as [(-> & _) | (total & completion & creates & body & _ & Hc &
                             Htr & Hkind & Hbody)].
  - assert (evs = []) as ->.
    { rewrite <- (app_nil_r (trace st)) in Htrace at 1.
      apply app_inv_head in Htrace. auto. }
    intros [| n] tm E; discriminate E.
  - rewrite Htr in Htrace. apply app_inv_head in Htrace. subst evs.
    unfold timeout_floor_is_exact in Hfloor. rewrite Hfloor in Hc.
    inversion Hc; subst completion.
    rewrite complete_timeouts_app, no_complete_timeouts.
    2:{ eapply Forall_impl; [| exact (quiet_creates Hkind)].
        intros ev (E & _). exact E. }
    destruct Hbody as [(-> & _) | (id & _ & _ & _ & Hpost)].
    + intros [| n] tm E; discriminate E.
    + destruct Hpost as (_ & Htm & _). exact Htm.
Qed.

Lemma completion_timeouts_double_from_floor_witness :
  let run := upload Scripted.client (50 * Scenario.MiB) 5 (101 * Scenario.MiB)
               (Scripted.fresh Scenario.happy) in
  complete_timeouts (trace (snd run)) = [60; 120] /\
  (forall (n : nat) (tm : Z),
     nth_error (complete_timeouts (trace (snd run))) n = Some tm ->
     tm = Z.max 60 (5 * ceil_div (101 * Scenario.MiB) (2 ^ 30))
          * 2 ^ Z.of_nat n).
Proof.
  cbv zeta. split; [vm_compute; reflexivity |].
  apply (@completion_timeouts_double_from_floor _ Scripted.client
           (50 * Scenario.MiB) 5 (101 * Scenario.MiB)
           (Scripted.fresh Scenario.happy)
           (fst (upload Scripted.client (50 * Scenario.MiB) 5
                   (101 * Scenario.MiB) (Scripted.fresh Scenario.happy)))
           (snd (upload Scripted.client (50 * Scenario.MiB) 5
                   (101 * Scenario.MiB) (Scripted.fresh Scenario.happy)))).
  - vm_compute. split; [discriminate | reflexivity].
  - vm_compute. reflexivity.
  - vm_compute. reflexivity.
Defined.

(** C6. The driver sends a complete request only after the recount
    (list-parts) has reported exactly [total_parts] parts; a recount of any
    other length ends in an error with no complete request at all.  The
    upload returns successfully only if its last request, the final
    head-object, reports a size equal to the local [file_size]; any other
    final answer ends in a raised error. *)
Theorem completion_and_success_are_gated :
  forall (S : Type) (s3 : S3 S) (part_size max_retries getsize : Z)
         (st : state S) (r : outcome unit) (st' : state S)
         (evs : list event) (total : Z),
    upload s3 part_size max_retries getsize st = (r, st') ->
    trace st' = trace st ++ evs ->
    total_parts getsize part_size = Ok total ->
    ((exists ev, In ev evs /\ is_complete ev = true) ->
     exists id found, In (ListParts id (Ok found)) evs /\
                      Z.of_nat (List.length found) = total) /\
    (forall id found, In (ListParts id (Ok found)) evs ->
       Z.of_nat (List.length found) <> total ->
       is_ok r = false /\ Forall (fun ev => is_complete ev = false) evs) /\
    (r = Ok tt ->
     exists pre cfg, evs = pre ++ [HeadObject cfg (Ok (Some getsize))]) /\
    (forall pre ev, evs = pre ++ [ev] ->
       (forall cfg, ev <> HeadObject cfg (Ok (Some getsize))) ->
       is_ok r = false).
Proof.
  intros S s3 part_size max_retries getsize st r st' evs total H Htrace Htotal.
  assert (Hlast :
    (r = Ok tt ->
     exists pre cfg, evs = pre ++ [HeadObject cfg (Ok (Some getsize))]) ->
    forall pre ev, evs = pre ++ [ev] ->
      (forall cfg, ev <> HeadObject cfg (Ok (Some getsize))) ->
      is_ok r = false).
  { intros Hok pre ev E Hne. destruct r as [[] | e]; [| reflexivity].
    destruct (Hok eq_refl) as (pre' & cfg & E').
    rewrite E in E'. apply app_inj_tail in E'. destruct E' as [_ ->].
    exfalso. eapply Hne. reflexivity. }
  apply upload_spec in H.
  destruct H as [(-> & e & -> & _) | (total' & completion & creates & body &
                   Ht & _ & Htr & Hkind & Hbody)].
  - assert (evs = []) as ->.
    { rewrite <- (app_nil_r (trace st)) in Htrace at 1.
      apply app_inv_head in Htrace. auto. }
    splits.
    + intros (ev & [] & _).
    + intros id found [].
    + discriminate.
    + intros pre ev E. destruct pre; discriminate E.
  - rewrite Htr in Htrace. apply app_inv_head in Htrace. subst evs.
    rewrite Ht in Htotal. inversion Htotal; subst total'.
    pose proof (quiet_creates Hkind) as Hquiet.
    rewrite Forall_forall in Hquiet.
    destruct Hbody as [(-> & Hr & _) | (id & _ & _ & _ & Hpost)].
    + rewrite app_nil_r. splits.
      * intros (ev & Hin & Hev). destruct (Hquiet _ Hin) as (E & _).
        congruence.
      * intros id found Hin. destruct (Hquiet _ Hin) as (_ & E & _).
        discriminate E.
      * intros E. rewrite E in Hr. discriminate Hr.
      * intros pre ev _ _. exact Hr.
    + destruct Hpost as (_ & _ & Hgate & Hbad & Hok).
      assert (Hok' : r = Ok tt ->
                exists pre cfg,
                  creates ++ body = pre ++ [HeadObject cfg (Ok (Some getsize))]).
      { intros E. destruct (Hok E) as (pre & cfg & ->).
        exists (creates ++ pre), cfg. rewrite app_assoc. reflexivity. }
      splits; [| | exact Hok' | exact (Hlast Hok')].
      * intros (ev & Hin & Hev). apply in_app_or in Hin.
        destruct Hin as [Hin | Hin].
        { destruct (Hquiet _ Hin) as (E & _). congruence. }
        destruct Hgate as (found & Hf & Hlen); [eauto |].
        exists id, found. split; [apply in_or_app; auto | exact Hlen].
      * intros u found Hin Hlen. apply in_app_or in Hin.
        destruct Hin as [Hin | Hin].
        { destruct (Hquiet _ Hin) as (_ & E & _). discriminate E. }
        destruct (Hbad _ _ Hin Hlen) as (Hr & Hnc).
        split; [exact Hr |]. apply Forall_app. split; [| exact Hnc].
        apply Forall_forall. intros ev Hev.
        destruct (Hquiet _ Hev) as (E & _). exact E.
Qed.

Lemma completion_and_success_are_gated_witness :
  let run := upload Scripted.client (50 * Scenario.MiB) 5 (101 * Scenario.MiB)
               (Scripted.fresh Scenario.short_recount) in
  fst run = Raise (RuntimeError "Expected 3 parts but saw 2") /\
  is_ok (fst run) = false /\
  Forall (fun ev => is_complete ev = false) (trace (snd run)).
Proof.
  cbv zeta. split; [vm_compute; reflexivity |].
  destruct (@completion_and_success_are_gated _ Scripted.client
              (50 * Scenario.MiB) 5 (101 * Scenario.MiB)
              (Scripted.fresh Scenario.short_recount)
              (fst (upload Scripted.client (50 * Scenario.MiB) 5
                      (101 * Scenario.MiB)
                      (Scripted.fresh Scenario.short_recount)))
              (snd (upload Scripted.client (50 * Scenario.MiB) 5
                      (101 * Scenario.MiB)
                      (Scripted.fresh Scenario.short_recount)))
              (trace (snd (upload Scripted.client (50 * Scenario.MiB) 5
                             (101 * Scenario.MiB)
                             (Scripted.fresh Scenario.short_recount))))
              3)
    as (_ & Hbad & _).
  - vm_compute. reflexivity.
  - vm_compute. reflexivity.
  - vm_compute. reflexivity.
  - apply (Hbad "upload-1"
             [ {| PartNumber := 1; ETag := "e1" |};
               {| PartNumber := 2; ETag := "e2" |} ]).
    + vm_compute. auto 10.
    + vm_compute. discriminate.
Defined.



(** * Further properties of the methods *)

(** ** The retry wrapper, in full *)

Lemma last_outcome_cons {A} (o : outcome A) (os : list (outcome A)) :
  os <> [] -> last_outcome (o :: os) = last_outcome os.
Proof. destruct os; [congruence | reflexivity]. Qed.

Lemma removelast_cons {A} (o : A) (os : list A) :
  os <> [] -> removelast (o :: os) = o :: removelast os.
Proof. destruct os; [congruence | reflexivity]. Qed.

Lemma retry_trace_cons {A} (mk : outcome A -> event) (a : Z) (o : outcome A)
    (os : list (outcome A)) :
  os <> [] ->
  retry_trace mk a (o :: os) = mk o :: Sleep (2 ^ a) :: retry_trace mk (a + 1) os.
Proof. destruct os; [congruence | reflexivity]. Qed.

Section RetryRun.

Variable S : Type.
Variable s3 : S3 S.
Variable max_retries : Z.
Context {A : Type}.
Variable func : M S A.
Variable mk : outcome A -> event.
Variable inv : state S -> Prop.
Hypothesis inv_observe : forall st s ev, inv st -> inv (observe s ev st).
Hypothesis func_one_call :
  forall st r st', inv st -> func st = (r, st') ->
    exists s, st' = observe s (mk r) st.

(** A run of the wrapper from the iteration [a] on, call by call. *)
Lemma retry_loop_run (attempts : list Z) :
  forall a st r st',
    attempts = range a (max_retries + 1) ->
    inv st ->
    call_with_524_retry_loop s3 max_retries func attempts st = (r, st') ->
    exists outcomes,
      extends st st' (retry_trace mk a outcomes) /\
      inv st' /\
      (List.length outcomes <= List.length attempts)%nat /\
      (attempts <> [] -> outcomes <> []) /\
      Forall (retried_failure retried_by_wrapper) (removelast outcomes) /\
      r = match last_outcome outcomes with
          | None => Ok None
          | Some (Ok v) => Ok (Some v)
          | Some (Raise e) => Raise e
          end /\
      (forall e, last_outcome outcomes = Some (Raise e) ->
         retried_by_wrapper e = true ->
         List.length outcomes = List.length attempts).
Proof.
  induction attempts as [| attempt rest IH]; intros a st r st' Hrange Hinv H.
  - cbn in H. unfold ret in H. inversion H; subst.
    exists []. splits; auto with uploader; try discriminate.
  - assert (Ha : a < max_retries + 1).
    { destruct (Z_lt_le_dec a (max_retries + 1)) as [L | L]; [exact L |].
      rewrite range_nil in Hrange by lia. discriminate Hrange. }
    rewrite range_cons in Hrange by lia.
    inversion Hrange as [[Hattempt Hrest]]. clear Hrange.
    cbn [call_with_524_retry_loop] in H. unfold_monad.
    destruct (func st) as [[v | e] st1] eqn:Hf;
      destruct (func_one_call Hinv Hf) as [s ->].
    { inversion H; subst r st'. exists [Ok v].
      splits; auto with uploader; try discriminate.
      cbn. lia. }
    assert (Hstop :
      (Raise e, observe s (mk (Raise e)) st) = (r, st') ->
      (retried_by_wrapper e = true -> a = max_retries) ->
      exists outcomes,
        extends st st' (retry_trace mk a outcomes) /\
        inv st' /\
        (List.length outcomes <= Datatypes.S (List.length (range (a + 1) (max_retries + 1))))%nat /\
        (a :: range (a + 1) (max_retries + 1) <> [] -> outcomes <> []) /\
        Forall (retried_failure retried_by_wrapper) (removelast outcomes) /\
        r = match last_outcome outcomes with
            | None => Ok None
            | Some (Ok v) => Ok (Some v)
            | Some (Raise e) => Raise e
            end /\
        (forall e, last_outcome outcomes = Some (Raise e) ->
           retried_by_wrapper e = true ->
           List.length outcomes =
           Datatypes.S (List.length (range (a + 1) (max_retries + 1))))).
    { intros E Hlast. inversion E; subst r st'. exists [Raise e].
      splits; auto with uploader; try discriminate.
      - cbn. lia.
      - intros e0 E0 Hr. inversion E0; subst e0.
        rewrite (Hlast Hr), range_nil by lia. reflexivity. }
    assert (Hgo :
      a <> max_retries -> retried_by_wrapper e = true ->
      call_with_524_retry_loop s3 max_retries func rest
        (observe (elapse s3 (2 ^ a) s) (Sleep (2 ^ a))
           (observe s (mk (Raise e)) st)) = (r, st') ->
      exists outcomes,
        extends st st' (retry_trace mk a outcomes) /\
        inv st' /\
        (List.length outcomes <= Datatypes.S (List.length (range (a + 1) (max_retries + 1))))%nat /\
        (a :: range (a + 1) (max_retries + 1) <> [] -> outcomes <> []) /\
        Forall (retried_failure retried_by_wrapper) (removelast outcomes) /\
        r = match last_outcome outcomes with
            | None => Ok None
            | Some (Ok v) => Ok (Some v)
            | Some (Raise e) => Raise e
            end /\
        (forall e, last_outcome outcomes = Some (Raise e) ->
           retried_by_wrapper e = true ->
           List.length outcomes =
           Datatypes.S (List.length (range (a + 1) (max_retries + 1))))).
    { intros Hne Hretried Hrun.
      eapply IH with (a := a + 1) in Hrun; [| exact Hrest | auto].
      destruct Hrun as (os & Hext & Hinv' & Hlen & Hnonempty & Hall & Hres & Hex).
      assert (Hos : os <> []).
      { apply Hnonempty. rewrite Hrest, range_cons by lia. discriminate. }
      exists (Raise e :: os). rewrite <- Hrest.
      splits; auto; try discriminate.
      - rewrite retry_trace_cons by exact Hos.
        change (mk (Raise e) :: Sleep (2 ^ a) :: retry_trace mk (a + 1) os)
          with ([mk (Raise e)] ++ [Sleep (2 ^ a)] ++ retry_trace mk (a + 1) os).
        eapply extends_trans; [auto with uploader |].
        eapply extends_trans; [| exact Hext]. auto with uploader.
      - cbn [List.length]. lia.
      - rewrite removelast_cons by exact Hos. constructor; [exact Hretried | exact Hall].
      - rewrite last_outcome_cons by exact Hos. exact Hres.
      - intros e0 E0 Hr. rewrite last_outcome_cons in E0 by exact Hos.
        cbn [List.length]. rewrite (Hex e0 E0 Hr). reflexivity. }
    subst attempt. unfold retried_by_wrapper in *.
    destruct e as [| | status code | | | | | | | | |];
      cbn [isinstance_ClientError isinstance_timeout is_524_error orb] in *;
      try (apply Hstop; [exact H | discriminate]).
    + (* read timeout *)
      destruct (Z.eqb_spec a max_retries) as [E | E].
      * apply Hstop; auto.
      * rewrite sleep_ok in H by apply backoff_nonneg. apply Hgo; auto.
    + (* connect timeout *)
      destruct (Z.eqb_spec a max_retries) as [E | E].
      * apply Hstop; auto.
      * rewrite sleep_ok in H by apply backoff_nonneg. apply Hgo; auto.
    + (* client error *)
      rewrite Bool.orb_false_r in *.
      set (b := match status with
                | Some n => n =? 524
                | None => false
                end) in *.
      destruct b.
      * destruct (Z.eqb_spec a max_retries) as [E | E].
        -- apply Hstop; auto.
        -- rewrite sleep_ok in H by apply backoff_nonneg. apply Hgo; auto.
      * apply Hstop; [exact H | discriminate].
Qed.

End RetryRun.

(** The back-offs of a run of [n] calls from the iteration [a] on add up to
    [2^(a+n-1) - 2^a] seconds. *)
Lemma total_sleep_retry_trace {A} (mk : outcome A -> event)
    (outcomes : list (outcome A)) :
  (forall o, is_sleep (mk o) = false) ->
  outcomes <> [] ->
  forall a, 0 <= a ->
    total_sleep (retry_trace mk a outcomes)
    = 2 ^ (a + Z.of_nat (List.length outcomes) - 1) - 2 ^ a.
Proof.
  intros Hmk. induction outcomes as [| o os IH]; intros Hne a Ha;
    [congruence |].
  assert (Hcall : forall o0, sleeps [mk o0] = []).
  { intros o0. specialize (Hmk o0). unfold sleeps. cbn.
    destruct (mk o0); cbn in *; congruence. }
  destruct os as [| o' os'].
  - cbn [retry_trace List.length]. unfold total_sleep. rewrite Hcall. cbn.
    replace (a + 1 - 1) with a by lia. lia.
  - rewrite retry_trace_cons by discriminate.
    unfold total_sleep in *.
    change (mk o :: Sleep (2 ^ a) :: retry_trace mk (a + 1) (o' :: os'))
      with ([mk o] ++ [Sleep (2 ^ a)] ++ retry_trace mk (a + 1) (o' :: os')).
    rewrite !sleeps_app, Hcall. cbn [app sleeps flat_map fold_right].
    rewrite IH by (try discriminate; lia).
    cbn [List.length]. rewrite !Nat2Z.inj_succ.
    replace (a + Z.succ (Z.succ (Z.of_nat (List.length os'))) - 1)
      with (a + 1 + Z.succ (Z.of_nat (List.length os')) - 1) by lia.
    replace (a + 1) with (Z.succ a) at 2 by lia.
    rewrite (Z.pow_succ_r 2 a) by lia. lia.
Qed.

Lemma last_outcome_Some {A} (outcomes : list (outcome A)) :
  outcomes <> [] -> exists o, last_outcome outcomes = Some o.
Proof.
  induction outcomes as [| o os IH]; [congruence |]. intros _.
  destruct os as [| o' os']; [exists o; reflexivity |].
  change (last_outcome (o :: o' :: os')) with (last_outcome (o' :: os')).
  apply IH. discriminate.
Qed.

(** X1. A run of [call_with_524_retry] around one client call observes
    exactly: the call, a sleep of 2 s, the call, a sleep of 4 s, ..., the
    call; it makes at most [max_retries] calls, every call but the last one
    failed with a 524 answer or a client timeout, and the outcome of the last
    call is what comes out (its value, or its error re-raised).  With
    [max_retries >= 1] the result is never [None]. *)
Theorem retry_wrapper_runs_call_by_call :
  forall (S : Type) (s3 : S3 S) (max_retries : Z) (A : Type)
         (op : S -> outcome A * S) (mk : outcome A -> event)
         (st : state S) (r : outcome (option A)) (st' : state S),
    call_with_524_retry s3 max_retries (call op mk) st = (r, st') ->
    exists outcomes,
      trace st' = trace st ++ retry_trace mk 1 outcomes /\
      Z.of_nat (List.length outcomes) <= Z.max 0 max_retries /\
      Forall (retried_failure retried_by_wrapper) (removelast outcomes) /\
      r = match last_outcome outcomes with
          | None => Ok None
          | Some (Ok v) => Ok (Some v)
          | Some (Raise e) => Raise e
          end /\
      (1 <= max_retries -> outcomes <> [] /\ r <> Ok None).
Proof.
  intros S s3 max_retries A op mk st r st' H.
  unfold call_with_524_retry in H.
  eapply retry_loop_run with (mk := mk) (inv := fun _ => True) (a := 1) in H;
    auto.
  - destruct H as (outcomes & (Htr & _) & _ & Hlen & Hne & Hall & Hres & _).
    exists outcomes. splits; auto.
    + pose proof (range_length 1 (max_retries + 1)). lia.
    + intros Hmr.
      assert (Hos : outcomes <> []).
      { apply Hne. rewrite range_cons by lia. discriminate. }
      split; [exact Hos |].
      destruct (last_outcome_Some Hos) as [o Ho]. rewrite Ho in Hres.
      destruct o; subst r; discriminate.
  - intros st0 r0 st1 _ Hc. unfold call in Hc.
    destruct (op (remote st0)) as [r1 s1]. inversion Hc; subst. eauto.
Qed.

Lemma retry_wrapper_runs_call_by_call_witness :
  let st := Scripted.opened "upload-1" Scenario2.gateway_down in
  exists outcomes,
    trace (snd (call_with_524_retry Scripted.client 3
                  (call (s3_head_object Scripted.client None) (HeadObject None))
                  st)) =
      trace st ++ retry_trace (HeadObject None) 1 outcomes /\
    Z.of_nat (List.length outcomes) <= Z.max 0 3 /\
    Forall (retried_failure retried_by_wrapper) (removelast outcomes) /\
    fst (call_with_524_retry Scripted.client 3
           (call (s3_head_object Scripted.client None) (HeadObject None)) st) =
      match last_outcome outcomes with
      | None => Ok None
      | Some (Ok v) => Ok (Some v)
      | Some (Raise e) => Raise e
      end /\
    (1 <= 3 ->
     outcomes <> [] /\
     fst (call_with_524_retry Scripted.client 3
            (call (s3_head_object Scripted.client None) (HeadObject None)) st)
     <> Ok None).
Proof.
  cbv zeta.
  apply (@retry_wrapper_runs_call_by_call _ Scripted.client 3 _
           (s3_head_object Scripted.client None) (HeadObject None)
           (Scripted.opened "upload-1" Scenario2.gateway_down)).
  vm_compute. reflexivity.
Defined.

(** X2. When [call_with_524_retry] gives up on a retried error (a 524
    answer or a client timeout), it has made exactly [max_retries] calls, has
    slept [2^max_retries - 2] seconds in all, and the error it raises is the
    one of the last call. *)
Theorem retry_wrapper_gives_up_after_max_retries :
  forall (S : Type) (s3 : S3 S) (max_retries : Z) (A : Type)
         (op : S -> outcome A * S) (mk : outcome A -> event)
         (st : state S) (e : exn) (st' : state S),
    (forall o, is_sleep (mk o) = false) ->
    call_with_524_retry s3 max_retries (call op mk) st = (Raise e, st') ->
    retried_by_wrapper e = true ->
    exists outcomes,
      trace st' = trace st ++ retry_trace mk 1 outcomes /\
      Z.of_nat (List.length outcomes) = max_retries /\
      last_outcome outcomes = Some (Raise e) /\
      total_sleep (retry_trace mk 1 outcomes) = 2 ^ max_retries - 2.
Proof.
  intros S s3 max_retries A op mk st e st' Hmk H Hretried.
  unfold call_with_524_retry in H.
  eapply retry_loop_run with (mk := mk) (inv := fun _ => True) (a := 1) in H;
    auto.
  - destruct H as (outcomes & (Htr & _) & _ & Hlen & Hne & Hall & Hres & Hex).
    assert (Hlast : last_outcome outcomes = Some (Raise e)).
    { destruct (last_outcome outcomes) as [[v | e0] |]; try discriminate Hres.
      congruence. }
    assert (Hos : outcomes <> []).
    { intros E. subst outcomes. discriminate Hlast. }
    pose proof (Hex e Hlast Hretried) as Hcount.
    pose proof (range_length 1 (max_retries + 1)) as Hr.
    assert (Hpos : (0 < List.length outcomes)%nat).
    { destruct outcomes; [congruence | cbn; lia]. }
    exists outcomes. splits; auto; [lia |].
    rewrite total_sleep_retry_trace by (auto; lia).
    replace (1 + Z.of_nat (List.length outcomes) - 1) with max_retries by lia.
    reflexivity.
  - intros st0 r0 st1 _ Hc. unfold call in Hc.
    destruct (op (remote st0)) as [r1 s1]. inversion Hc; subst. eauto.
Qed.

Lemma retry_wrapper_gives_up_after_max_retries_witness :
  let st := Scripted.opened "upload-1" Scenario2.gateway_down in
  let run := call_with_524_retry Scripted.client 4
               (call (s3_head_object Scripted.client None) (HeadObject None))
               st in
  fst run = Raise Scenario2.gateway_timeout /\
  exists outcomes,
    trace (snd run) = trace st ++ retry_trace (HeadObject None) 1 outcomes /\
    Z.of_nat (List.length outcomes) = 4 /\
    last_outcome outcomes = Some (Raise Scenario2.gateway_timeout) /\
    total_sleep (retry_trace (HeadObject None) 1 outcomes) = 2 ^ 4 - 2.
Proof.
  cbv zeta. split; [vm_compute; reflexivity |].
  apply (@retry_wrapper_gives_up_after_max_retries _ Scripted.client 4 _
           (s3_head_object Scripted.client None) (HeadObject None)
           (Scripted.opened "upload-1" Scenario2.gateway_down)
           Scenario2.gateway_timeout).
  - intros o. reflexivity.
  - vm_compute. reflexivity.
  - reflexivity.
Defined.

(** ** [upload_part], in full *)

(** What [upload_part] returns after the calls [outcomes]. *)
Lemma acks_retry_trace (n : Z) (uid : string) (off len a : Z)
    (outcomes : list (outcome string)) :
  Forall (retried_failure retried_by_upload_part) (removelast outcomes) ->
  acks (retry_trace (UploadPart n uid off len) a outcomes) =
    match last_outcome outcomes with
    | Some (Ok etag) => [{| PartNumber := n; ETag := etag |}]
    | _ => []
    end.
Proof.
  revert a. induction outcomes as [| o os IH]; intros a Hall; [reflexivity |].
  destruct os as [| o' os'].
  - destruct o; reflexivity.
  - rewrite removelast_cons in Hall by discriminate.
    inversion Hall as [| x l Ho Hrest]; subst.
    rewrite retry_trace_cons, last_outcome_cons by discriminate.
    destruct o as [etag | e]; [destruct Ho |].
    cbn [acks flat_map app]. apply IH. exact Hrest.
Qed.

Section UploadPartRun.

Variable S : Type.
Variable s3 : S3 S.
Variable max_retries : Z.

(** A run of the loop of [upload_part] from the iteration [a] on, request
    by request. *)
Lemma upload_part_loop_run (uid : string) (n off len total : Z)
    (start_time : Float.float) (attempts : list Z) :
  forall a (st : state S) r st',
    attempts = range a (max_retries + 1) ->
    upload_part_loop s3 max_retries uid n off len total start_time attempts st
      = (r, st') ->
    exists outcomes,
      extends st st' (retry_trace (UploadPart n uid off len) a outcomes) /\
      s3_config st' = s3_config st /\
      (List.length outcomes <= List.length attempts)%nat /\
      (attempts <> [] -> outcomes <> []) /\
      Forall (retried_failure retried_by_upload_part) (removelast outcomes) /\
      match last_outcome outcomes with
      | None => r = Ok None
      | Some (Ok etag) =>
          (r = Ok (Some {| PartNumber := n; ETag := etag |}) /\
           total <> 0) \/
          exists e, r = Raise e /\ raised_by_report e = true
      | Some (Raise e) =>
          r = if is_insufficient_storage_error e
              then Raise (RuntimeError "Server reported insufficient storage")
              else Raise e
      end /\
      parts_completed st' =
        parts_completed st +
        match last_outcome outcomes with Some (Ok _) => 1 | _ => 0 end /\
      (forall e, last_outcome outcomes = Some (Raise e) ->
         retried_by_upload_part e = true ->
         List.length outcomes = List.length attempts).
Proof.
  induction attempts as [| attempt rest IH]; intros a st r st' Hrange H.
  - cbn in H. unfold ret in H. inversion H; subst.
    exists []. cbn. splits; auto with uploader; try discriminate; lia.
  - assert (Ha : a < max_retries + 1).
    { destruct (Z_lt_le_dec a (max_retries + 1)) as [L | L]; [exact L |].
      rewrite range_nil in Hrange by lia. discriminate Hrange. }
    rewrite range_cons in Hrange by lia.
    inversion Hrange as [[Hattempt Hrest]]. clear Hrange. subst attempt.
    rewrite <- Hrest.
    destruct (s3_upload_part s3 (s3_config st) n uid off len (remote st))
      as [[etag | e] s] eqn:Hcall.
    { eapply upload_part_loop_acked in H; [| exact Hcall].
      destruct H as [-> Hr]. exists [Ok etag].
      cbn [last_outcome retry_trace removelast List.length].
      splits; auto with uploader; try discriminate; cbn; lia. }
    erewrite upload_part_loop_failed in H; [| exact Hcall]. cbv zeta in H.
    set (ev0 := UploadPart n uid off len (Raise e)) in *.
    assert (Hstop : forall r0,
      (r0, observe s ev0 st) = (r, st') ->
      r0 = (if is_insufficient_storage_error e
            then Raise (RuntimeError "Server reported insufficient storage")
            else Raise e) ->
      (retried_by_upload_part e = true -> a = max_retries) ->
      exists outcomes,
        extends st st' (retry_trace (UploadPart n uid off len) a outcomes) /\
        s3_config st' = s3_config st /\
        (List.length outcomes <= List.length (a :: rest))%nat /\
        (a :: rest <> [] -> outcomes <> []) /\
        Forall (retried_failure retried_by_upload_part) (removelast outcomes) /\
        match last_outcome outcomes with
        | None => r = Ok None
        | Some (Ok etag) =>
            (r = Ok (Some {| PartNumber := n; ETag := etag |}) /\
             total <> 0) \/
            exists e, r = Raise e /\ raised_by_report e = true
        | Some (Raise e) =>
            r = if is_insufficient_storage_error e
                then Raise (RuntimeError "Server reported insufficient storage")
                else Raise e
        end /\
        parts_completed st' =
          parts_completed st +
          match last_outcome outcomes with Some (Ok _) => 1 | _ => 0 end /\
        (forall e, last_outcome outcomes = Some (Raise e) ->
           retried_by_upload_part e = true ->
           List.length outcomes = List.length (a :: rest))).
    { intros r0 E Hr0 Hlast. inversion E; subst r st'. exists [Raise e].
      cbn [last_outcome retry_trace removelast List.length].
      splits; auto with uploader; try discriminate; try (cbn; lia).
      intros e0 E0 Hr. inversion E0; subst e0.
      rewrite Hrest, (Hlast Hr), range_nil by lia. reflexivity. }
    unfold retried_by_upload_part in Hstop.
    destruct (isinstance_boto e) eqn:Hboto.
    2:{ eapply Hstop; [exact H | | cbn; discriminate].
        destruct e; try discriminate Hboto; reflexivity. }
    destruct (is_insufficient_storage_error e) eqn:Hfull.
    { eapply Hstop; [exact H | reflexivity | cbn; discriminate]. }
    destruct (Z.eqb_spec a max_retries) as [E | E].
    { eapply Hstop; [exact H | reflexivity | auto]. }
    rewrite sleep_ok in H by apply backoff_nonneg.
    eapply IH with (a := a + 1) in H; [| exact Hrest].
    destruct H as (os & Hext & Hcfg & Hlen & Hnonempty & Hall & Hres & Hpc & Hex).
    assert (Hos : os <> []).
    { apply Hnonempty. rewrite Hrest, range_cons by lia. discriminate. }
    exists (Raise e :: os).
    rewrite retry_trace_cons, removelast_cons, last_outcome_cons by exact Hos.
    splits; auto; try discriminate.
    + change (UploadPart n uid off len (Raise e) :: Sleep (2 ^ a) ::
                retry_trace (UploadPart n uid off len) (a + 1) os)
        with ([ev0] ++ [Sleep (2 ^ a)] ++
                retry_trace (UploadPart n uid off len) (a + 1) os).
      eapply extends_trans; [auto with uploader |].
      eapply extends_trans; [| exact Hext]. auto with uploader.
    + cbn [List.length]. lia.
    + constructor; [| exact Hall].
      unfold retried_failure, retried_by_upload_part.
      rewrite Hboto, Hfull. reflexivity.
    + intros e0 E0 Hr. cbn [List.length]. rewrite (Hex e0 E0 Hr). reflexivity.
Qed.

End UploadPartRun.

(** X3. A run of [upload_part] on an open session observes exactly: the
    upload request, a sleep of 2 s, the request, a sleep of 4 s, ..., the
    request, all for the same part, byte range and session; it makes at most
    [max_retries] requests, and every request but the last one failed with a
    botocore error other than a 507 (whatever its status: there is no
    distinction between a 524, a timeout and any other error). *)
Theorem upload_part_runs_request_by_request :
  forall (S : Type) (s3 : S3 S) (max_retries : Z) (id : string)
         (part_number offset bytes_to_read total : Z)
         (start_time : Float.float)
         (st : state S) (r : outcome (option part)) (st' : state S),
    upload_id st = Some id ->
    upload_part s3 max_retries part_number offset bytes_to_read total
      start_time st = (r, st') ->
    exists outcomes,
      trace st' = trace st ++
        retry_trace (UploadPart part_number id offset bytes_to_read) 1 outcomes /\
      Z.of_nat (List.length outcomes) <= Z.max 0 max_retries /\
      Forall (retried_failure retried_by_upload_part) (removelast outcomes) /\
      (forall e, r = Raise e -> retried_by_upload_part e = true ->
         Z.of_nat (List.length outcomes) = max_retries /\
         last_outcome outcomes = Some (Raise e)).
Proof.
  intros S s3 max_retries id part_number offset bytes_to_read total
    start_time st r st' Hid H.
  unfold upload_part in H. unfold_monad. rewrite Hid in H.
  eapply upload_part_loop_run with (a := 1) in H; [| reflexivity].
  destruct H as (outcomes & (Htr & _) & _ & Hlen & _ & Hall & Hres & _ & Hex).
  pose proof (range_length 1 (max_retries + 1)) as Hr.
  exists outcomes. splits; auto; [lia |].
  intros e -> Hretried.
  assert (Hlast : last_outcome outcomes = Some (Raise e)).
  { destruct (last_outcome outcomes) as [[etag | e0] |].
    - destruct Hres as [[Hres _] | (e1 & Hres & He1)]; [discriminate Hres |].
      inversion Hres; subst e1.
      apply raised_by_report_not_boto in He1.
      unfold retried_by_upload_part in Hretried. rewrite He1 in Hretried.
      discriminate Hretried.
    - destruct (is_insufficient_storage_error e0) eqn:Hfull.
      + inversion Hres; subst. discriminate Hretried.
      + congruence.
    - discriminate Hres. }
  split; [| exact Hlast].
  pose proof (Hex e Hlast Hretried) as Hcount.
  assert (Hpos : (0 < List.length outcomes)%nat).
  { destruct outcomes; [discriminate Hlast | cbn; lia]. }
  lia.
Qed.

Lemma upload_part_runs_request_by_request_witness :
  let st := Scripted.opened "upload-1" Scenario2.flaky_uploads in
  let run := upload_part Scripted.client 5 1 0 100 3 Float.zero st in
  fst run = Ok (Some {| PartNumber := 1; ETag := "etag-1" |}) /\
  exists outcomes,
    trace (snd run) = trace st ++
      retry_trace (UploadPart 1 "upload-1" 0 100) 1 outcomes /\
    Z.of_nat (List.length outcomes) <= Z.max 0 5 /\
    Forall (retried_failure retried_by_upload_part) (removelast outcomes) /\
    (forall e, fst run = Raise e -> retried_by_upload_part e = true ->
       Z.of_nat (List.length outcomes) = 5 /\
       last_outcome outcomes = Some (Raise e)).
Proof.
  cbv zeta. split; [vm_compute; reflexivity |].
  apply (@upload_part_runs_request_by_request _ Scripted.client 5 "upload-1"
           1 0 100 3 Float.zero
           (Scripted.opened "upload-1" Scenario2.flaky_uploads)).
  - reflexivity.
  - vm_compute. reflexivity.
Defined.

(** X4. [upload_part] hands out a Part record only for an upload the store
    acknowledged: a part it returns carries the given part number and the
    ETag of the one request of the run that went through, and the progress
    counter has grown by exactly one.  When it raises, either no request
    went through and the counter is as it was, or one request went through,
    the counter has grown by one and the error is one of the progress report
    that follows the acknowledgement ([ZeroDivisionError], [OverflowError]
    or [OSError]): the acknowledged part is then lost to the caller.  With
    [total_parts = 0] no part is ever returned. *)
Theorem upload_part_returns_the_acknowledged_part :
  forall (S : Type) (s3 : S3 S) (max_retries : Z) (id : string)
         (part_number offset bytes_to_read total : Z)
         (start_time : Float.float)
         (st : state S) (r : outcome (option part)) (st' : state S)
         (evs : list event),
    upload_id st = Some id ->
    upload_part s3 max_retries part_number offset bytes_to_read total
      start_time st = (r, st') ->
    trace st' = trace st ++ evs ->
    match r with
    | Ok (Some p) =>
        PartNumber p = part_number /\ acks evs = [p] /\
        parts_completed st' = parts_completed st + 1 /\
        total <> 0
    | Ok None => max_retries <= 0 /\ evs = []
    | Raise e =>
        (acks evs = [] /\ parts_completed st' = parts_completed st) \/
        (raised_by_report e = true /\
         (exists p, PartNumber p = part_number /\ acks evs = [p]) /\
         parts_completed st' = parts_completed st + 1)
    end.
Proof.
  intros S s3 max_retries id part_number offset bytes_to_read total
    start_time st r st' evs Hid H Htrace.
  unfold upload_part in H. unfold_monad. rewrite Hid in H.
  eapply upload_part_loop_run with (a := 1) in H; [| reflexivity].
  destruct H as (outcomes & (Htr & _) & _ & _ & Hne & Hall & Hres & Hpc & _).
  rewrite Htr in Htrace. apply app_inv_head in Htrace. subst evs.
  rewrite acks_retry_trace by exact Hall.
  destruct (last_outcome outcomes) as [[etag | e] |] eqn:Hlast.
  - destruct Hres as [[-> Hnz] | (e & -> & He)].
    + splits; auto.
    + right. splits; auto.
      exists {| PartNumber := part_number; ETag := etag |}.
      split; reflexivity.
  - subst r. destruct (is_insufficient_storage_error e); left; split; auto; lia.
  - subst r.
    assert (Hos : outcomes = []).
    { destruct outcomes as [| o os]; [reflexivity |].
      destruct (@last_outcome_Some _ (o :: os) ltac:(discriminate)) as [o' E].
      congruence. }
    subst outcomes. split; [| reflexivity].
    destruct (Z_le_gt_dec max_retries 0) as [L | G]; [exact L |].
    exfalso. apply Hne; [| reflexivity].
    rewrite range_cons by lia. discriminate.
Qed.

Lemma upload_part_returns_the_acknowledged_part_witness :
  let st := Scripted.opened "upload-1" Scenario2.flaky_uploads in
  let run := upload_part Scripted.client 5 1 0 100 0 Float.zero st in
  fst run = Raise ZeroDivisionError /\
  match fst run with
  | Ok (Some p) =>
      PartNumber p = 1 /\ acks (trace (snd run)) = [p] /\
      parts_completed (snd run) = parts_completed st + 1 /\
      0 <> 0
  | Ok None => 5 <= 0 /\ trace (snd run) = []
  | Raise e =>
      (acks (trace (snd run)) = [] /\
       parts_completed (snd run) = parts_completed st) \/
      (raised_by_report e = true /\
       (exists p, PartNumber p = 1 /\ acks (trace (snd run)) = [p]) /\
       parts_completed (snd run) = parts_completed st + 1)
  end.
Proof.
  cbv zeta. split; [vm_compute; reflexivity |].
  apply (@upload_part_returns_the_acknowledged_part _ Scripted.client 5
           "upload-1" 1 0 100 0 Float.zero
           (Scripted.opened "upload-1" Scenario2.flaky_uploads)).
  - reflexivity.
  - vm_compute. reflexivity.
  - vm_compute. reflexivity.
Defined.

(** ** The completion coordinator, further *)

(** X5. With [max_retries <= 0] the coordinator does nothing at all: on an
    open session it returns normally without a single complete request or
    poll, and leaves the state as it was (the driver then goes on to the
    final verification); on an unset [upload_id] it raises its guard error. *)
Theorem coordinator_does_nothing_without_budget :
  forall (S : Type) (s3 : S3 S) (max_retries : Z) (parts : list part)
         (initial_timeout expected_size : Z) (st : state S),
    max_retries <= 0 ->
    complete_with_timeout_retry s3 max_retries parts initial_timeout
      expected_size st =
    (match upload_id st with
     | Some _ => Ok tt
     | None => Raise (RuntimeError "upload_id not set")
     end, st).
Proof.
  intros S s3 max_retries parts initial_timeout expected_size st H.
  unfold complete_with_timeout_retry. unfold_monad.
  destruct (upload_id st); [| reflexivity].
  rewrite range_nil by lia. reflexivity.
Qed.

Lemma coordinator_does_nothing_without_budget_witness :
  complete_with_timeout_retry Scripted.client 0 Scenario.three_parts 60 100
    (Scripted.opened "upload-1" Scenario.never_merged)
  = (Ok tt, Scripted.opened "upload-1" Scenario.never_merged).
Proof.
  apply (@coordinator_does_nothing_without_budget _ Scripted.client 0
           Scenario.three_parts 60 100
           (Scripted.opened "upload-1" Scenario.never_merged)).
  lia.
Defined.

Lemma polls_use_latest_handle_app (current : client_config)
    (l1 l2 : list event) :
  polls_use_latest_handle current (l1 ++ l2) <->
  polls_use_latest_handle current l1 /\
  polls_use_latest_handle (latest_handle current l1) l2.
Proof.
  revert current. induction l1 as [| ev l1 IH]; intros current.
  - cbn. tauto.
  - assert (Hskip : is_complete ev = false ->
              latest_handle current (ev :: l1) = latest_handle current l1).
    { intros E. destruct ev; try discriminate E; reflexivity. }
    destruct ev as [secs | r | n u o l r | u r | tm u p r | cfg r | u];
      cbn [app polls_use_latest_handle];
      try (rewrite IH, Hskip by reflexivity; tauto).
    rewrite IH.
    assert (E : latest_handle current
                  (CompleteMultipartUpload tm u p r :: l1)
                = latest_handle (Some tm) l1).
    { unfold latest_handle. cbn [complete_timeouts flat_map app rev].
      fold (complete_timeouts l1).
      destruct (rev (complete_timeouts l1)) as [| tm' tms]; reflexivity. }
    rewrite E. tauto.
Qed.

Lemma latest_handle_quiet (current : client_config) (evs : list event) :
  Forall (fun ev => is_complete ev = false) evs ->
  latest_handle current evs = current.
Proof.
  intros H. unfold latest_handle. rewrite (no_complete_timeouts H).
  reflexivity.
Qed.

Lemma polls_use_handle_quiet (cfg : client_config) (evs : list event) :
  Forall (fun ev => is_sleep ev = true \/ exists r, ev = HeadObject cfg r) evs ->
  polls_use_latest_handle cfg evs.
Proof.
  induction 1 as [| ev evs [E | [r ->]] _ IH]; cbn; auto.
  destruct ev; try discriminate E. exact IH.
Qed.

Section CoordinatorRun.

Variable S : Type.
Variable s3 : S3 S.
Variable max_retries : Z.

(** A poll observes head requests on its handle and back-offs, and leaves
    the attributes of [self] alone. *)
Lemma poll_run (cfg : client_config) (st st' : state S)
    (poll : outcome (option (option Z))) :
  call_with_524_retry s3 max_retries (head_object s3 cfg) st = (poll, st') ->
  exists evs,
    extends st st' evs /\
    s3_config st' = s3_config st /\
    parts_completed st' = parts_completed st /\
    Forall (fun ev => is_sleep ev = true \/ exists r, ev = HeadObject cfg r) evs.
Proof.
  intros H. unfold call_with_524_retry in H.
  eapply call_with_524_retry_loop_spec
    with (mk := HeadObject cfg) (inv := fun _ => True) in H; auto.
  - destruct H as (evs & Hext & _ & Hcfg & Hpc & Hall & _).
    exists evs. auto.
  - intros st0 r st1 _ Hc. eapply one_call_head_object; eauto.
  - intros r1 r2 E. inversion E. reflexivity.
Qed.

(** What a run of the loop does to [self] and which requests it makes. *)
Lemma complete_loop_run (uid : string) (parts : list part)
    (expected_size : Z) (attempts : list Z) :
  forall a timeout last_exc (st : state S) r st',
    attempts = range a (max_retries + 1) ->
    complete_loop s3 max_retries uid parts expected_size attempts
      timeout last_exc st = (r, st') ->
    exists evs,
      extends st st' evs /\
      parts_completed st' = parts_completed st /\
      (List.length (complete_timeouts evs) <= List.length attempts)%nat /\
      Forall (fun ev => match ev with
                        | CompleteMultipartUpload _ u p _ =>
                            u = uid /\ p = parts
                        | Sleep _ | HeadObject _ _ => True
                        | _ => False
                        end) evs /\
      (forall current, polls_use_latest_handle current evs) /\
      match r with
      | Raise _ => s3_config st' = s3_config st
      | Ok _ =>
          (attempts = [] /\ evs = [] /\ s3_config st' = s3_config st) \/
          (attempts <> [] /\
           s3_config st' = latest_handle (s3_config st) evs /\
           complete_timeouts evs <> [])
      end.
Proof.
  induction attempts as [| attempt rest IH];
    intros a timeout last_exc st r st' Hrange H.
  - cbn in H. unfold ret in H. inversion H; subst.
    exists []. splits.
    + auto with uploader.
    + reflexivity.
    + cbn. lia.
    + constructor.
    + intros current. exact I.
    + left. auto.
  - assert (Ha : a < max_retries + 1).
    { destruct (Z_lt_le_dec a (max_retries + 1)) as [L | L]; [exact L |].
      rewrite range_nil in Hrange by lia. discriminate Hrange. }
    rewrite range_cons in Hrange by lia.
    inversion Hrange as [[Hattempt Hrest]]. clear Hrange. subst attempt.
    rewrite <- Hrest.
    rewrite complete_loop_step in H.
    destruct (s3_complete_multipart_upload s3 (Some timeout) uid parts
                (remote st)) as [[[] | exc] s1]; cbv zeta in H.
    { inversion H; subst r st'.
      exists [CompleteMultipartUpload timeout uid parts (Ok tt)].
      splits.
      - auto with uploader.
      - reflexivity.
      - cbn. lia.
      - constructor; [auto | constructor].
      - intros current. cbn. exact I.
      - right. splits; [discriminate | reflexivity | discriminate]. }
    set (ev0 := CompleteMultipartUpload timeout uid parts (Raise exc)) in *.
    set (st1 := observe s1 ev0 st) in *.
    assert (Hext1 : extends st st1 [ev0]) by (subst st1; auto with uploader).
    assert (Hok0 : match ev0 with
                   | CompleteMultipartUpload _ u p _ => u = uid /\ p = parts
                   | Sleep _ | HeadObject _ _ => True
                   | _ => False
                   end) by (cbn; auto).
    destruct (isinstance_boto exc) eqn:Hboto.
    2:{ inversion H; subst r st'. exists [ev0].
        splits.
        - exact Hext1.
        - reflexivity.
        - cbn. lia.
        - constructor; [exact Hok0 | constructor].
        - intros current. cbn. exact I.
        - reflexivity. }
    set (nsu := if isinstance_timeout exc then false
                else is_no_such_upload_error exc) in *.
    assert (Hwait : exists rw st2 wait,
      (if nsu then (Ok tt, st1) else sleep s3 timeout st1) = (rw, st2) /\
      extends st1 st2 wait /\
      s3_config st2 = s3_config st /\
      parts_completed st2 = parts_completed st /\
      Forall (fun ev => is_sleep ev = true) wait).
    { destruct nsu.
      - exists (Ok tt), st1, []. splits; auto with uploader.
      - unfold sleep. destruct (timeout <? 0).
        + exists (Raise ValueError), st1, []. splits; auto with uploader.
        + eexists _, _, [Sleep timeout]. splits; auto with uploader. }
    destruct Hwait as (rw & st2 & wait & Hw & Hext2 & Hcfg2 & Hpc2 & Hwait_all).
    rewrite Hw in H.
    assert (Hquiet_wait : Forall (fun ev => is_complete ev = false) wait).
    { eapply Forall_impl; [| exact Hwait_all].
      intros ev E. destruct ev; try discriminate E. reflexivity. }
    assert (Hshape_wait : Forall (fun ev => match ev with
                        | CompleteMultipartUpload _ u p _ =>
                            u = uid /\ p = parts
                        | Sleep _ | HeadObject _ _ => True
                        | _ => False
                        end) wait).
    { eapply Forall_impl; [| exact Hwait_all].
      intros ev E. destruct ev; try discriminate E. exact I. }
    assert (Hhandle_wait : forall current, polls_use_latest_handle current wait).
    { intros current. apply polls_use_handle_quiet with (cfg := current).
      eapply Forall_impl; [| exact Hwait_all]. auto. }
    destruct rw as [[] | e].
    2:{ inversion H; subst r st'. exists ([ev0] ++ wait). splits.
        - eapply extends_trans; eauto.
        - exact Hpc2.
        - rewrite complete_timeouts_app, (no_complete_timeouts Hquiet_wait).
          cbn. lia.
        - apply Forall_app. split; [constructor; [exact Hok0 | constructor] | exact Hshape_wait].
        - intros current. apply polls_use_latest_handle_app. split; [cbn; exact I |].
          apply Hhandle_wait.
        - exact Hcfg2. }
    destruct (call_with_524_retry s3 max_retries
                (head_object s3 (Some timeout)) st2) as [poll st3] eqn:Hp.
    apply poll_run in Hp.
    destruct Hp as (polls & Hext3 & Hcfg3 & Hpc3 & Hpoll_all).
    assert (Hquiet : Forall (fun ev => is_complete ev = false) (wait ++ polls)).
    { apply Forall_app. split; [exact Hquiet_wait |].
      eapply Forall_impl; [| exact Hpoll_all].
      intros ev [E | [r0 ->]]; [destruct ev; try discriminate E |]; reflexivity. }
    assert (Hshape : Forall (fun ev => match ev with
                        | CompleteMultipartUpload _ u p _ =>
                            u = uid /\ p = parts
                        | Sleep _ | HeadObject _ _ => True
                        | _ => False
                        end) ([ev0] ++ wait ++ polls)).
    { apply Forall_app. split; [constructor; [exact Hok0 | constructor] |].
      apply Forall_app. split; [exact Hshape_wait |].
      eapply Forall_impl; [| exact Hpoll_all].
      intros ev [E | [r0 ->]]; [destruct ev; try discriminate E |]; exact I. }
    assert (Hhandle : forall current,
              polls_use_latest_handle current ([ev0] ++ wait ++ polls)).
    { intros current. apply polls_use_latest_handle_app. split; [cbn; exact I |].
      replace (latest_handle current [ev0]) with (Some timeout) by reflexivity.
      apply polls_use_latest_handle_app. split; [apply Hhandle_wait |].
      rewrite (latest_handle_quiet _ Hquiet_wait).
      apply polls_use_handle_quiet. exact Hpoll_all. }
    assert (Hext123 : extends st st3 ([ev0] ++ wait ++ polls)).
    { eapply extends_trans; [exact Hext1 |]. eapply extends_trans; eauto. }
    assert (Htimeouts : complete_timeouts ([ev0] ++ wait ++ polls) = [timeout]).
    { rewrite complete_timeouts_app, (no_complete_timeouts Hquiet). reflexivity. }
    assert (Hcfg123 : s3_config st3 = s3_config st) by congruence.
    assert (Hpc123 : parts_completed st3 = parts_completed st) by congruence.
    destruct (poll_confirms poll expected_size).
    { inversion H; subst r st'. exists ([ev0] ++ wait ++ polls). splits.
      - auto with uploader.
      - exact Hpc123.
      - rewrite Htimeouts. cbn. lia.
      - exact Hshape.
      - exact Hhandle.
      - right. splits; [discriminate | | rewrite Htimeouts; discriminate].
        unfold latest_handle. rewrite Htimeouts. reflexivity. }
    destruct (Z.eqb_spec a max_retries) as [Hlast | Hmore].
    { inversion H; subst r st'. exists ([ev0] ++ wait ++ polls). splits.
      - exact Hext123.
      - exact Hpc123.
      - rewrite Htimeouts. cbn. lia.
      - exact Hshape.
      - exact Hhandle.
      - exact Hcfg123. }
    eapply IH with (a := a + 1) in H; [| exact Hrest].
    destruct H as (evs & Hext4 & Hpc4 & Hlen4 & Hshape4 & Hhandle4 & Hres).
    exists (([ev0] ++ wait ++ polls) ++ evs). splits.
    + eapply extends_trans; eauto.
    + congruence.
    + rewrite complete_timeouts_app, Htimeouts, length_app. cbn. lia.
    + apply Forall_app. auto.
    + intros current. apply polls_use_latest_handle_app. split; auto.
    + destruct r as [[] | e].
      * right. destruct Hres as [(Hnil & _) | (_ & Hcfg4 & Hne4)].
        { exfalso. rewrite Hnil in Hrest. symmetry in Hrest.
          apply range_last_iff in Hrest; lia. }
        splits; [discriminate | |].
        -- rewrite Hcfg4. unfold latest_handle.
           rewrite complete_timeouts_app, Htimeouts, rev_app_distr.
           destruct (rev (complete_timeouts evs)) as [| tm tms] eqn:Hrev;
             [| reflexivity].
           exfalso. apply Hne4.
           rewrite <- (rev_involutive (complete_timeouts evs)), Hrev.
           reflexivity.
        -- rewrite complete_timeouts_app, Htimeouts. discriminate.
      * congruence.
Qed.

End CoordinatorRun.

(** X6. The coordinator replaces the client handle only on success: when
    it raises, [self.s3] is the handle it was; when it returns, [self.s3] is
    the handle built for the last complete request of the run (the one whose
    request went through or whose poll confirmed the merge).  The progress
    counter is never touched. *)
Theorem coordinator_replaces_handle_only_on_success :
  forall (S : Type) (s3 : S3 S) (max_retries : Z) (parts : list part)
         (initial_timeout expected_size : Z) (st : state S) (id : string)
         (r : outcome unit) (st' : state S) (evs : list event),
    upload_id st = Some id ->
    complete_with_timeout_retry s3 max_retries parts initial_timeout
      expected_size st = (r, st') ->
    trace st' = trace st ++ evs ->
    parts_completed st' = parts_completed st /\
    match r with
    | Raise _ => s3_config st' = s3_config st
    | Ok _ => s3_config st' = latest_handle (s3_config st) evs
    end.
Proof.
  intros S s3 max_retries parts initial_timeout expected_size st id r st' evs
    Hid H Htrace.
  erewrite complete_with_timeout_retry_unfold in H; [| exact Hid].
  eapply complete_loop_run in H; [| reflexivity].
  destruct H as (evs0 & (Htr & _) & Hpc & _ & _ & _ & Hres).
  assert (evs0 = evs) as ->.
  { rewrite Htr in Htrace. apply app_inv_head in Htrace. exact Htrace. }
  split; [exact Hpc |].
  destruct r as [[] | e]; [| exact Hres].
  destruct Hres as [(_ & -> & Hcfg) | (_ & Hcfg & _)]; [| exact Hcfg].
  rewrite Hcfg. reflexivity.
Qed.

Lemma coordinator_replaces_handle_only_on_success_witness :
  let st := Scripted.opened "upload-1" Scenario2.refused_once in
  let run := complete_with_timeout_retry Scripted.client 3
               Scenario.three_parts 60 100 st in
  fst run = Ok tt /\
  complete_timeouts (trace (snd run)) = [60; 120] /\
  parts_completed (snd run) = parts_completed st /\
  s3_config (snd run) = Some 120.
Proof.
  cbv zeta. split; [vm_compute; reflexivity |].
  split; [vm_compute; reflexivity |].
  destruct (@coordinator_replaces_handle_only_on_success _ Scripted.client 3
              Scenario.three_parts 60 100
              (Scripted.opened "upload-1" Scenario2.refused_once) "upload-1"
              (Ok tt)
              (snd (complete_with_timeout_retry Scripted.client 3
                      Scenario.three_parts 60 100
                      (Scripted.opened "upload-1" Scenario2.refused_once)))
              (trace (snd (complete_with_timeout_retry Scripted.client 3
                             Scenario.three_parts 60 100
                             (Scripted.opened "upload-1"
                                Scenario2.refused_once)))))
    as (Hpc & Hcfg).
  - reflexivity.
  - vm_compute. reflexivity.
  - vm_compute. reflexivity.
  - split; [exact Hpc |]. rewrite Hcfg. vm_compute. reflexivity.
Defined.

(** X7. Whatever happens, the coordinator observes complete requests, head
    requests and sleeps only; it sends at most [max_retries] complete
    requests, each for the session of [self.upload_id] and with the parts
    list it was given; and every poll goes through the handle built for the
    latest complete request, never through an older one. *)
Theorem coordinator_requests_are_uniform :
  forall (S : Type) (s3 : S3 S) (max_retries : Z) (parts : list part)
         (initial_timeout expected_size : Z) (st : state S) (id : string)
         (r : outcome unit) (st' : state S) (evs : list event),
    upload_id st = Some id ->
    complete_with_timeout_retry s3 max_retries parts initial_timeout
      expected_size st = (r, st') ->
    trace st' = trace st ++ evs ->
    Z.of_nat (List.length (complete_timeouts evs)) <= Z.max 0 max_retries /\
    Forall (fun ev => match ev with
                      | CompleteMultipartUpload _ u p _ => u = id /\ p = parts
                      | Sleep _ | HeadObject _ _ => True
                      | _ => False
                      end) evs /\
    polls_use_latest_handle (s3_config st) evs.
Proof.
  intros S s3 max_retries parts initial_timeout expected_size st id r st' evs
    Hid H Htrace.
  erewrite complete_with_timeout_retry_unfold in H; [| exact Hid].
  eapply complete_loop_run in H; [| reflexivity].
  destruct H as (evs0 & (Htr & _) & _ & Hlen & Hshape & Hhandle & _).
  assert (evs0 = evs) as ->.
  { rewrite Htr in Htrace. apply app_inv_head in Htrace. exact Htrace. }
  pose proof (range_length 1 (max_retries + 1)) as Hr.
  splits; auto. lia.
Qed.

Lemma coordinator_requests_are_uniform_witness :
  let st := Scripted.opened "upload-1" Scenario.never_merged in
  let evs := trace (snd (complete_with_timeout_retry Scripted.client 3
                           Scenario.three_parts 60 100 st)) in
  Z.of_nat (List.length (complete_timeouts evs)) <= Z.max 0 3 /\
  Forall (fun ev => match ev with
                    | CompleteMultipartUpload _ u p _ =>
                        u = "upload-1" /\ p = Scenario.three_parts
                    | Sleep _ | HeadObject _ _ => True
                    | _ => False
                    end) evs /\
  polls_use_latest_handle None evs.
Proof.
  cbv zeta.
  apply (@coordinator_requests_are_uniform _ Scripted.client 3
           Scenario.three_parts 60 100
           (Scripted.opened "upload-1" Scenario.never_merged) "upload-1"
           (fst (complete_with_timeout_retry Scripted.client 3
                   Scenario.three_parts 60 100
                   (Scripted.opened "upload-1" Scenario.never_merged)))
           (snd (complete_with_timeout_retry Scripted.client 3
                   Scenario.three_parts 60 100
                   (Scripted.opened "upload-1" Scenario.never_merged)))).
  - reflexivity.
  - vm_compute. reflexivity.
  - vm_compute. reflexivity.
Defined.

(** X8. Every failure of the complete request that the coordinator
    catches and that does not report the session missing (a client timeout,
    any other botocore error, a client error with another code) is handled
    the same way: the coordinator sleeps the current timeout and then polls
    with a head request, whatever the poll then says. *)
Theorem caught_failure_waits_then_polls :
  forall (S : Type) (s3 : S3 S) (max_retries : Z) (uid : string)
         (parts : list part) (expected_size attempt : Z) (rest : list Z)
         (timeout : Z) (last_exc : option exn) (st : state S)
         (exc : exn) (s1 : S) (r : outcome unit) (st' : state S),
    1 <= max_retries ->
    0 <= timeout ->
    s3_complete_multipart_upload s3 (Some timeout) uid parts (remote st)
      = (Raise exc, s1) ->
    isinstance_boto exc = true ->
    is_no_such_upload_error exc = false ->
    complete_loop s3 max_retries uid parts expected_size (attempt :: rest)
      timeout last_exc st = (r, st') ->
    exists r0 more,
      trace st' =
        trace st ++
        CompleteMultipartUpload timeout uid parts (Raise exc) ::
        Sleep timeout :: HeadObject (Some timeout) r0 :: more.
Proof.
  intros S s3 max_retries uid parts expected_size attempt rest timeout
    last_exc st exc s1 r st' Hmr Htm Hcall Hboto Hmissing H.
  rewrite complete_loop_step, Hcall in H. cbv zeta in H.
  rewrite Hboto, Hmissing in H.
  replace (if isinstance_timeout exc then false else false) with false in H
    by (destruct (isinstance_timeout exc); reflexivity).
  rewrite sleep_ok in H by lia. cbn [remote observe] in H.
  match type of H with
  | context [call_with_524_retry s3 max_retries ?f ?x] =>
      destruct (call_with_524_retry s3 max_retries f x) as [poll st3] eqn:Hpoll
  end.
  apply poll_spec in Hpoll.
  destruct Hpoll as (evs & (Htr & _) & _ & _ & Hfirst & _).
  destruct (Hfirst Hmr) as (r0 & polls & ->).
  cbn [trace observe] in Htr.
  assert (Hgrow : exists evs, trace st' = trace st3 ++ evs).
  { destruct (poll_confirms poll expected_size).
    - inversion H; subst. exists []. cbn. rewrite app_nil_r. reflexivity.
    - destruct (attempt =? max_retries).
      + inversion H; subst. exists []. rewrite app_nil_r. reflexivity.
      + apply complete_loop_grows in H. destruct H as (evs & E & _). eauto. }
  destruct Hgrow as (evs & E).
  exists r0, (polls ++ evs).
  rewrite E, Htr, <- !app_assoc. reflexivity.
Qed.

Lemma caught_failure_waits_then_polls_witness :
  let st := Scripted.opened "upload-1" Scenario2.refused_once in
  exists r0 more,
    trace (snd (complete_with_timeout_retry Scripted.client 3
                  Scenario.three_parts 60 100 st)) =
      trace st ++
      CompleteMultipartUpload 60 "upload-1" Scenario.three_parts
        (Raise Scenario2.server_error) ::
      Sleep 60 :: HeadObject (Some 60) r0 :: more.
Proof.
  cbv zeta.
  change (complete_with_timeout_retry Scripted.client 3 Scenario.three_parts
            60 100 (Scripted.opened "upload-1" Scenario2.refused_once))
    with (complete_loop Scripted.client 3 "upload-1" Scenario.three_parts 100
            [1; 2; 3] 60 None
            (Scripted.opened "upload-1" Scenario2.refused_once)).
  eapply (@caught_failure_waits_then_polls _ Scripted.client 3 "upload-1"
            Scenario.three_parts 100 1 [2; 3] 60 None
            (Scripted.opened "upload-1" Scenario2.refused_once)
            Scenario2.server_error _
            (fst (complete_loop Scripted.client 3 "upload-1"
                    Scenario.three_parts 100 [1; 2; 3] 60 None
                    (Scripted.opened "upload-1" Scenario2.refused_once))));
    [lia | lia | reflexivity | reflexivity | reflexivity
    | vm_compute; reflexivity].
Defined.
(** ** The driver, phase by phase *)

Lemma sorted_by_PartNumber_all {S} (parts : list (option part)) :
  forall (st : state S) sorted st',
    sorted_by_PartNumber parts st = (Ok sorted, st') ->
    exists keyed, parts = map Some keyed /\ sorted = sort_parts keyed.
Proof.
  unfold sorted_by_PartNumber. intros st sorted st' H. unfold bind in H.
  assert (Hk : forall (ps : list (option part)) (st0 : state S) keyed st1,
    for_each (fun p : option part =>
                match p with
                | Some x => ret x
                | None => raise TypeError
                end) ps st0 = (Ok keyed, st1) -> ps = map Some keyed).
  { induction ps as [| p ps IH]; intros st0 keyed st1 H0.
    - cbn in H0. unfold ret in H0. inversion H0. reflexivity.
    - cbn [for_each] in H0. unfold bind in H0.
      destruct p as [x |]; [| unfold raise in H0; discriminate H0].
      unfold ret at 1 in H0.
      destruct (for_each _ ps st0) as [[ys | e] st2] eqn:H2;
        unfold ret in H0; inversion H0; subst.
      apply IH in H2. subst ps. reflexivity. }
  destruct (for_each _ parts st) as [[keyed | e] st1] eqn:H1;
    unfold ret in H; inversion H; subst.
  apply Hk in H1. eauto.
Qed.

Lemma chunk_plan_numbers (file_size part_size total : Z) :
  map part_number (chunk_plan file_size part_size total) = range 1 (total + 1).
Proof.
  unfold chunk_plan. rewrite map_map. cbn [plan_chunk part_number].
  apply map_id.
Qed.

Section DriverRun.

Variable S : Type.
Variable s3 : S3 S.
Variable part_size : Z.
Variable max_retries : Z.
Variable getsize : Z.

(** The recount leaves the attributes of [self] alone. *)
Lemma recount_run (id : string) (st st' : state S)
    (seen : outcome (option (list part))) :
  upload_id st = Some id ->
  call_with_524_retry s3 max_retries (fetch_parts s3) st = (seen, st') ->
  exists evs,
    extends st st' evs /\
    parts_completed st' = parts_completed st /\
    Forall (fun ev => is_sleep ev = true \/ is_list_parts ev = true) evs.
Proof.
  intros Hid H. unfold call_with_524_retry in H.
  eapply call_with_524_retry_loop_spec
    with (mk := ListParts id) (inv := fun st0 => upload_id st0 = Some id)
    in H; auto.
  - destruct H as (evs & Hext & _ & _ & Hpc & Hall & _).
    exists evs. splits; auto.
    eapply Forall_impl; [| exact Hall].
    intros ev [E | [r0 ->]]; auto.
  - intros st0 r st1 Hinv Hc. eapply one_call_fetch_parts; eauto.
  - intros r1 r2 E. inversion E. reflexivity.
Qed.

(** The [try] block of [upload], phase by phase: the part uploads [ups],
    the recount [lists], then completion and verification [rest]. *)
(** A poll that was answered has observed that answer. *)
Lemma poll_answer_observed (cfg : client_config) (st st' : state S)
    (poll : outcome (option (option Z))) :
  call_with_524_retry s3 max_retries (head_object s3 cfg) st = (poll, st') ->
  forall a evs, poll = Ok (Some a) -> extends st st' evs -> evs <> [].
Proof.
  intros H a evs Hpoll (Htr & _) N. subst evs poll.
  unfold call_with_524_retry in H.
  eapply call_with_524_retry_loop_spec
    with (mk := HeadObject cfg) (inv := fun _ => True) in H; auto.
  - destruct H as (evs & (Htr0 & _) & _ & _ & _ & _ & _ & _ & Hlast & _).
    destruct (Hlast a eq_refl) as [pre ->].
    rewrite Htr0 in Htr. apply app_inv_head in Htr.
    destruct pre; discriminate Htr.
  - intros st0 r st1 _ Hc. eapply one_call_head_object; eauto.
  - intros r1 r2 E. inversion E. reflexivity.
Qed.

Lemma upload_body_run (id : string) (total completion : Z)
    (start_time : Float.float) (st st' : state S) (r : outcome unit) :
  upload_id st = Some id ->
  upload_body s3 part_size max_retries getsize total completion start_time st
    = (r, st') ->
  exists ups lists rest,
    extends st st' (ups ++ lists ++ rest) /\
    parts_completed st' =
      parts_completed st + Z.of_nat (List.length (acks ups)) /\
    Forall (planned_upload getsize part_size total id) ups /\
    Forall (fun ev => is_sleep ev = true \/ is_list_parts ev = true) lists /\
    Forall (fun ev => is_sleep ev = true \/ is_complete ev = true \/
                      is_head ev = true) rest /\
    (1 <= max_retries ->
     forall n, 1 <= n <= total ->
       exists r0,
         In (UploadPart n id (offset (plan_chunk getsize part_size n))
               (bytes_to_read (plan_chunk getsize part_size n)) r0) ups) /\
    (rest <> [] ->
     exists parts,
       Permutation parts (acks ups) /\
       map PartNumber parts = range 1 (total + 1) /\
       Forall (fun ev => match ev with
                         | CompleteMultipartUpload _ u p _ =>
                             u = id /\ p = parts
                         | _ => True
                         end) rest) /\
    (r = Ok tt -> rest <> []).
Proof.
  intros Hid H. unfold upload_body in H. unfold bind in H.
  (* part uploads *)
  destruct (executor s3 max_retries (chunk_plan getsize part_size total)
              total start_time st) as [futures st1] eqn:Hpool.
  eapply executor_spec in Hpool; [| exact Hid].
  destruct Hpool as (futures0 & ups & -> & Hext1 & _ & Hpc1 & Hups & Hfperm &
                     Hnum & Hheld & Hreq).
  assert (Hid1 : upload_id st1 = Some id).
  { destruct Hext1 as (_ & _ & U). congruence. }
  assert (Hplanned : Forall (planned_upload getsize part_size total id) ups).
  { eapply Forall_impl; [| exact Hups].
    intros ev (c & Hin & Hev).
    unfold chunk_plan in Hin. apply in_map_iff in Hin.
    destruct Hin as (n & <- & Hn). apply In_range in Hn.
    destruct ev; cbn in Hev |- *; try contradiction; auto.
    destruct Hev as (-> & -> & -> & ->). splits; auto; lia. }
  assert (Hevery : 1 <= max_retries ->
            forall n, 1 <= n <= total ->
              exists r0,
                In (UploadPart n id (offset (plan_chunk getsize part_size n))
                      (bytes_to_read (plan_chunk getsize part_size n)) r0) ups).
  { intros Hmr n Hn. specialize (Hreq Hmr). rewrite Forall_forall in Hreq.
    apply (Hreq (plan_chunk getsize part_size n)).
    unfold chunk_plan. apply in_map. apply In_range. lia. }
  assert (Hexit1 : forall e, (Raise e, st1) = (r, st') ->
    exists ups0 lists rest,
      extends st st' (ups0 ++ lists ++ rest) /\
      parts_completed st' =
        parts_completed st + Z.of_nat (List.length (acks ups0)) /\
      Forall (planned_upload getsize part_size total id) ups0 /\
      Forall (fun ev => is_sleep ev = true \/ is_list_parts ev = true) lists /\
      Forall (fun ev => is_sleep ev = true \/ is_complete ev = true \/
                        is_head ev = true) rest /\
      (1 <= max_retries ->
       forall n, 1 <= n <= total ->
         exists r0,
           In (UploadPart n id (offset (plan_chunk getsize part_size n))
                 (bytes_to_read (plan_chunk getsize part_size n)) r0) ups0) /\
      (rest <> [] ->
       exists parts,
         Permutation parts (acks ups0) /\
         map PartNumber parts = range 1 (total + 1) /\
         Forall (fun ev => match ev with
                           | CompleteMultipartUpload _ u p _ =>
                               u = id /\ p = parts
                           | _ => True
                           end) rest) /\
      (r = Ok tt -> rest <> [])).
  { intros e E. inversion E; subst r st'. exists ups, [], [].
    splits; auto.
    - rewrite !app_nil_r. exact Hext1.
    - intros N. congruence.
    - intros N. discriminate N. }
  destruct (as_completed s3 (List.length futures0) (map snd futures0) st1)
    as [parts st1'] eqn:Hgather.
  apply as_completed_spec in Hgather; [| rewrite length_map; reflexivity].
  destruct Hgather as [-> Hgather].
  destruct parts as [parts | e]; [| eauto].
  (* recount *)
  destruct (call_with_524_retry s3 max_retries (fetch_parts s3) st1)
    as [seen st2] eqn:Hrecount.
  eapply recount_run in Hrecount; [| exact Hid1].
  destruct Hrecount as (lists & Hext2 & Hpc2 & Hlists).
  assert (Hext12 : extends st st2 (ups ++ lists)).
  { eapply extends_trans; eauto. }
  assert (Hid2 : upload_id st2 = Some id).
  { destruct Hext2 as (_ & _ & U). congruence. }
  assert (Hexit2 : forall e, (Raise e, st2) = (r, st') ->
    exists ups0 lists0 rest,
      extends st st' (ups0 ++ lists0 ++ rest) /\
      parts_completed st' =
        parts_completed st + Z.of_nat (List.length (acks ups0)) /\
      Forall (planned_upload getsize part_size total id) ups0 /\
      Forall (fun ev => is_sleep ev = true \/ is_list_parts ev = true) lists0 /\
      Forall (fun ev => is_sleep ev = true \/ is_complete ev = true \/
                        is_head ev = true) rest /\
      (1 <= max_retries ->
       forall n, 1 <= n <= total ->
         exists r0,
           In (UploadPart n id (offset (plan_chunk getsize part_size n))
                 (bytes_to_read (plan_chunk getsize part_size n)) r0) ups0) /\
      (rest <> [] ->
       exists parts,
         Permutation parts (acks ups0) /\
         map PartNumber parts = range 1 (total + 1) /\
         Forall (fun ev => match ev with
                           | CompleteMultipartUpload _ u p _ =>
                               u = id /\ p = parts
                           | _ => True
                           end) rest) /\
      (r = Ok tt -> rest <> [])).
  { intros e E. inversion E; subst r st'. exists ups, lists, [].
    splits; auto.
    - rewrite !app_nil_r. exact Hext12.
    - congruence.
    - intros N. congruence.
    - intros N. discriminate N. }
  destruct seen as [[found |] | e]; [| unfold raise in H; eauto | eauto].
  unfold ret at 1 in H.
  destruct (negb (Z.of_nat (List.length found) =? total));
    [unfold raise in H; eauto |].
  destruct (sorted_by_PartNumber parts st2) as [parts_sorted st2'] eqn:Hsort.
  pose proof (sorted_by_PartNumber_spec _ _ Hsort) as E2. subst st2'.
  destruct parts_sorted as [parts_sorted | e]; [| eauto].
  apply sorted_by_PartNumber_all in Hsort.
  destruct Hsort as (keyed & -> & ->).
  apply held_of_gathered in Hgather. destruct Hgather as [Hall_held Hkeyed].
  specialize (Hheld Hall_held).
  assert (Hsorted : Permutation (sort_parts keyed) (acks ups)).
  { rewrite sort_parts_perm, Hkeyed. symmetry. exact Hheld. }
  assert (Hnumbers : map PartNumber (sort_parts keyed) = range 1 (total + 1)).
  { apply sort_parts_range.
    rewrite (Permutation_map PartNumber Hkeyed).
    rewrite (held_numbers Hall_held Hnum).
    rewrite (Permutation_map part_number Hfperm).
    rewrite chunk_plan_numbers. reflexivity. }
  (* completion *)
  erewrite complete_with_timeout_retry_unfold in H; [| exact Hid2].
  destruct (complete_loop s3 max_retries id (sort_parts keyed) getsize
              (range 1 (max_retries + 1)) completion None st2)
    as [done st3] eqn:Hcoord.
  eapply complete_loop_run in Hcoord; [| reflexivity].
  destruct Hcoord as (coord & Hext3 & Hpc3 & _ & Hshape & _ & _).
  assert (Hext123 : extends st st3 (ups ++ lists ++ coord)).
  { eapply extends_trans; [exact Hext1 |]. eapply extends_trans; eauto. }
  assert (Hkind3 : Forall (fun ev => is_sleep ev = true \/
                     is_complete ev = true \/ is_head ev = true) coord).
  { eapply Forall_impl; [| exact Hshape].
    intros ev Hev. destruct ev; try contradiction; auto. }
  assert (Hparts3 : Forall (fun ev => match ev with
                       | CompleteMultipartUpload _ u p _ =>
                           u = id /\ p = sort_parts keyed
                       | _ => True
                       end) coord).
  { eapply Forall_impl; [| exact Hshape].
    intros ev Hev. destruct ev; auto. }
  assert (Hexit3 : forall r0 st4 verify,
    (r0, st4) = (r, st') ->
    extends st3 st4 verify ->
    parts_completed st4 = parts_completed st3 ->
    Forall (fun ev => is_sleep ev = true \/ is_head ev = true) verify ->
    (r0 = Ok tt -> verify <> []) ->
    exists ups0 lists0 rest,
      extends st st' (ups0 ++ lists0 ++ rest) /\
      parts_completed st' =
        parts_completed st + Z.of_nat (List.length (acks ups0)) /\
      Forall (planned_upload getsize part_size total id) ups0 /\
      Forall (fun ev => is_sleep ev = true \/ is_list_parts ev = true) lists0 /\
      Forall (fun ev => is_sleep ev = true \/ is_complete ev = true \/
                        is_head ev = true) rest /\
      (1 <= max_retries ->
       forall n, 1 <= n <= total ->
         exists r0,
           In (UploadPart n id (offset (plan_chunk getsize part_size n))
                 (bytes_to_read (plan_chunk getsize part_size n)) r0) ups0) /\
      (rest <> [] ->
       exists parts,
         Permutation parts (acks ups0) /\
         map PartNumber parts = range 1 (total + 1) /\
         Forall (fun ev => match ev with
                           | CompleteMultipartUpload _ u p _ =>
                               u = id /\ p = parts
                           | _ => True
                           end) rest) /\
      (r = Ok tt -> rest <> [])).
  { intros r0 st4 verify E Hext4 Hpc4 Hverify Hseen. inversion E; subst r st'.
    exists ups, lists, (coord ++ verify). splits; auto.
    - eapply extends_trans; [exact Hext1 |].
      eapply extends_trans; [exact Hext2 |]. eapply extends_trans; eauto.
    - congruence.
    - apply Forall_app. split; [exact Hkind3 |].
      eapply Forall_impl; [| exact Hverify]. intros ev [E0 | E0]; auto.
    - intros _. exists (sort_parts keyed).
      split; [exact Hsorted |]. split; [exact Hnumbers |].
      apply Forall_app. split; [exact Hparts3 |].
      eapply Forall_impl; [| exact Hverify].
      intros ev [E0 | E0]; destruct ev; try discriminate E0; exact I.
    - intros N M. apply app_eq_nil in M. destruct M as [_ M].
      exact (Hseen N M). }
  destruct done as [[] | e].
  2:{ eapply Hexit3 with (verify := []); eauto with uploader;
        intros N; discriminate N. }
  (* verification *)
  unfold get at 1 in H.
  destruct (call_with_524_retry s3 max_retries
              (head_object s3 (s3_config st3)) st3) as [head st4] eqn:Hverify.
  pose proof (@poll_answer_observed _ _ _ _ Hverify) as Hanswer.
  apply poll_run in Hverify.
  destruct Hverify as (verify & Hext4 & _ & Hpc4 & Hvall).
  assert (Hvkind : Forall (fun ev => is_sleep ev = true \/ is_head ev = true)
                     verify).
  { eapply Forall_impl; [| exact Hvall]. intros ev [E0 | [r0 ->]]; auto. }
  destruct head as [[uploaded_size |] | e].
  - unfold ContentLength, ret at 1 in H.
    destruct (negb (size_eqb uploaded_size getsize)).
    + unfold raise in H. eapply Hexit3; eauto; intros N; discriminate N.
    + unfold ret in H. eapply Hexit3; eauto;
        intros _; eapply Hanswer; eauto.
  - unfold ContentLength, raise in H.
    eapply Hexit3; eauto; intros N; discriminate N.
  - eapply Hexit3; eauto; intros N; discriminate N.
Qed.

(** Creating the session leaves the attributes of [self] alone; a created
    session is the last thing it observes. *)
Lemma create_run (st st' : state S) (resp : outcome (option string)) :
  call_with_524_retry s3 max_retries (create_multipart_upload s3) st
    = (resp, st') ->
  exists evs,
    extends st st' evs /\
    s3_config st' = s3_config st /\
    parts_completed st' = parts_completed st /\
    Forall (fun ev => is_sleep ev = true \/ is_create ev = true) evs /\
    (forall id, In (CreateMultipartUpload (Ok id)) evs -> resp = Ok (Some id)) /\
    (forall id, resp = Ok (Some id) ->
       exists pre, evs = pre ++ [CreateMultipartUpload (Ok id)]).
Proof.
  intros H. unfold call_with_524_retry in H.
  eapply call_with_524_retry_loop_spec
    with (mk := CreateMultipartUpload) (inv := fun _ => True) in H; auto.
  - destruct H as (evs & Hext & _ & Hcfg & Hpc & Hall & _ & Hin & Hlast & _).
    exists evs. splits; auto.
    eapply Forall_impl; [| exact Hall].
    intros ev [E | [r0 ->]]; auto.
  - intros st0 r st1 _ Hc. eapply one_call_create; eauto.
  - intros r1 r2 E. inversion E. reflexivity.
Qed.

(** A run of [upload] once the plan is computed: the requests that create
    the session, then the phases of the [try] block on that session. *)
Lemma upload_run (total completion : Z) (st st' : state S)
    (r : outcome unit) :
  total_parts getsize part_size = Ok total ->
  completion_timeout getsize = Ok completion ->
  upload s3 part_size max_retries getsize st = (r, st') ->
  exists creates ups lists rest,
    trace st' = trace st ++ creates ++ ups ++ lists ++ rest /\
    parts_completed st' =
      parts_completed st + Z.of_nat (List.length (acks ups)) /\
    Forall (fun ev => is_sleep ev = true \/ is_create ev = true) creates /\
    ((ups = [] /\ lists = [] /\ rest = [] /\ is_ok r = false /\
      log st' = log st /\ upload_id st' = upload_id st /\
      forall id, ~ In (CreateMultipartUpload (Ok id)) creates) \/
     exists id pre,
       creates = pre ++ [CreateMultipartUpload (Ok id)] /\
       (forall id', In (CreateMultipartUpload (Ok id')) creates -> id' = id) /\
       upload_id st' = Some id /\
       Forall (planned_upload getsize part_size total id) ups /\
       Forall (fun ev => is_sleep ev = true \/ is_list_parts ev = true) lists /\
       Forall (fun ev => is_sleep ev = true \/ is_complete ev = true \/
                         is_head ev = true) rest /\
       (1 <= max_retries ->
        forall n, 1 <= n <= total ->
          exists r0,
            In (UploadPart n id (offset (plan_chunk getsize part_size n))
                  (bytes_to_read (plan_chunk getsize part_size n)) r0) ups) /\
       (rest <> [] ->
        exists parts,
          Permutation parts (acks ups) /\
          map PartNumber parts = range 1 (total + 1) /\
          Forall (fun ev => match ev with
                            | CompleteMultipartUpload _ u p _ =>
                                u = id /\ p = parts
                            | _ => True
                            end) rest) /\
       (r = Ok tt -> rest <> [])).
Proof.
  intros Htotal Hcompletion H. unfold upload in H. cbv zeta in H.
  unfold bind in H. rewrite Htotal, Hcompletion in H.
  unfold of_outcome at 1 in H. unfold get at 1 in H. cbv beta iota in H.
  unfold of_outcome at 1 in H.
  destruct (call_with_524_retry s3 max_retries (create_multipart_upload s3) st)
    as [resp st1] eqn:Hcreate.
  apply create_run in Hcreate.
  destruct Hcreate as (creates & (Htr1 & Hlog1 & Hid1) & _ & Hpc1 & Hkind &
                       Hin & Hlast).
  assert (Hfail : forall e, (Raise e, st1) = (r, st') ->
            (forall id, resp <> Ok (Some id)) ->
            exists creates0 ups lists rest,
              trace st' = trace st ++ creates0 ++ ups ++ lists ++ rest /\
              parts_completed st' =
                parts_completed st + Z.of_nat (List.length (acks ups)) /\
              Forall (fun ev => is_sleep ev = true \/ is_create ev = true)
                creates0 /\
              ((ups = [] /\ lists = [] /\ rest = [] /\ is_ok r = false /\
                log st' = log st /\ upload_id st' = upload_id st /\
                forall id, ~ In (CreateMultipartUpload (Ok id)) creates0) \/
               exists id pre,
                 creates0 = pre ++ [CreateMultipartUpload (Ok id)] /\
                 (forall id', In (CreateMultipartUpload (Ok id')) creates0 ->
                              id' = id) /\
                 upload_id st' = Some id /\
                 Forall (planned_upload getsize part_size total id) ups /\
                 Forall (fun ev => is_sleep ev = true \/
                                   is_list_parts ev = true) lists /\
                 Forall (fun ev => is_sleep ev = true \/
                                   is_complete ev = true \/
                                   is_head ev = true) rest /\
                 (1 <= max_retries ->
                  forall n, 1 <= n <= total ->
                    exists r0,
                      In (UploadPart n id
                            (offset (plan_chunk getsize part_size n))
                            (bytes_to_read (plan_chunk getsize part_size n))
                            r0) ups) /\
                 (rest <> [] ->
                  exists parts,
                    Permutation parts (acks ups) /\
                    map PartNumber parts = range 1 (total + 1) /\
                    Forall (fun ev => match ev with
                                      | CompleteMultipartUpload _ u p _ =>
                                          u = id /\ p = parts
                                      | _ => True
                                      end) rest) /\
                 (r = Ok tt -> rest <> []))).
  { intros e E Hresp. inversion E; subst r st'.
    exists creates, [], [], []. splits; auto.
    - rewrite !app_nil_r. exact Htr1.
    - cbn. lia.
    - left. splits; auto. intros id Hi. apply Hin in Hi. eapply Hresp; eauto. }
  destruct resp as [[id |] | e].
  3:{ eapply Hfail; eauto. discriminate. }
  2:{ unfold raise in H. eapply Hfail; eauto. discriminate. }
  unfold ret at 1, modify at 1 in H. unfold try_except in H.
  destruct (upload_body s3 part_size max_retries getsize total completion
              (time_time s3 (remote st)) (set_upload_id (Some id) st1))
    as [rb st2] eqn:Hbody.
  eapply upload_body_run with (id := id) in Hbody; [| reflexivity].
  destruct Hbody as (ups & lists & rest & (Htr2 & Hlog2 & Hid2) & Hpc2 &
                     Hplanned & Hlists & Hrest & Hevery & Hgate & Hdone).
  cbn [trace log upload_id parts_completed set_upload_id]
    in Htr2, Hlog2, Hid2, Hpc2.
  destruct (Hlast id eq_refl) as [pre Hpre].
  assert (Hone : forall id', In (CreateMultipartUpload (Ok id')) creates ->
                             id' = id).
  { intros id' Hi. apply Hin in Hi. congruence. }
  exists creates, ups, lists, rest.
  destruct rb as [[] | e].
  - inversion H; subst r st'. splits; auto.
    + rewrite Htr2, Htr1, <- app_assoc. reflexivity.
    + congruence.
    + right. exists id, pre. splits; auto.
  - unfold report_failure in H. unfold_monad. cbn in H.
    rewrite Hid2 in H.
    destruct (String.eqb id EmptyString) eqn:Hempty; inversion H; subst r st';
      (splits; auto;
       [ cbn; rewrite Htr2, Htr1, <- app_assoc; reflexivity
       | cbn; congruence
       | right; exists id, pre; splits; auto; intros N; discriminate N ]).
Qed.

End DriverRun.

(** ** The driver as a whole *)

Lemma planned_upload_phase (file_size part_size total : Z) (id : string)
    (evs : list event) :
  Forall (planned_upload file_size part_size total id) evs ->
  Forall upload_phase evs.
Proof.
  intros H. eapply Forall_impl; [| exact H].
  intros ev Hev. unfold upload_phase. destruct ev; cbn in *; auto; contradiction.
Qed.

Lemma acks_quiet (evs : list event) :
  Forall (fun ev => is_upload_part ev = false) evs -> acks evs = [].
Proof.
  induction 1 as [| ev evs Hev _ IH]; [reflexivity |].
  unfold acks in *. cbn [flat_map]. rewrite IH.
  destruct ev; try discriminate Hev; reflexivity.
Qed.

(** Which phase an observation of a run belongs to. *)
Lemma phase_events (creates ups lists rest : list event) :
  Forall create_phase creates ->
  Forall upload_phase ups ->
  Forall recount_phase lists ->
  Forall completion_phase rest ->
  (forall ev, is_upload_part ev = true ->
     In ev (creates ++ ups ++ lists ++ rest) -> In ev ups) /\
  (forall ev, is_create ev = true ->
     In ev (creates ++ ups ++ lists ++ rest) -> In ev creates) /\
  (forall ev, is_complete ev = true ->
     In ev (creates ++ ups ++ lists ++ rest) -> In ev rest) /\
  acks (creates ++ ups ++ lists ++ rest) = acks ups.
Proof.
  intros Hc Hu Hl Hr.
  rewrite Forall_forall in Hc, Hu, Hl, Hr.
  unfold create_phase, upload_phase, recount_phase, completion_phase
    in Hc, Hu, Hl, Hr.
  splits.
  - intros ev Hk Hin.
    apply in_app_or in Hin. destruct Hin as [Hin | Hin];
      [apply Hc in Hin; destruct ev; cbn in *; intuition congruence |].
    apply in_app_or in Hin. destruct Hin as [Hin | Hin]; [exact Hin |].
    apply in_app_or in Hin. destruct Hin as [Hin | Hin];
      [apply Hl in Hin | apply Hr in Hin];
      destruct ev; cbn in *; intuition congruence.
  - intros ev Hk Hin.
    apply in_app_or in Hin. destruct Hin as [Hin | Hin]; [exact Hin |].
    apply in_app_or in Hin. destruct Hin as [Hin | Hin];
      [apply Hu in Hin; destruct ev; cbn in *; intuition congruence |].
    apply in_app_or in Hin. destruct Hin as [Hin | Hin];
      [apply Hl in Hin | apply Hr in Hin];
      destruct ev; cbn in *; intuition congruence.
  - intros ev Hk Hin.
    apply in_app_or in Hin. destruct Hin as [Hin | Hin];
      [apply Hc in Hin; destruct ev; cbn in *; intuition congruence |].
    apply in_app_or in Hin. destruct Hin as [Hin | Hin];
      [apply Hu in Hin; destruct ev; cbn in *; intuition congruence |].
    apply in_app_or in Hin. destruct Hin as [Hin | Hin]; [| exact Hin].
    apply Hl in Hin; destruct ev; cbn in *; intuition congruence.
  - rewrite !acks_app.
    rewrite (@acks_quiet creates), (@acks_quiet lists), (@acks_quiet rest).
    + rewrite !app_nil_r. reflexivity.
    + apply Forall_forall. intros ev Hin. apply Hr in Hin.
      destruct ev; cbn in *; intuition congruence.
    + apply Forall_forall. intros ev Hin. apply Hl in Hin.
      destruct ev; cbn in *; intuition congruence.
    + apply Forall_forall. intros ev Hin. apply Hc in Hin.
      destruct ev; cbn in *; intuition congruence.
Qed.

(** Planning fails before the store is touched. *)
Lemma upload_stops_without_plan {S} (s3 : S3 S)
    (part_size max_retries getsize : Z) (st st' : state S)
    (r : outcome unit) :
  upload s3 part_size max_retries getsize st = (r, st') ->
  (forall total completion,
     total_parts getsize part_size = Ok total ->
     completion_timeout getsize = Ok completion -> False) ->
  st' = st /\ is_ok r = false.
Proof.
  intros H Hno. unfold upload in H. cbv zeta in H. unfold bind in H.
  unfold of_outcome at 1 in H.
  destruct (total_parts getsize part_size) as [total | e].
  2:{ inversion H; subst. auto. }
  unfold of_outcome at 1 in H.
  destruct (completion_timeout getsize) as [completion | e].
  2:{ inversion H; subst. auto. }
  exfalso. eapply Hno; reflexivity.
Qed.

Lemma trace_suffix {S} (st st' : state S) (evs evs' : list event) :
  trace st' = trace st ++ evs -> trace st' = trace st ++ evs' -> evs = evs'.
Proof.
  intros H1 H2. rewrite H1 in H2. apply app_inv_head in H2. exact H2.
Qed.

Lemma trace_suffix_nil {S} (st : state S) (evs : list event) :
  trace st = trace st ++ evs -> evs = [].
Proof.
  intros H. rewrite <- (app_nil_r (trace st)) in H at 1.
  apply app_inv_head in H. auto.
Qed.

(** X9. Whatever the store answers, a run of [upload] observes its requests
    in four phases, in this order: the requests that create the session, the
    part uploads, the recount of the parts, and the complete requests with
    their polls and the final verification; back-offs apart, no request of
    one phase is seen in another.  Anything after the first phase is seen
    only behind a create request that returned a session. *)
Theorem upload_runs_in_phases {S} (s3 : S3 S)
    (part_size max_retries getsize : Z) (st st' : state S)
    (r : outcome unit) :
  upload s3 part_size max_retries getsize st = (r, st') ->
  exists creates ups lists rest,
    trace st' = trace st ++ creates ++ ups ++ lists ++ rest /\
    Forall create_phase creates /\
    Forall upload_phase ups /\
    Forall recount_phase lists /\
    Forall completion_phase rest /\
    (ups ++ lists ++ rest <> [] ->
     exists id pre, creates = pre ++ [CreateMultipartUpload (Ok id)]).
Proof.
  intros H.
  destruct (total_parts getsize part_size) as [total | e] eqn:Htotal.
  2:{ apply upload_stops_without_plan in H; [| intros; congruence].
      destruct H as [-> _]. exists [], [], [], []. cbn.
      rewrite app_nil_r. splits; auto; try constructor.
      intros N. contradiction N. reflexivity. }
  destruct (completion_timeout getsize) as [completion | e] eqn:Hcompletion.
  2:{ apply upload_stops_without_plan in H; [| intros; congruence].
      destruct H as [-> _]. exists [], [], [], []. cbn.
      rewrite app_nil_r. splits; auto; try constructor.
      intros N. contradiction N. reflexivity. }
  eapply upload_run in H; eauto.
  destruct H as (creates & ups & lists & rest & Htr & _ & Hcreates & Hcases).
  exists creates, ups, lists, rest.
  destruct Hcases as [(-> & -> & -> & _) |
                      (id & pre & Hpre & _ & _ & Hplanned & Hlists & Hrest & _)].
  - splits; auto; try constructor.
    intros N. contradiction N. reflexivity.
  - splits; auto.
    + eapply planned_upload_phase; eauto.
    + intros _. eauto.
Qed.

Lemma upload_runs_in_phases_witness :
  let run := upload Scripted.client (50 * Scenario.MiB) 5 (101 * Scenario.MiB)
               (Scripted.fresh Scenario.happy) in
  exists creates ups lists rest,
    trace (snd run) = [] ++ creates ++ ups ++ lists ++ rest /\
    Forall create_phase creates /\
    Forall upload_phase ups /\
    Forall recount_phase lists /\
    Forall completion_phase rest /\
    (ups ++ lists ++ rest <> [] ->
     exists id pre, creates = pre ++ [CreateMultipartUpload (Ok id)]).
Proof.
  cbv zeta.
  apply (@upload_runs_in_phases _ Scripted.client (50 * Scenario.MiB) 5
           (101 * Scenario.MiB) (Scripted.fresh Scenario.happy)
           (snd (upload Scripted.client (50 * Scenario.MiB) 5
                   (101 * Scenario.MiB) (Scripted.fresh Scenario.happy)))
           (fst (upload Scripted.client (50 * Scenario.MiB) 5
                   (101 * Scenario.MiB) (Scripted.fresh Scenario.happy)))).
  vm_compute. reflexivity.
Defined.

(** X10. Every part-upload request of a run of [upload] is made on the
    session that was created, for a part number between 1 and the planned
    number of parts, with the offset and the length the plan gives to that
    part.  When at least one try is allowed and the session was created,
    every part of the plan gets a request, whatever happens to the others. *)
Theorem part_requests_follow_the_plan {S} (s3 : S3 S)
    (part_size max_retries getsize total : Z) (st st' : state S)
    (r : outcome unit) (evs : list event) :
  total_parts getsize part_size = Ok total ->
  upload s3 part_size max_retries getsize st = (r, st') ->
  trace st' = trace st ++ evs ->
  (forall n uid off len r0,
     In (UploadPart n uid off len r0) evs ->
     upload_id st' = Some uid /\
     In (CreateMultipartUpload (Ok uid)) evs /\
     1 <= n <= total /\
     off = offset (plan_chunk getsize part_size n) /\
     len = bytes_to_read (plan_chunk getsize part_size n)) /\
  (1 <= max_retries ->
   forall id, In (CreateMultipartUpload (Ok id)) evs ->
   forall n, 1 <= n <= total ->
     exists r0,
       In (UploadPart n id (offset (plan_chunk getsize part_size n))
             (bytes_to_read (plan_chunk getsize part_size n)) r0) evs).
Proof.
  intros Htotal H Htrace.
  destruct (completion_timeout getsize) as [completion | e] eqn:Hcompletion.
  2:{ apply upload_stops_without_plan in H; [| intros; congruence].
      destruct H as [-> _]. apply trace_suffix_nil in Htrace. subst evs.
      split; [intros n uid off len r0 [] | intros _ id []]. }
  eapply upload_run in H; eauto.
  destruct H as (creates & ups & lists & rest & Htr & _ & Hcreates & Hcases).
  rewrite (@trace_suffix _ _ _ _ _ Htrace Htr). clear Htrace evs.
  destruct Hcases as [(-> & -> & -> & _ & _ & _ & Hnone) |
                      (id & pre & Hpre & Hone & Hid & Hplanned & Hlists &
                       Hrest & Hevery & _)].
  - cbn. rewrite app_nil_r. split.
    + intros n uid off len r0 Hin.
      rewrite Forall_forall in Hcreates. apply Hcreates in Hin.
      destruct Hin as [E | E]; discriminate E.
    + intros _ id Hin. exfalso. exact (Hnone id Hin).
  - destruct (phase_events Hcreates (planned_upload_phase Hplanned)
                Hlists Hrest) as (Hups & Hcr & _ & _).
    split.
    + intros n uid off len r0 Hin.
      apply Hups in Hin; [| reflexivity].
      rewrite Forall_forall in Hplanned. apply Hplanned in Hin.
      cbn in Hin. destruct Hin as (-> & Hn & -> & ->).
      split; [exact Hid |]. split; [| auto].
      rewrite Hpre, <- app_assoc. apply in_or_app. right. left. reflexivity.
    + intros Hmr id0 Hin n Hn.
      apply Hcr in Hin; [| reflexivity].
      rewrite (Hone id0 Hin).
      destruct (Hevery Hmr n Hn) as [r0 Hr0]. exists r0.
      apply in_or_app. right. apply in_or_app. left. exact Hr0.
Qed.

Lemma part_requests_follow_the_plan_witness :
  let run := upload Scripted.client (50 * Scenario.MiB) 5 (101 * Scenario.MiB)
               (Scripted.fresh Scenario.happy) in
  exists r0,
    In (UploadPart 3 "upload-1" (100 * Scenario.MiB) Scenario.MiB r0)
      (trace (snd run)).
Proof.
  cbv zeta.
  destruct (@part_requests_follow_the_plan _ Scripted.client
              (50 * Scenario.MiB) 5 (101 * Scenario.MiB) 3
              (Scripted.fresh Scenario.happy)
              (snd (upload Scripted.client (50 * Scenario.MiB) 5
                      (101 * Scenario.MiB) (Scripted.fresh Scenario.happy)))
              (fst (upload Scripted.client (50 * Scenario.MiB) 5
                      (101 * Scenario.MiB) (Scripted.fresh Scenario.happy)))
              (trace (snd (upload Scripted.client (50 * Scenario.MiB) 5
                             (101 * Scenario.MiB)
                             (Scripted.fresh Scenario.happy)))))
    as (_ & Hevery).
  - vm_compute. reflexivity.
  - vm_compute. reflexivity.
  - vm_compute. reflexivity.
  - apply (Hevery ltac:(lia) "upload-1" ltac:(vm_compute; tauto) 3 ltac:(lia)).
Defined.

(** X11. A complete request is sent only once every part from 1 to the
    planned number of parts was acknowledged by the store: it names the
    session that was created and lists exactly the acknowledged parts, each
    once and with the ETag the store returned for it, in ascending part
    number whatever the order in which the workers got them through.  A run
    of [upload] that returns normally has had every part acknowledged. *)
Theorem completion_lists_the_acknowledged_parts {S} (s3 : S3 S)
    (part_size max_retries getsize total : Z) (st st' : state S)
    (r : outcome unit) (evs : list event) :
  total_parts getsize part_size = Ok total ->
  upload s3 part_size max_retries getsize st = (r, st') ->
  trace st' = trace st ++ evs ->
  (forall tm uid parts r0,
     In (CompleteMultipartUpload tm uid parts r0) evs ->
     upload_id st' = Some uid /\
     Permutation parts (acks evs) /\
     map PartNumber parts = range 1 (total + 1)) /\
  (r = Ok tt ->
   Permutation (map PartNumber (acks evs)) (range 1 (total + 1))).
Proof.
  intros Htotal H Htrace.
  destruct (completion_timeout getsize) as [completion | e] eqn:Hcompletion.
  2:{ apply upload_stops_without_plan in H; [| intros; congruence].
      destruct H as [-> Hr]. apply trace_suffix_nil in Htrace. subst evs.
      split; [intros tm uid parts r0 [] |].
      intros ->. discriminate Hr. }
  eapply upload_run in H; eauto.
  destruct H as (creates & ups & lists & rest & Htr & _ & Hcreates & Hcases).
  rewrite (@trace_suffix _ _ _ _ _ Htrace Htr). clear Htrace evs.
  destruct Hcases as [(-> & -> & -> & Hr & _ & _ & Hnone) |
                      (id & pre & Hpre & Hone & Hid & Hplanned & Hlists &
                       Hrest & _ & Hgate & Hdone)].
  - cbn. rewrite app_nil_r. split.
    + intros tm uid parts r0 Hin.
      rewrite Forall_forall in Hcreates. apply Hcreates in Hin.
      destruct Hin as [E | E]; discriminate E.
    + intros ->. discriminate Hr.
  - destruct (phase_events Hcreates (planned_upload_phase Hplanned)
                Hlists Hrest) as (_ & _ & Hcmp & ->).
    split.
    + intros tm uid parts r0 Hin.
      apply Hcmp in Hin; [| reflexivity].
      assert (Hne : rest <> []) by (intros N; rewrite N in Hin; exact Hin).
      destruct (Hgate Hne) as (sent & Hperm & Hnum & Hall).
      rewrite Forall_forall in Hall. apply Hall in Hin.
      destruct Hin as [-> ->]. auto.
    + intros Hr. destruct (Hgate (Hdone Hr)) as (sent & Hperm & Hnum & _).
      rewrite <- Hnum. apply Permutation_map. symmetry. exact Hperm.
Qed.

Lemma completion_lists_the_acknowledged_parts_witness :
  let run := upload Scenario2.out_of_order (50 * Scenario.MiB) 5
               (101 * Scenario.MiB) (Scripted.fresh Scenario.happy) in
  map PartNumber (acks (trace (snd run))) = [2; 3; 1] /\
  Permutation (map PartNumber (acks (trace (snd run)))) (range 1 (3 + 1)).
Proof.
  cbv zeta. split; [vm_compute; reflexivity |].
  destruct (@completion_lists_the_acknowledged_parts _ Scenario2.out_of_order
              (50 * Scenario.MiB) 5 (101 * Scenario.MiB) 3
              (Scripted.fresh Scenario.happy)
              (snd (upload Scenario2.out_of_order (50 * Scenario.MiB) 5
                      (101 * Scenario.MiB) (Scripted.fresh Scenario.happy)))
              (fst (upload Scenario2.out_of_order (50 * Scenario.MiB) 5
                      (101 * Scenario.MiB) (Scripted.fresh Scenario.happy)))
              (trace (snd (upload Scenario2.out_of_order (50 * Scenario.MiB) 5
                             (101 * Scenario.MiB)
                             (Scripted.fresh Scenario.happy)))))
    as (_ & Hdone).
  - vm_compute. reflexivity.
  - vm_compute. reflexivity.
  - vm_compute. reflexivity.
  - apply Hdone. vm_compute. reflexivity.
Defined.

(** X12. Over a whole run of [upload] the progress counter
    [parts_completed] grows by exactly the number of part uploads the store
    acknowledged, failed and retried requests not counted; after a run that
    returns normally it has grown by the planned number of parts. *)
Theorem progress_counter_counts_acknowledged_parts {S} (s3 : S3 S)
    (part_size max_retries getsize : Z) (st st' : state S)
    (r : outcome unit) (evs : list event) :
  upload s3 part_size max_retries getsize st = (r, st') ->
  trace st' = trace st ++ evs ->
  parts_completed st' =
    parts_completed st + Z.of_nat (List.length (acks evs)) /\
  (forall total,
     total_parts getsize part_size = Ok total -> r = Ok tt ->
     parts_completed st' = parts_completed st + Z.max 0 total).
Proof.
  intros H Htrace.
  destruct (total_parts getsize part_size) as [total | e] eqn:Htotal.
  2:{ apply upload_stops_without_plan in H; [| intros; congruence].
      destruct H as [-> Hr]. apply trace_suffix_nil in Htrace. subst evs.
      cbn. split; [lia |]. intros total E. discriminate E. }
  destruct (completion_timeout getsize) as [completion | e] eqn:Hcompletion.
  2:{ apply upload_stops_without_plan in H; [| intros; congruence].
      destruct H as [-> Hr]. apply trace_suffix_nil in Htrace. subst evs.
      cbn. split; [lia |]. intros total0 _ ->. discriminate Hr. }
  eapply upload_run in H; eauto.
  destruct H as (creates & ups & lists & rest & Htr & Hpc & Hcreates & Hcases).
  rewrite (@trace_suffix _ _ _ _ _ Htrace Htr). clear Htrace evs.
  destruct Hcases as [(-> & -> & -> & Hr & _ & _ & Hnone) |
                      (id & pre & Hpre & Hone & Hid & Hplanned & Hlists &
                       Hrest & _ & Hgate & Hdone)].
  - cbn. rewrite app_nil_r, (@acks_quiet creates).
    + cbn in *. split; [lia |]. intros total0 _ ->. discriminate Hr.
    + eapply Forall_impl; [| exact Hcreates].
      intros ev [E | E]; destruct ev; try discriminate E; reflexivity.
  - destruct (phase_events Hcreates (planned_upload_phase Hplanned)
                Hlists Hrest) as (_ & _ & _ & ->).
    split; [exact Hpc |].
    intros total0 E Hr. inversion E; subst total0.
    destruct (Hgate (Hdone Hr)) as (sent & Hperm & Hnum & _).
    apply (f_equal (@List.length Z)) in Hnum.
    rewrite length_map in Hnum.
    apply Permutation_length in Hperm.
    pose proof (range_length 1 (total + 1)) as Hlen. lia.
Qed.

Lemma progress_counter_counts_acknowledged_parts_witness :
  let run := upload Scripted.client (50 * Scenario.MiB) 5 (101 * Scenario.MiB)
               (Scripted.fresh Scenario.happy) in
  parts_completed (snd run) = 0 + Z.max 0 3.
Proof.
  cbv zeta.
  destruct (@progress_counter_counts_acknowledged_parts _ Scripted.client
              (50 * Scenario.MiB) 5 (101 * Scenario.MiB)
              (Scripted.fresh Scenario.happy)
              (snd (upload Scripted.client (50 * Scenario.MiB) 5
                      (101 * Scenario.MiB) (Scripted.fresh Scenario.happy)))
              (fst (upload Scripted.client (50 * Scenario.MiB) 5
                      (101 * Scenario.MiB) (Scripted.fresh Scenario.happy)))
              (trace (snd (upload Scripted.client (50 * Scenario.MiB) 5
                             (101 * Scenario.MiB)
                             (Scripted.fresh Scenario.happy)))))
    as (_ & Hdone).
  - vm_compute. reflexivity.
  - vm_compute. reflexivity.
  - apply (Hdone 3); vm_compute; reflexivity.
Defined.

(** X13. With [max_retries <= 0] a run of [upload] never reaches the store:
    the retry wrapper returns [None] for the create request, subscripting it
    raises [TypeError] outside the [try] block, and nothing is observed,
    logged as a failure or changed on [self]. *)
Theorem upload_without_tries_fails_before_any_call {S} (s3 : S3 S)
    (part_size max_retries getsize : Z) (st st' : state S)
    (r : outcome unit) :
  max_retries <= 0 ->
  upload s3 part_size max_retries getsize st = (r, st') ->
  st' = st /\
  is_ok r = false /\
  (forall total completion,
     total_parts getsize part_size = Ok total ->
     completion_timeout getsize = Ok completion ->
     r = Raise TypeError).
Proof.
  intros Hmr H. unfold upload in H. cbv zeta in H. unfold bind in H.
  unfold of_outcome at 1 in H.
  destruct (total_parts getsize part_size) as [total | e].
  2:{ inversion H; subst. splits; auto. intros ? ? E. discriminate E. }
  unfold of_outcome at 1 in H.
  destruct (completion_timeout getsize) as [completion | e].
  2:{ inversion H; subst. splits; auto. intros ? ? _ E. discriminate E. }
  unfold call_with_524_retry in H. rewrite range_nil in H by lia.
  cbn in H. unfold ret, raise in H. inversion H; subst.
  splits; auto.
Qed.

Lemma upload_without_tries_fails_before_any_call_witness :
  let run := upload Scripted.client (50 * Scenario.MiB) 0 (101 * Scenario.MiB)
               (Scripted.fresh Scenario.happy) in
  snd run = Scripted.fresh Scenario.happy /\ fst run = Raise TypeError.
Proof.
  cbv zeta.
  destruct (@upload_without_tries_fails_before_any_call _ Scripted.client
              (50 * Scenario.MiB) 0 (101 * Scenario.MiB)
              (Scripted.fresh Scenario.happy)
              (snd (upload Scripted.client (50 * Scenario.MiB) 0
                      (101 * Scenario.MiB) (Scripted.fresh Scenario.happy)))
              (fst (upload Scripted.client (50 * Scenario.MiB) 0
                      (101 * Scenario.MiB) (Scripted.fresh Scenario.happy))))
    as (Hst & _ & Hr).
  - lia.
  - vm_compute. reflexivity.
  - split; [exact Hst |].
    apply (Hr 3 60); vm_compute; reflexivity.
Defined.

(** X14. When no create request returns a session, [upload] raises without
    going further: it observes create requests and back-offs only, leaves
    [upload_id] and the progress counter as they were, and the failure is
    not reported by the [except] block, which starts after the session is
    created. *)
Theorem failed_create_is_not_reported {S} (s3 : S3 S)
    (part_size max_retries getsize : Z) (st st' : state S)
    (r : outcome unit) (evs : list event) :
  upload s3 part_size max_retries getsize st = (r, st') ->
  trace st' = trace st ++ evs ->
  (forall id, ~ In (CreateMultipartUpload (Ok id)) evs) ->
  is_ok r = false /\
  Forall create_phase evs /\
  log st' = log st /\
  upload_id st' = upload_id st /\
  parts_completed st' = parts_completed st.
Proof.
  intros H Htrace Hnone.
  destruct (total_parts getsize part_size) as [total | e] eqn:Htotal.
  2:{ apply upload_stops_without_plan in H; [| intros; congruence].
      destruct H as [-> Hr]. apply trace_suffix_nil in Htrace. subst evs.
      splits; auto. }
  destruct (completion_timeout getsize) as [completion | e] eqn:Hcompletion.
  2:{ apply upload_stops_without_plan in H; [| intros; congruence].
      destruct H as [-> Hr]. apply trace_suffix_nil in Htrace. subst evs.
      splits; auto. }
  eapply upload_run in H; eauto.
  destruct H as (creates & ups & lists & rest & Htr & Hpc & Hcreates & Hcases).
  rewrite (@trace_suffix _ _ _ _ _ Htrace Htr) in *. clear Htrace evs.
  destruct Hcases as [(-> & -> & -> & Hr & Hlog & Hid & _) |
                      (id & pre & Hpre & _)].
  - cbn in *. rewrite app_nil_r. splits; auto. lia.
  - exfalso. apply (Hnone id). rewrite Hpre, <- app_assoc.
    apply in_or_app. right. left. reflexivity.
Qed.

Lemma failed_create_is_not_reported_witness :
  let run := upload Scripted.client (50 * Scenario.MiB) 5 (101 * Scenario.MiB)
               (Scripted.fresh Scenario2.no_session) in
  is_ok (fst run) = false /\
  Forall create_phase (trace (snd run)) /\
  log (snd run) = [] /\
  upload_id (snd run) = None /\
  parts_completed (snd run) = 0.
Proof.
  cbv zeta.
  apply (@failed_create_is_not_reported _ Scripted.client
           (50 * Scenario.MiB) 5 (101 * Scenario.MiB)
           (Scripted.fresh Scenario2.no_session)
           (snd (upload Scripted.client (50 * Scenario.MiB) 5
                   (101 * Scenario.MiB) (Scripted.fresh Scenario2.no_session)))
           (fst (upload Scripted.client (50 * Scenario.MiB) 5
                   (101 * Scenario.MiB) (Scripted.fresh Scenario2.no_session)))
           (trace (snd (upload Scripted.client (50 * Scenario.MiB) 5
                          (101 * Scenario.MiB)
                          (Scripted.fresh Scenario2.no_session))))).
  - vm_compute. reflexivity.
  - vm_compute. reflexivity.
  - vm_compute. intros id [E | []]. discriminate E.
Defined.

(** An empty file is planned as zero parts, whatever the part size. *)
Lemma total_parts_of_empty_file (part_size : Z) :
  part_size <> 0 -> total_parts 0 part_size = Ok 0.
Proof.
  intros Hps. unfold total_parts, Float.int_truediv.
  destruct (Z.eqb_spec part_size 0) as [E | _]; [contradiction |].
  cbn. destruct (part_size <? 0); reflexivity.
Qed.

(** X15. For an empty file and a part size other than zero the plan has no
    part: a run of [upload] makes no part-upload request, and every complete
    request it sends carries an empty list of parts. *)
Theorem empty_file_uploads_no_part {S} (s3 : S3 S)
    (part_size max_retries : Z) (st st' : state S)
    (r : outcome unit) (evs : list event) :
  part_size <> 0 ->
  upload s3 part_size max_retries 0 st = (r, st') ->
  trace st' = trace st ++ evs ->
  total_parts 0 part_size = Ok 0 /\
  Forall (fun ev => is_upload_part ev = false) evs /\
  (forall tm uid parts r0,
     In (CompleteMultipartUpload tm uid parts r0) evs -> parts = []).
Proof.
  intros Hps H Htrace.
  pose proof (total_parts_of_empty_file Hps) as Htotal.
  split; [exact Htotal |].
  eapply upload_run in H; [| exact Htotal | vm_compute; reflexivity].
  destruct H as (creates & ups & lists & rest & Htr & _ & Hcreates & Hcases).
  rewrite (@trace_suffix _ _ _ _ _ Htrace Htr). clear Htrace evs.
  assert (Hquiet : forall l, Forall create_phase l ->
                     Forall (fun ev => is_upload_part ev = false) l).
  { intros l Hl. eapply Forall_impl; [| exact Hl].
    intros ev [E | E]; destruct ev; try discriminate E; reflexivity. }
  destruct Hcases as [(-> & -> & -> & _) |
                      (id & pre & Hpre & _ & _ & Hplanned & Hlists &
                       Hrest & _ & Hgate & _)].
  - cbn. rewrite app_nil_r. split; [auto |].
    intros tm uid parts r0 Hin.
    rewrite Forall_forall in Hcreates. apply Hcreates in Hin.
    destruct Hin as [E | E]; discriminate E.
  - assert (Hups : Forall (fun ev => is_upload_part ev = false) ups).
    { eapply Forall_impl; [| exact Hplanned].
      intros ev Hev. destruct ev; cbn in Hev; try contradiction;
        [reflexivity | lia]. }
    destruct (phase_events Hcreates (planned_upload_phase Hplanned)
                Hlists Hrest) as (_ & _ & Hcmp & _).
    split.
    + repeat (apply Forall_app; split); auto.
      * eapply Forall_impl; [| exact Hlists].
        intros ev [E | E]; destruct ev; try discriminate E; reflexivity.
      * eapply Forall_impl; [| exact Hrest].
        intros ev [E | [E | E]]; destruct ev; try discriminate E; reflexivity.
    + intros tm uid parts r0 Hin.
      apply Hcmp in Hin; [| reflexivity].
      assert (Hne : rest <> []) by (intros N; rewrite N in Hin; exact Hin).
      destruct (Hgate Hne) as (sent & Hperm & _ & Hall).
      rewrite Forall_forall in Hall. apply Hall in Hin.
      destruct Hin as [_ ->].
      rewrite (acks_quiet Hups) in Hperm.
      apply Permutation_sym, Permutation_nil in Hperm. exact Hperm.
Qed.

Lemma empty_file_uploads_no_part_witness :
  let run := upload Scripted.client (50 * Scenario.MiB) 5 0
               (Scripted.fresh Scenario2.empty_file) in
  fst run = Ok tt /\
  total_parts 0 (50 * Scenario.MiB) = Ok 0 /\
  Forall (fun ev => is_upload_part ev = false) (trace (snd run)) /\
  (forall tm uid parts r0,
     In (CompleteMultipartUpload tm uid parts r0) (trace (snd run)) ->
     parts = []).
Proof.
  cbv zeta. split; [vm_compute; reflexivity |].
  apply (@empty_file_uploads_no_part _ Scripted.client
           (50 * Scenario.MiB) 5
           (Scripted.fresh Scenario2.empty_file)
           (snd (upload Scripted.client (50 * Scenario.MiB) 5 0
                   (Scripted.fresh Scenario2.empty_file)))
           (fst (upload Scripted.client (50 * Scenario.MiB) 5 0
                   (Scripted.fresh Scenario2.empty_file)))
           (trace (snd (upload Scripted.client (50 * Scenario.MiB) 5 0
                          (Scripted.fresh Scenario2.empty_file))))).
  - vm_compute. discriminate.
  - vm_compute. reflexivity.
  - vm_compute. reflexivity.
Defined.

(** X16. For a file of fewer than [2^53] bytes the first completion timeout
    is the floor of 60 seconds exactly when the file has at most 12 GiB;
    above that it is 5 seconds for every started GiB. *)
Theorem completion_timeout_is_one_minute_up_to_12_GiB (file_size : Z) :
  0 <= file_size < 2 ^ 53 ->
  exists t,
    completion_timeout file_size = Ok t /\
    (t = 60 <-> file_size <= 12 * 2 ^ 30) /\
    (12 * 2 ^ 30 < file_size -> t = 5 * ceil_div file_size (2 ^ 30)).
Proof.
  intros Hfs.
  pose proof (timeout_floor_exact_below_2_53 Hfs) as Ht.
  unfold timeout_floor_is_exact in Ht.
  pose proof (@ceil_div_bounds file_size (2 ^ 30) ltac:(lia)) as Hc.
  exists (Z.max 60 (5 * ceil_div file_size (2 ^ 30))).
  split; [exact Ht |].
  set (c := ceil_div file_size (2 ^ 30)) in *.
  change (2 ^ 30) with 1073741824 in *.
  split; [split |]; lia.
Qed.

Lemma completion_timeout_is_one_minute_up_to_12_GiB_witness :
  exists t,
    completion_timeout (13 * 2 ^ 30) = Ok t /\
    (t = 60 <-> 13 * 2 ^ 30 <= 12 * 2 ^ 30) /\
    (12 * 2 ^ 30 < 13 * 2 ^ 30 -> t = 5 * ceil_div (13 * 2 ^ 30) (2 ^ 30)).
Proof.
  apply (@completion_timeout_is_one_minute_up_to_12_GiB (13 * 2 ^ 30)).
  lia.
Defined.
